(** * Java Autofill Arguments: call-site location, parameter resolution and
      argument synthesis

    A shallow embedding of [src/autofill] (the [ArgumentFiller] and the
    [ArgumentCompletionProvider] classes with their types) and the
    properties of the specification that can be settled on it.

    Conventions of the embedding:
    - a JavaScript string is the list of its UTF-16 code units ([Z]);
    - offsets, lengths and array indices are [nat]; depth counters are [Z],
      as the argument counter lets its counter go below zero;
    - [null]/[undefined] results are [option]; a function that can throw
      returns an [Outcome];
    - the editor (documents, the signature-help command, the presence of
      the Java extension) is an explicit [Host] value. *)

From Stdlib Require Import Ascii String.
From Stdlib Require Import List ZArith Lia Bool Arith.
Import ListNotations.

(** ** JavaScript strings *)

Module Js.

Definition jsstring := list Z.

Definition ch (a : ascii) : Z := Z.of_N (N_of_ascii a).

Definition str (s : string) : jsstring := map ch (list_ascii_of_string s).

Definition streq (s t : jsstring) : bool :=
  if list_eq_dec Z.eq_dec s t then true else false.

(** [s[i]]: [None] is [undefined]. *)
Definition at_ (s : jsstring) (i : nat) : option Z := nth_error s i.

(** [s.charAt(i)] *)
Definition charAt (s : jsstring) (i : nat) : jsstring :=
  match nth_error s i with
  | Some c => [c]
  | None => []
  end.

(** [s.substring(a, b)]: both indices are clamped to the length and
    swapped when [a > b]. *)
Definition substring (s : jsstring) (a b : nat) : jsstring :=
  let a' := Nat.min a (length s) in
  let b' := Nat.min b (length s) in
  firstn (Nat.max a' b' - Nat.min a' b') (skipn (Nat.min a' b') s).

(** [s.substring(a)] *)
Definition substringFrom (s : jsstring) (a : nat) : jsstring := skipn a s.

(** The characters matched by [\s], which are also the ones removed by
    [trim()]: WhiteSpace and LineTerminator of ECMAScript. *)
Definition isWhiteSpace (c : Z) : bool :=
  ((9 <=? c) && (c <=? 13) || (c =? 32) || (c =? 0xA0) || (c =? 0x1680)
   || (0x2000 <=? c) && (c <=? 0x200A)
   || (c =? 0x2028) || (c =? 0x2029) || (c =? 0x202F) || (c =? 0x205F)
   || (c =? 0x3000) || (c =? 0xFEFF))%Z.

(** The class [[a-zA-Z0-9_]]. *)
Definition isIdentChar (c : Z) : bool :=
  ((ch "a" <=? c) && (c <=? ch "z") || (ch "A" <=? c) && (c <=? ch "Z")
   || (ch "0" <=? c) && (c <=? ch "9") || (c =? ch "_"))%Z.

(** [re.test(x)] for a regular expression [re] that looks for one
    character of a class, applied to [s[i]]: [undefined] is converted to
    the string "undefined" first, which has letters and no white space. *)
Definition testChar (class : Z -> bool) (inUndefinedWord : bool)
    (c : option Z) : bool :=
  match c with
  | Some c => class c
  | None => inUndefinedWord
  end.

Definition testWhiteSpace : option Z -> bool := testChar isWhiteSpace false.
Definition testIdentChar : option Z -> bool := testChar isIdentChar true.

Fixpoint trimStart (s : jsstring) : jsstring :=
  match s with
  | [] => []
  | c :: r => if isWhiteSpace c then trimStart r else s
  end.

Definition trimEnd (s : jsstring) : jsstring := rev (trimStart (rev s)).

(** [s.trim()] *)
Definition trim (s : jsstring) : jsstring := trimEnd (trimStart s).

(** [parts.join(sep)] *)
Fixpoint join (sep : jsstring) (parts : list jsstring) : jsstring :=
  match parts with
  | [] => []
  | p :: rest =>
      match rest with
      | [] => p
      | _ :: _ => p ++ sep ++ join sep rest
      end
  end.

(** [s.split(/\s+/)]: [cur] is the token being read (reversed) and
    [inSep] tells that the previous character belonged to a separator. *)
Fixpoint splitWhiteSpaceFrom (cur : jsstring) (inSep : bool) (s : jsstring)
    : list jsstring :=
  match s with
  | [] => [rev cur]
  | c :: r =>
      if isWhiteSpace c then
        if inSep then splitWhiteSpaceFrom cur true r
        else rev cur :: splitWhiteSpaceFrom [] true r
      else splitWhiteSpaceFrom (c :: cur) false r
  end.

Definition splitWhiteSpace (s : jsstring) : list jsstring :=
  splitWhiteSpaceFrom [] false s.

(** [s.split(sep)] for a separator of one character. *)
Fixpoint splitCharFrom (sep : Z) (cur : jsstring) (s : jsstring)
    : list jsstring :=
  match s with
  | [] => [rev cur]
  | c :: r =>
      if (c =? sep)%Z then rev cur :: splitCharFrom sep [] r
      else splitCharFrom sep (c :: cur) r
  end.

Definition splitChar (sep : Z) (s : jsstring) : list jsstring :=
  splitCharFrom sep [] s.

(** [parts.pop()] on an array; [undefined] when it is empty. *)
Fixpoint pop (parts : list jsstring) : option jsstring :=
  match parts with
  | [] => None
  | p :: rest =>
      match rest with
      | [] => Some p
      | _ :: _ => pop rest
      end
  end.

(** [x || d] for a string (or [undefined]) [x]. *)
Definition orElse (x : option jsstring) (d : jsstring) : jsstring :=
  match x with
  | Some (c :: r) => c :: r
  | _ => d
  end.

(** [s.startsWith(p)] *)
Fixpoint startsWith (s p : jsstring) : bool :=
  match p, s with
  | [], _ => true
  | _ :: _, [] => false
  | a :: p', b :: s' => (a =? b)%Z && startsWith s' p'
  end.

(** The decimal digits of a natural number, as [`${n}`] prints them. *)
Fixpoint digits (u : Decimal.uint) : jsstring :=
  match u with
  | Decimal.Nil => []
  | Decimal.D0 r => ch "0" :: digits r
  | Decimal.D1 r => ch "1" :: digits r
  | Decimal.D2 r => ch "2" :: digits r
  | Decimal.D3 r => ch "3" :: digits r
  | Decimal.D4 r => ch "4" :: digits r
  | Decimal.D5 r => ch "5" :: digits r
  | Decimal.D6 r => ch "6" :: digits r
  | Decimal.D7 r => ch "7" :: digits r
  | Decimal.D8 r => ch "8" :: digits r
  | Decimal.D9 r => ch "9" :: digits r
  end.

Definition numberToString (n : nat) : jsstring := digits (Nat.to_uint n).

(** [xs.map((x, i) => f(x, i))] *)
Fixpoint mapiFrom {A B : Type} (f : A -> nat -> B) (i : nat) (xs : list A)
    : list B :=
  match xs with
  | [] => []
  | x :: r => f x i :: mapiFrom f (S i) r
  end.

Definition mapi {A B : Type} (f : A -> nat -> B) (xs : list A) : list B :=
  mapiFrom f 0 xs.

(** The code points of a string, as [for (const char of s)] visits them: a
    high surrogate followed by a low one is one code point. *)
Definition isHighSurrogate (c : Z) : bool := ((0xD800 <=? c) && (c <=? 0xDBFF))%Z.
Definition isLowSurrogate (c : Z) : bool := ((0xDC00 <=? c) && (c <=? 0xDFFF))%Z.

Fixpoint codePoints (s : jsstring) : list Z :=
  match s with
  | [] => []
  | c :: r =>
      match r with
      | [] => [c]
      | d :: r' =>
          if isHighSurrogate c && isLowSurrogate d
          then (0x10000 + (c - 0xD800) * 0x400 + (d - 0xDC00))%Z :: codePoints r'
          else c :: codePoints r
      end
  end.

(** The double quote. *)
Definition dquote : Z := 34%Z.

Section LowerCase.

(** [toLowerCase()] of a string of one code unit. On ASCII it is given
    here; for the other code units it is the lower-case mapping of
    Unicode, which is left as a parameter: it never yields the empty
    string, so its result is a first code unit and the rest. *)
Variable lowerCaseMapping : Z -> Z * jsstring.

Definition toLowerCaseUnit (c : Z) : jsstring :=
  if ((ch "A" <=? c) && (c <=? ch "Z"))%Z then [(c + 32)%Z]
  else if ((0 <=? c) && (c <? 128))%Z then [c]
  else fst (lowerCaseMapping c) :: snd (lowerCaseMapping c).

(** [s.toLowerCase()] for [s] of length at most one, which is all the
    program applies it to (the result of a [charAt]). *)
Definition toLowerCase1 (s : jsstring) : jsstring :=
  match s with
  | [] => []
  | c :: _ => toLowerCaseUnit c
  end.

End LowerCase.

End Js.

Import Js.

(** ** Results of code that can throw *)

Inductive JsError : Type :=
  | TypeError
  | IllegalLine
  | Rejection.

Inductive Outcome (A : Type) : Type :=
  | Returned (a : A)
  | Thrown (e : JsError).

Arguments Returned {A} a.
Arguments Thrown {A} e.

Definition bind {A B : Type} (m : Outcome A) (k : A -> Outcome B)
    : Outcome B :=
  match m with
  | Returned a => k a
  | Thrown e => Thrown e
  end.

Notation "x <- m ;; k" := (bind m (fun x => k))
  (at level 61, m at next level, right associativity).

(** [try { body } catch { return d }] *)
Definition tryCatch {A : Type} (body : Outcome A) (d : A) : A :=
  match body with
  | Returned a => a
  | Thrown _ => d
  end.

(** ** types.ts *)

Record AutofillOptions : Type := {
  enableCompletion : bool;
  useParameterNames : bool;
  fallbackToTypeName : bool
}.

Record MethodParameter : Type := {
  name : jsstring;
  type : jsstring;
  index : nat
}.

Record ArgumentFillResult : Type := {
  arguments : jsstring;
  replaceStart : nat;
  replaceLength : nat
}.

(** ** The editor *)

Record Position : Type := {
  line : nat;
  character : nat
}.

(** A [vscode.Range]; its constructor orders the two positions. *)
Record Range : Type := {
  range_start : Position;
  range_end : Position
}.

Definition isBefore (p q : Position) : bool :=
  (line p <? line q) || (line p =? line q) && (character p <? character q).

Definition newRange (a b : Position) : Range :=
  if isBefore b a then {| range_start := b; range_end := a |}
  else {| range_start := a; range_end := b |}.

(** A document is its lines (without their terminators) and the line
    terminator it uses. *)
Record TextDocument : Type := {
  lines : list jsstring;
  eol : jsstring
}.

(** [document.getText()] *)
Definition getText (d : TextDocument) : jsstring := join (eol d) (lines d).

(** [document.lineAt(line).text]; throws on a line that does not exist. *)
Definition lineAt (d : TextDocument) (l : nat) : Outcome jsstring :=
  match nth_error (lines d) l with
  | Some t => Returned t
  | None => Thrown IllegalLine
  end.

(** The offset at which line [l] starts in [getText]. *)
Fixpoint lineStart (ls : list jsstring) (e : jsstring) (l : nat) : nat :=
  match l, ls with
  | S l', t :: rest => length t + length e + lineStart rest e l'
  | _, _ => 0
  end.

(** [document.offsetAt(position)]: the position is validated first (a
    line past the end becomes the end of the last line, a character past
    the end of its line becomes the end of the line). *)
Definition offsetAt (d : TextDocument) (p : Position) : nat :=
  match nth_error (lines d) (line p) with
  | Some t => lineStart (lines d) (eol d) (line p)
              + Nat.min (character p) (length t)
  | None => length (getText d)
  end.

(** The signature help of the editor. *)
Inductive ParameterLabel : Type :=
  | LabelString (s : jsstring)
  | LabelOffsets (a b : nat).

Record SignatureInformation : Type := {
  sig_label : jsstring;
  sig_parameters : option (list ParameterLabel)
}.

Record SignatureHelp : Type := {
  signatures : list SignatureInformation;
  activeSignature : nat
}.

(** What awaiting [vscode.commands.executeCommand] gives: the promise is
    rejected, or resolved with a signature help or [undefined]. *)
Inductive CommandResult : Type :=
  | Rejected
  | Resolved (r : option SignatureHelp).

Record Host : Type := {
  redhatJava : bool;
  executeSignatureHelpProvider : TextDocument -> Position -> CommandResult
}.

(** [isRedHatJavaExtensionAvailable()] *)
Definition isRedHatJavaExtensionAvailable (h : Host) : bool := redhatJava h.

(** ** The signature-help query

    [parseParameterLabel] and the query of the signature help have the
    same text in [ArgumentCompletionProvider] (as
    [getParametersFromSignatureHelp]) and in [ArgumentFiller] (as
    [getParametersFromLanguageServer]). *)

Module SignatureQuery.

Definition parseParameterLabel (label : jsstring) : jsstring * jsstring :=
  let trimmed := trim label in
  let parts := splitWhiteSpace trimmed in
  if 2 <=? length parts then
    let name := nth (length parts - 1) parts [] in
    let type := join (str " ") (firstn (length parts - 1) parts) in
    (name, type)
  else (trimmed, str "Object").

(** The function given to [activeSignature.parameters.map]. *)
Definition toMethodParameter (signatureLabel : jsstring)
    (param : ParameterLabel) (index : nat) : MethodParameter :=
  let paramLabel :=
    match param with
    | LabelString s => s
    | LabelOffsets a b => substring signatureLabel a b
    end in
  let (name, type) := parseParameterLabel paramLabel in
  {| name := orElse (Some name) (str "arg" ++ numberToString (index + 1));
     type := orElse (Some type) (str "Object");
     index := index |}.

(** The body of the [try]. *)
Definition query (h : Host) (document : TextDocument) (position : Position)
    : Outcome (option (list MethodParameter)) :=
  match executeSignatureHelpProvider h document position with
  | Rejected => Thrown Rejection
  | Resolved None => Returned None
  | Resolved (Some signatureHelp) =>
      if length (signatures signatureHelp) =? 0 then Returned None
      else
        match nth_error (signatures signatureHelp)
                (activeSignature signatureHelp) with
        | None => Thrown TypeError
        | Some activeSignature =>
            match sig_parameters activeSignature with
            | None => Returned None
            | Some [] => Returned None
            | Some parameters =>
                Returned (Some (mapi (toMethodParameter
                                        (sig_label activeSignature))
                                  parameters))
            end
        end
  end.

Definition getParameters (h : Host) (document : TextDocument)
    (position : Position) : option (list MethodParameter) :=
  tryCatch (query h document position) None.

End SignatureQuery.

(** ** ArgumentFiller *)

Module ArgumentFiller.

(** [MethodCallContext] *)
Record MethodCallContext : Type := {
  methodName : jsstring;
  isConstructor : bool;
  openParenOffset : nat;
  closeParenOffset : nat;
  argumentsStart : nat;
  argumentsLength : nat;
  existingArguments : jsstring
}.

(** The first loop of [findMethodCallContext]: [n] is [i + 1], so the
    loop ends with [n = 0]. *)
Fixpoint scanOpenParen (text : jsstring) (n : nat) (parenDepth : Z)
    : option nat :=
  match n with
  | 0 => None
  | S i =>
      match at_ text i with
      | Some char =>
          if (char =? ch ")")%Z then scanOpenParen text i (parenDepth + 1)%Z
          else if (char =? ch "(")%Z then
            if (parenDepth =? 0)%Z then Some i
            else scanOpenParen text i (parenDepth - 1)%Z
          else scanOpenParen text i parenDepth
      | None => scanOpenParen text i parenDepth
      end
  end.

(** The second loop: [rest] is the text from offset [i] on. *)
Fixpoint scanCloseParen (rest : jsstring) (i : nat) (parenDepth : Z)
    : option nat :=
  match rest with
  | [] => None
  | char :: rest' =>
      if (char =? ch "(")%Z then scanCloseParen rest' (S i) (parenDepth + 1)%Z
      else if (char =? ch ")")%Z then
        if (parenDepth - 1 =? 0)%Z then Some i
        else scanCloseParen rest' (S i) (parenDepth - 1)%Z
      else scanCloseParen rest' (S i) parenDepth
  end.

(** [while (start > 0 && re.test(text[start - 1])) start--] *)
Fixpoint skipBack (test : option Z -> bool) (text : jsstring) (start : nat)
    : nat :=
  match start with
  | 0 => 0
  | S i => if test (at_ text i) then skipBack test text i else start
  end.

Definition extractMethodName (text : jsstring) (openParenOffset : nat)
    : option (jsstring * bool) :=
  let end_ := skipBack testWhiteSpace text openParenOffset in
  let start := skipBack testIdentChar text end_ in
  if start =? end_ then None
  else
    let name := substring text start end_ in
    let beforeName := skipBack testWhiteSpace text start in
    let isConstructor :=
      (3 <=? beforeName)
      && streq (substring text (beforeName - 3) beforeName) (str "new") in
    Some (name, isConstructor).

Definition findMethodCallContext (text : jsstring) (offset : nat)
    : option MethodCallContext :=
  let scanStart := if 0 <? offset then offset - 1 else 0 in
  match scanOpenParen text (S scanStart) 0 with
  | None => None
  | Some openParenOffset =>
      match scanCloseParen (skipn (openParenOffset + 1) text)
              (openParenOffset + 1) 1 with
      | None => None
      | Some closeParenOffset =>
          match extractMethodName text openParenOffset with
          | None => None
          | Some (name, isConstructor) =>
              let existingArgs :=
                trim (substring text (openParenOffset + 1) closeParenOffset) in
              Some {| methodName := name;
                      isConstructor := isConstructor;
                      openParenOffset := openParenOffset;
                      closeParenOffset := closeParenOffset;
                      argumentsStart := openParenOffset + 1;
                      argumentsLength :=
                        closeParenOffset - openParenOffset - 1;
                      existingArguments := existingArgs |}
          end
      end
  end.

(** The variables of the loop of [countArguments]; [stringChar] is [None]
    for its initial value, the empty string. *)
Record CountState : Type := {
  count : nat;
  depth : Z;
  inString : bool;
  stringChar : option Z
}.

Definition isOpener (c : Z) : bool :=
  ((c =? ch "(") || (c =? ch "[") || (c =? ch "{"))%Z.

Definition isCloser (c : Z) : bool :=
  ((c =? ch ")") || (c =? ch "]") || (c =? ch "}"))%Z.

Definition isQuote (c : Z) : bool := ((c =? dquote) || (c =? ch "'"))%Z.

Definition countStep (st : CountState) (char : Z) : CountState :=
  if negb (inString st) then
    if isQuote char then
      {| count := count st; depth := depth st;
         inString := true; stringChar := Some char |}
    else if isOpener char then
      {| count := count st; depth := (depth st + 1)%Z;
         inString := inString st; stringChar := stringChar st |}
    else if isCloser char then
      {| count := count st; depth := (depth st - 1)%Z;
         inString := inString st; stringChar := stringChar st |}
    else if (char =? ch ",")%Z && (depth st =? 0)%Z then
      {| count := count st + 1; depth := depth st;
         inString := inString st; stringChar := stringChar st |}
    else st
  else
    match stringChar st with
    | Some q =>
        if (char =? q)%Z then
          {| count := count st; depth := depth st;
             inString := false; stringChar := stringChar st |}
        else st
    | None => st
    end.

Definition countArguments (argsString : jsstring) : nat :=
  match trim argsString with
  | [] => 0
  | _ :: _ =>
      count (fold_left countStep (codePoints argsString)
               {| count := 1; depth := 0%Z;
                  inString := false; stringChar := None |})
  end.

(** A value read from the object literal [knownPatterns]: one of its own
    properties (an array of names), a property inherited from
    [Object.prototype] (a function, or the prototype itself for
    [__proto__]), or [undefined]. *)
Inductive PropertyValue : Type :=
  | OwnArray (names : list jsstring)
  | Inherited
  | Undefined.

Definition knownPatterns : list (jsstring * list jsstring) :=
  [ (str "equals", [str "obj"]);
    (str "compareTo", [str "other"]);
    (str "indexOf", [str "element"]);
    (str "contains", [str "element"]);
    (str "add", [str "element"]);
    (str "remove", [str "element"]);
    (str "put", [str "key"; str "value"]);
    (str "get", [str "key"]);
    (str "substring", [str "beginIndex"; str "endIndex"]);
    (str "replace", [str "oldValue"; str "newValue"]);
    (str "split", [str "regex"]);
    (str "format", [str "format"; str "args"]);
    (str "printf", [str "format"; str "args"]);
    (str "println", [str "message"]);
    (str "print", [str "message"]);
    (str "append", [str "str"]);
    (str "insert", [str "offset"; str "str"]) ].

(** The properties of [Object.prototype]. *)
Definition objectPrototype : list jsstring :=
  [ str "constructor"; str "hasOwnProperty"; str "isPrototypeOf";
    str "propertyIsEnumerable"; str "toLocaleString"; str "toString";
    str "valueOf"; str "__proto__"; str "__defineGetter__";
    str "__defineSetter__"; str "__lookupGetter__"; str "__lookupSetter__" ].

Fixpoint ownProperty (table : list (jsstring * list jsstring))
    (key : jsstring) : option (list jsstring) :=
  match table with
  | [] => None
  | (k, v) :: rest => if streq k key then Some v else ownProperty rest key
  end.

(** [knownPatterns[methodName]] *)
Definition getProperty (key : jsstring) : PropertyValue :=
  match ownProperty knownPatterns key with
  | Some names => OwnArray names
  | None =>
      if existsb (fun k => streq k key) objectPrototype then Inherited
      else Undefined
  end.

Section Filler.

Variable lowerCaseMapping : Z -> Z * jsstring.
Variable options : AutofillOptions.

Definition generatePlaceholderParameters (methodName : jsstring)
    (_isConstructor : bool) : Outcome (list MethodParameter) :=
  if startsWith methodName (str "set") && (3 <? length methodName) then
    let fieldName :=
      toLowerCase1 lowerCaseMapping (charAt methodName 3)
      ++ substringFrom methodName 4 in
    Returned [ {| name := fieldName; type := str "Object"; index := 0 |} ]
  else
    match getProperty methodName with
    | OwnArray patternParams =>
        Returned (mapi (fun name index =>
                          {| name := name; type := str "Object";
                             index := index |}) patternParams)
    | Inherited => Thrown TypeError
    | Undefined => Returned []
    end.

Definition parseParametersFromContext (text : jsstring)
    (context : MethodCallContext) : Outcome (option (list MethodParameter)) :=
  if (0 <? length (existingArguments context))
     && (0 <? countArguments (existingArguments context))
  then Returned None
  else if fallbackToTypeName options then
    ps <- generatePlaceholderParameters (methodName context)
            (isConstructor context) ;;
    Returned (Some ps)
  else Returned None.

(** The function mapped over the parameters when type names are used. *)
Definition typeDerivedName (p : MethodParameter) : jsstring :=
  let typeName :=
    orElse (pop (splitChar (ch ".")
                   (filter (fun c => negb ((c =? ch "<") || (c =? ch ">")
                                           || (c =? ch "[") || (c =? ch "]"))%Z)
                      (type p))))
      (str "arg") in
  toLowerCase1 lowerCaseMapping (charAt typeName 0) ++ substringFrom typeName 1.

Definition generateArgumentString (parameters : list MethodParameter)
    : jsstring :=
  if useParameterNames options then
    join (str ", ") (map name parameters)
  else if fallbackToTypeName options then
    join (str ", ") (map typeDerivedName parameters)
  else
    join (str ", ")
      (mapi (fun _ i => str "arg" ++ numberToString (i + 1)) parameters).

Definition getParametersFromLanguageServer (h : Host)
    (document : TextDocument) (position : Position)
    (_context : MethodCallContext) : option (list MethodParameter) :=
  SignatureQuery.getParameters h document position.

Definition fillArguments (h : Host) (document : TextDocument)
    (position : Position) : Outcome (option ArgumentFillResult) :=
  let hasJavaSupport := isRedHatJavaExtensionAvailable h in
  let text := getText document in
  let offset := offsetAt document position in
  match findMethodCallContext text offset with
  | None => Returned None
  | Some methodCallInfo =>
      let parameters :=
        if hasJavaSupport
        then getParametersFromLanguageServer h document position
               methodCallInfo
        else None in
      parameters <-
        match parameters with
        | None => parseParametersFromContext text methodCallInfo
        | Some ps => Returned (Some ps)
        end ;;
      match parameters with
      | None => Returned None
      | Some [] => Returned None
      | Some ps =>
          Returned (Some {| arguments := generateArgumentString ps;
                            replaceStart := argumentsStart methodCallInfo;
                            replaceLength := argumentsLength methodCallInfo |})
      end
  end.

End Filler.

End ArgumentFiller.

(** ** ArgumentCompletionProvider *)

Module ArgumentCompletionProvider.

Inductive CompletionItemKind : Type :=
  | Snippet
  | Variable_.

Record CompletionItem : Type := {
  item_label : jsstring;
  item_kind : CompletionItemKind;
  item_insertText : option jsstring;
  item_detail : jsstring;
  item_documentation : option jsstring;
  item_sortText : jsstring;
  item_preselect : bool;
  item_range : option Range
}.

(** [/[a-zA-Z0-9_]$/.test(s)] *)
Definition endsWithIdentChar (s : jsstring) : bool :=
  match rev s with
  | [] => false
  | c :: _ => isIdentChar c
  end.

(** The loop of [isInsideMethodCall]; [n] is [i + 1]. *)
Fixpoint isInsideMethodCallFrom (textBeforeCursor : jsstring) (n : nat)
    (parenDepth : Z) : bool :=
  match n with
  | 0 => false
  | S i =>
      match at_ textBeforeCursor i with
      | Some char =>
          if (char =? ch ")")%Z
          then isInsideMethodCallFrom textBeforeCursor i (parenDepth + 1)%Z
          else if (char =? ch "(")%Z then
            if (parenDepth =? 0)%Z then
              let beforeParen := trim (substring textBeforeCursor 0 i) in
              endsWithIdentChar beforeParen
            else isInsideMethodCallFrom textBeforeCursor i (parenDepth - 1)%Z
          else isInsideMethodCallFrom textBeforeCursor i parenDepth
      | None => isInsideMethodCallFrom textBeforeCursor i parenDepth
      end
  end.

Definition isInsideMethodCall (textBeforeCursor : jsstring) : bool :=
  isInsideMethodCallFrom textBeforeCursor (length textBeforeCursor) 0.

Definition isOpener (c : Z) : bool :=
  ((c =? ch "(") || (c =? ch "[") || (c =? ch "{"))%Z.

Definition isCloser (c : Z) : bool :=
  ((c =? ch ")") || (c =? ch "]") || (c =? ch "}"))%Z.

(** The first loop of [calculateReplaceRange] over [textAfterCursor]: the
    index at which it breaks, [None] when it runs to the end. *)
Fixpoint scanArgumentEnd (rest : jsstring) (i : nat) (depth : Z)
    : option nat :=
  match rest with
  | [] => None
  | char :: rest' =>
      if isOpener char then scanArgumentEnd rest' (S i) (depth + 1)%Z
      else if isCloser char then
        if (depth =? 0)%Z then Some i
        else scanArgumentEnd rest' (S i) (depth - 1)%Z
      else if (char =? ch ",")%Z && (depth =? 0)%Z then Some i
      else scanArgumentEnd rest' (S i) depth
  end.

(** The second loop, over [textBeforeCursor]: the index of the nearest
    ['('] or [','] before the cursor; [n] is [i + 1]. *)
Fixpoint scanArgumentStart (textBeforeCursor : jsstring) (n : nat)
    : option nat :=
  match n with
  | 0 => None
  | S i =>
      match at_ textBeforeCursor i with
      | Some char =>
          if ((char =? ch "(") || (char =? ch ","))%Z then Some i
          else scanArgumentStart textBeforeCursor i
      | None => scanArgumentStart textBeforeCursor i
      end
  end.

(** [while (startChar < limit && /\s/.test(lineText[startChar]))
    startChar++]; [n] bounds the iterations and [limit - startChar] is
    enough. *)
Fixpoint skipWhiteSpace (lineText : jsstring) (limit startChar n : nat)
    : nat :=
  match n with
  | 0 => startChar
  | S n' =>
      if (startChar <? limit) && testWhiteSpace (at_ lineText startChar)
      then skipWhiteSpace lineText limit (S startChar) n'
      else startChar
  end.

Definition calculateReplaceRange (document : TextDocument)
    (position : Position) : Outcome (option Range) :=
  lineText <- lineAt document (line position) ;;
  let textAfterCursor := substringFrom lineText (character position) in
  let endChar :=
    match scanArgumentEnd textAfterCursor 0 0 with
    | Some i => character position + i
    | None => character position
    end in
  let textBeforeCursor := substring lineText 0 (character position) in
  let startChar :=
    match scanArgumentStart textBeforeCursor (length textBeforeCursor) with
    | Some i =>
        skipWhiteSpace lineText (character position) (i + 1)
          (character position - (i + 1))
    | None => character position
    end in
  Returned (Some (newRange {| line := line position; character := startChar |}
                           {| line := line position; character := endChar |})).

Definition createCompletionItems (parameters : list MethodParameter)
    (document : TextDocument) (position : Position)
    : Outcome (list CompletionItem) :=
  let allArgsString := join (str ", ") (map name parameters) in
  range <- calculateReplaceRange document position ;;
  let allArgsItem :=
    {| item_label := str "Fill all arguments";
       item_kind := Snippet;
       item_insertText :=
         Some (join (str ", ")
                 (mapi (fun p i =>
                          str "${" ++ numberToString (i + 1) ++ str ":"
                          ++ name p ++ str "}") parameters));
       item_detail := str "Fill with: " ++ allArgsString;
       item_documentation :=
         Some (str "Fills all method arguments with parameter names:"
               ++ [10%Z; 10%Z] ++ str "`" ++ allArgsString ++ str "`");
       item_sortText := str "0";
       item_preselect := true;
       item_range := range |} in
  Returned
    (allArgsItem
     :: mapi (fun param index =>
                {| item_label := name param;
                   item_kind := Variable_;
                   item_insertText := None;
                   item_detail :=
                     str "Parameter " ++ numberToString (index + 1)
                     ++ str ": " ++ type param;
                   item_documentation := None;
                   item_sortText := str "1" ++ numberToString index;
                   item_preselect := false;
                   item_range := None |}) parameters).

Section Provider.

Variable options : AutofillOptions.

Definition getParametersFromSignatureHelp (h : Host)
    (document : TextDocument) (position : Position)
    : option (list MethodParameter) :=
  SignatureQuery.getParameters h document position.

Definition provideCompletionItems (h : Host) (document : TextDocument)
    (position : Position) : Outcome (option (list CompletionItem)) :=
  if negb (enableCompletion options) then Returned None
  else
    lineText <- lineAt document (line position) ;;
    let textBeforeCursor := substring lineText 0 (character position) in
    if negb (isInsideMethodCall textBeforeCursor) then Returned None
    else
      let hasJavaSupport := isRedHatJavaExtensionAvailable h in
      let parameters :=
        if hasJavaSupport
        then getParametersFromSignatureHelp h document position
        else None in
      match parameters with
      | None => Returned None
      | Some [] => Returned None
      | Some ps =>
          items <- createCompletionItems ps document position ;;
          Returned (Some items)
      end.

End Provider.

End ArgumentCompletionProvider.

(** * What the specification says, as definitions *)

(** A blank string has white space only. *)
Definition isBlank (s : jsstring) : bool := forallb isWhiteSpace s.

(** ** The argument-list analyzer *)

Module ArgumentListAnalyzer.

Import ArgumentFiller.

(** What the specification counts, said without the loop.

    The literal in which the text that follows [pre] lies, as the quote
    that opened it: a quote opens a literal outside of one, and only the
    same quote closes it. *)
Definition literalStep (q : option Z) (c : Z) : option Z :=
  match q with
  | None => if isQuote c then Some c else None
  | Some o => if (c =? o)%Z then None else Some o
  end.

Definition openLiteral (pre : jsstring) : option Z :=
  fold_left literalStep pre None.

Definition outside (pre : jsstring) : bool :=
  match openLiteral pre with
  | None => true
  | Some _ => false
  end.

(** The number of positions of [s] at which [P] holds of the text before
    the position and of the character at it. *)
Definition countPositions (P : jsstring -> Z -> bool) (s : jsstring) : nat :=
  length (filter (fun j => P (firstn j s) (nth j s 0%Z)) (seq 0 (length s))).

(** The bracket depth after [pre]: openers minus closers, of any of the
    three kinds, outside of literals. *)
Definition depthAfter (pre : jsstring) : Z :=
  (Z.of_nat (countPositions (fun p c => isOpener c && outside p) pre)
   - Z.of_nat (countPositions (fun p c => isCloser c && outside p) pre))%Z.

Definition topLevelComma (pre : jsstring) (c : Z) : bool :=
  (c =? ch ",")%Z && (depthAfter pre =? 0)%Z && outside pre.

Definition topLevelCommas (s : jsstring) : nat :=
  countPositions topLevelComma s.

Definition initial : CountState :=
  {| count := 1; depth := 0%Z; inString := false; stringChar := None |}.

(** The variables of the loop after the characters of [s]. *)
Definition tracks (s : jsstring) (st : CountState) : Prop :=
  count st = 1 + topLevelCommas s
  /\ depth st = depthAfter s
  /\ inString st = negb (outside s)
  /\ (inString st = true -> stringChar st = openLiteral s).

(** A character that is not ASCII changes nothing while the remembered
    quote is none or a quote, which it always is. *)
Definition quoteOrNone (st : CountState) : Prop :=
  match stringChar st with
  | None => True
  | Some q => isQuote q = true
  end.

End ArgumentListAnalyzer.

(** ** The argument text synthesizer *)

Module ArgumentTextSynthesizer.

(** The type without its angle brackets and square brackets. *)
Definition stripBrackets (t : jsstring) : jsstring :=
  filter (fun c => negb ((c =? ch "<") || (c =? ch ">")
                         || (c =? ch "[") || (c =? ch "]"))%Z) t.

Definition occurs (sep : Z) (s : jsstring) : bool := existsb (Z.eqb sep) s.

(** The substring after the last [sep]; all of [s] when it has none. *)
Fixpoint afterLast (sep : Z) (s : jsstring) : jsstring :=
  match s with
  | [] => []
  | c :: r =>
      if occurs sep r then afterLast sep r
      else if (c =? sep)%Z then r
      else c :: r
  end.

Section Synthesizer.

Variable lowerCaseMapping : Z -> Z * jsstring.

(** [s] with its first character lower-cased. *)
Definition lowerFirst (s : jsstring) : jsstring :=
  match s with
  | [] => []
  | c :: r => toLowerCaseUnit lowerCaseMapping c ++ r
  end.

(** The identifier derived from a type. *)
Definition typeIdentifier (t : jsstring) : jsstring :=
  match lowerFirst (afterLast (ch ".") (stripBrackets t)) with
  | [] => str "arg"
  | c :: r => c :: r
  end.

(** The text of parameter [p], the [i]-th of the list counting from 0,
    by the precedence of the options. *)
Definition argumentText (options : AutofillOptions) (p : MethodParameter)
    (i : nat) : jsstring :=
  if useParameterNames options then name p
  else if fallbackToTypeName options then typeIdentifier (type p)
  else str "arg" ++ numberToString (i + 1).

End Synthesizer.

End ArgumentTextSynthesizer.

(** ** The labels of the symbol source *)

Module SymbolSourceAdapter.

(** The tokens of a label: its maximal runs of characters that are not
    white space, in order. [cur] is the run being read, reversed. *)
Fixpoint tokensFrom (cur : jsstring) (s : jsstring) : list jsstring :=
  match s with
  | [] =>
      match cur with
      | [] => []
      | _ :: _ => [rev cur]
      end
  | c :: r =>
      if isWhiteSpace c then
        match cur with
        | [] => tokensFrom [] r
        | _ :: _ => rev cur :: tokensFrom [] r
        end
      else tokensFrom (c :: cur) r
  end.

Definition tokens (s : jsstring) : list jsstring := tokensFrom [] s.

(** The text of a label of the signature help. *)
Definition labelText (signatureLabel : jsstring) (param : ParameterLabel)
    : jsstring :=
  match param with
  | LabelString s => s
  | LabelOffsets a b => substring signatureLabel a b
  end.

(** The parameter that a label stands for: the last token is the name and
    the tokens before it, joined by single spaces, are the type. *)
Definition parameterOfLabel (label : jsstring) (index : nat)
    : MethodParameter :=
  match rev (tokens label) with
  | [] =>
      {| name := str "arg" ++ numberToString (index + 1);
         type := str "Object"; index := index |}
  | [t] => {| name := t; type := str "Object"; index := index |}
  | t :: before =>
      {| name := t; type := join (str " ") (rev before); index := index |}
  end.

(** The last character of [s] is not white space; [d] when [s] is
    empty. *)
Fixpoint endsInText (d : bool) (s : jsstring) : bool :=
  match s with
  | [] => d
  | c :: r => endsInText (negb (isWhiteSpace c)) r
  end.

Definition nonEmpty (s : jsstring) : bool :=
  match s with
  | [] => false
  | _ :: _ => true
  end.

End SymbolSourceAdapter.

(** ** The call-site locator *)

Module CallSiteLocator.

(** [text[a..b)] *)
Definition segment (text : jsstring) (a b : nat) : jsstring :=
  skipn a (firstn b text).

Definition occurrences (c : Z) (s : jsstring) : Z :=
  Z.of_nat (count_occ Z.eq_dec s c).

(** How many more ['('] than [')'] a text has. *)
Definition unclosed (s : jsstring) : Z :=
  (occurrences (ch "(") s - occurrences (ch ")") s)%Z.

(** [p] is the innermost ['('] that is not closed before offset [e]: the
    text from [p] to [e] opens one parenthesis more than it closes, and
    the text from no later offset to [e] opens more than it closes. *)
Definition innermostOpen (text : jsstring) (e p : nat) : Prop :=
  at_ text p = Some (ch "(")
  /\ p < e
  /\ unclosed (segment text p e) = 1%Z
  /\ forall j, p < j < e -> (unclosed (segment text j e) <= 0)%Z.

(** No ['('] is left open before offset [e]. *)
Definition noOpen (text : jsstring) (e : nat) : Prop :=
  forall j, j < e -> (unclosed (segment text j e) <= 0)%Z.

(** [q] is the [')'] that closes the ['('] at [p]: the text from [p] to
    [q] included is balanced, and no shorter text from [p] is. *)
Definition matchingClose (text : jsstring) (p q : nat) : Prop :=
  p < q
  /\ at_ text q = Some (ch ")")
  /\ unclosed (segment text p (S q)) = 0%Z
  /\ forall k, p <= k < q -> (1 <= unclosed (segment text p (S k)))%Z.

(** The ['('] at [p] is not closed in the text. *)
Definition noClose (text : jsstring) (p : nat) : Prop :=
  forall k, p <= k < length text ->
            (1 <= unclosed (segment text p (S k)))%Z.

(** The contribution of one character to [unclosed]. *)
Definition delta (c : Z) : Z :=
  if (c =? ch "(")%Z then 1%Z else if (c =? ch ")")%Z then (-1)%Z else 0%Z.

(** The offset from which the backward scan starts. *)
Definition scanStart (offset : nat) : nat := Nat.max (offset - 1) 0.

End CallSiteLocator.

(** ** The parameter resolver *)

Module ParameterResolver.

(** The symbol source gives no parameters: the Java extension is absent,
    or the query of the signature help yields nothing. *)
Definition noAdapterData (h : Host) (document : TextDocument)
    (position : Position) : Prop :=
  redhatJava h = false
  \/ SignatureQuery.getParameters h document position = None.

(** The callee has the form of a setter: "set" and one character more at
    least. *)
Definition isSetter (callee : jsstring) : bool :=
  startsWith callee (str "set") && (3 <? length callee).

(** Lower case of an ASCII character. *)
Definition asciiLower (c : Z) : Z :=
  if ((ch "A" <=? c) && (c <=? ch "Z"))%Z then (c + 32)%Z else c.

(** The parameters of the heuristic table: the given names, each of the
    generic object type, numbered from 0. *)
Definition objectParameters (names : list jsstring) : list MethodParameter :=
  mapi (fun n i => {| name := n; type := str "Object"; index := i |}) names.

(** The resolution of [ctx] goes by the heuristics: a call site is
    located, nothing stands between its parentheses but white space, and
    the symbol source gives no parameters. *)
Definition heuristicPath (h : Host) (document : TextDocument)
    (position : Position) (ctx : ArgumentFiller.MethodCallContext) : Prop :=
  ArgumentFiller.findMethodCallContext (getText document)
    (offsetAt document position) = Some ctx
  /\ ArgumentFiller.existingArguments ctx = []
  /\ noAdapterData h document position.

(** Editors and documents for the examples. *)
Definition noJavaExtension : Host :=
  {| redhatJava := false;
     executeSignatureHelpProvider := fun _ _ => Resolved None |}.

Definition javaExtensionWith (help : SignatureHelp) : Host :=
  {| redhatJava := true;
     executeSignatureHelpProvider := fun _ _ => Resolved (Some help) |}.

Definition singleLine (s : jsstring) : TextDocument :=
  {| lines := [s]; eol := [10%Z] |}.

Definition allTrue : AutofillOptions :=
  {| enableCompletion := true; useParameterNames := true;
     fallbackToTypeName := true |}.

Definition typeNamesOnly : AutofillOptions :=
  {| enableCompletion := true; useParameterNames := false;
     fallbackToTypeName := true |}.

(** A lower-case mapping that leaves the characters beyond ASCII as they
    are; the examples have ASCII text only. *)
Definition unchanged (c : Z) : Z * jsstring := (c, []).

(** The signature help for a call of [m(int a, String b)]. *)
Definition helpIntString : SignatureHelp :=
  {| signatures :=
       [ {| sig_label := str "m(int a, String b)";
            sig_parameters :=
              Some [LabelString (str "int a"); LabelOffsets 9 17] |} ];
     activeSignature := 0 |}.

End ParameterResolver.

(** ** The completion surface *)

Module CompletionSurface.

Import ArgumentCompletionProvider.

(** The contribution of one character to the bracket depth. *)
Definition bracketDelta (c : Z) : Z :=
  if isOpener c then 1%Z else if isCloser c then (-1)%Z else 0%Z.

(** Openers minus closers, of any of the three kinds. *)
Fixpoint bracketDepth (s : jsstring) : Z :=
  match s with
  | [] => 0%Z
  | c :: r => (bracketDelta c + bracketDepth r)%Z
  end.

(** At offset [k] of the text after the cursor stands a comma or a
    closing bracket, at bracket depth 0 counted from depth [d]. *)
Definition stopsFrom (d : Z) (after : jsstring) (k : nat) : bool :=
  match nth_error after k with
  | Some c =>
      (isCloser c || (c =? ch ",")%Z)
      && (d + bracketDepth (firstn k after) =? 0)%Z
  | None => false
  end.

(** A top-level comma or closing bracket, counted from the cursor. *)
Definition stops (after : jsstring) (k : nat) : bool := stopsFrom 0 after k.

(** The check of the completion surface passes on the text before the
    cursor: a ['('] is left open in it and, white space apart, an
    identifier character stands before it. *)
Definition insideCall (textBeforeCursor : jsstring) : Prop :=
  exists p,
    CallSiteLocator.innermostOpen textBeforeCursor
      (length textBeforeCursor) p
    /\ endsWithIdentChar (trim (firstn p textBeforeCursor)) = true.

(** A document of two lines, for the examples. *)
Definition twoLines : TextDocument :=
  {| lines := [str "foo(a,"; str "    b)"]; eol := [10%Z] |}.

End CompletionSurface.

(** ** Shapes of texts *)

Module TextShape.

(** [s] has no white space. *)
Definition hasNoWhiteSpace (s : jsstring) : Prop :=
  Forall (fun c => isWhiteSpace c = false) s.

(** [s] has no parenthesis. *)
Definition hasNoParen (s : jsstring) : Prop :=
  Forall (fun c => c <> ch "(" /\ c <> ch ")") s.

(** [s] is made of identifier characters. *)
Definition isIdentifier (s : jsstring) : Prop :=
  Forall (fun c => isIdentChar c = true) s.

(** A character that is no quote and no bracket. *)
Definition plainChar (c : Z) : bool :=
  negb (ArgumentFiller.isQuote c) && negb (ArgumentFiller.isOpener c)
  && negb (ArgumentFiller.isCloser c).

(** The number of commas of a text. *)
Definition commas (s : jsstring) : nat := count_occ Z.eq_dec s (ch ",").

(** The text after the replacement that a fill result describes: the
    [replaceLength] characters from [replaceStart] give way to
    [arguments]. *)
Definition applyFill (text : jsstring) (r : ArgumentFillResult) : jsstring :=
  firstn (replaceStart r) text ++ arguments r
  ++ skipn (replaceStart r + replaceLength r) text.

(** [a < b] on strings: the order of the code units at the first place
    where the two differ, a proper prefix first. *)
Fixpoint sortsBefore (a b : jsstring) : bool :=
  match a, b with
  | _, [] => false
  | [], _ :: _ => true
  | x :: a', y :: b' => (x <? y)%Z || ((x =? y)%Z && sortsBefore a' b')
  end.

End TextShape.

(** * Properties *)

(** ** Strings: blank strings and [trim] *)

Module JsFacts.

Lemma trimStart_cases (s : jsstring) :
  trimStart s = []
  \/ exists c r, trimStart s = c :: r /\ isWhiteSpace c = false.
Proof.
  induction s as [|c r IH]; simpl; [now left|].
  destruct (isWhiteSpace c) eqn:E; [exact IH|].
  right. now exists c, r.
Qed.

Lemma trimStart_nil_iff (s : jsstring) :
  trimStart s = [] <-> isBlank s = true.
Proof.
  unfold isBlank. induction s as [|c r IH]; simpl; [tauto|].
  destruct (isWhiteSpace c); simpl; [exact IH|].
  split; discriminate.
Qed.

(** [trimStart] removes a blank prefix. *)
Lemma trimStart_split (s : jsstring) :
  exists w, s = w ++ trimStart s /\ isBlank w = true.
Proof.
  induction s as [|c r [w [E B]]]; simpl.
  - now exists [].
  - destruct (isWhiteSpace c) eqn:W.
    + exists (c :: w). simpl. unfold isBlank in *. simpl.
      rewrite W, B. split; [now f_equal|reflexivity].
    + now exists [].
Qed.

Lemma trimStart_snoc (s : jsstring) (c : Z) :
  isWhiteSpace c = false -> trimStart (s ++ [c]) = trimStart s ++ [c].
Proof.
  intros W. induction s as [|a r IH]; simpl.
  - now rewrite W.
  - destruct (isWhiteSpace a); [exact IH|reflexivity].
Qed.

Lemma trimEnd_cons (c : Z) (r : jsstring) :
  isWhiteSpace c = false -> trimEnd (c :: r) = c :: trimEnd r.
Proof.
  intros W. unfold trimEnd. simpl.
  rewrite trimStart_snoc by exact W.
  now rewrite rev_app_distr.
Qed.

Lemma isBlank_rev (s : jsstring) : isBlank (rev s) = isBlank s.
Proof.
  unfold isBlank. induction s as [|c r IH]; simpl; [reflexivity|].
  rewrite forallb_app, IH. simpl. rewrite andb_true_r. apply andb_comm.
Qed.

Lemma trimEnd_nil_iff (s : jsstring) : trimEnd s = [] <-> isBlank s = true.
Proof.
  unfold trimEnd. rewrite <- isBlank_rev, <- trimStart_nil_iff.
  split; intros H.
  - apply (f_equal (@rev Z)) in H. now rewrite rev_involutive in H.
  - now rewrite H.
Qed.

(** [s.trim()] is empty exactly for a blank [s]. *)
Lemma trim_nil_iff (s : jsstring) : trim s = [] <-> isBlank s = true.
Proof.
  unfold trim. rewrite trimEnd_nil_iff.
  destruct (trimStart_cases s) as [E | (c & r & E & W)].
  - rewrite E. simpl. rewrite <- trimStart_nil_iff. tauto.
  - rewrite E. unfold isBlank at 1. simpl. rewrite W. simpl.
    rewrite <- trimStart_nil_iff, E. split; discriminate.
Qed.

(** A trimmed string that is not empty starts with a character that is
    not white space. *)
Lemma trim_head (s : jsstring) (c : Z) (r : jsstring) :
  trim s = c :: r -> isWhiteSpace c = false.
Proof.
  unfold trim. destruct (trimStart_cases s) as [E | (a & t & E & W)];
    rewrite E.
  - discriminate.
  - rewrite trimEnd_cons by exact W. now intros [= <- _].
Qed.

Lemma mapiFrom_ext {A B : Type} (f g : A -> nat -> B) (xs : list A) :
  forall i, (forall x j, f x j = g x j) -> mapiFrom f i xs = mapiFrom g i xs.
Proof.
  induction xs as [|x r IH]; intros i H; simpl; [reflexivity|].
  now rewrite H, (IH (S i) H).
Qed.

Lemma mapiFrom_const {A B : Type} (f : A -> B) (xs : list A) :
  forall i, mapiFrom (fun x _ => f x) i xs = map f xs.
Proof.
  induction xs as [|x r IH]; intros i; simpl; [reflexivity|].
  now rewrite IH.
Qed.

End JsFacts.

Import JsFacts.

(** ** The argument counter *)

Module ArgumentListAnalyzerFacts.

Import ArgumentFiller ArgumentListAnalyzer.

Lemma countPositions_snoc (P : jsstring -> Z -> bool) (s : jsstring) (c : Z) :
  countPositions P (s ++ [c])
  = countPositions P s + (if P s c then 1 else 0).
Proof.
  unfold countPositions.
  replace (length (s ++ [c])) with (S (length s))
    by (rewrite length_app; simpl; lia).
  rewrite seq_S, filter_app, length_app. simpl.
  rewrite firstn_app, Nat.sub_diag, firstn_all. simpl. rewrite app_nil_r.
  rewrite app_nth2, Nat.sub_diag by lia. simpl.
  f_equal.
  - f_equal. apply filter_ext_in. intros j Hj. apply in_seq in Hj.
    rewrite firstn_app. replace (j - length s) with 0 by lia.
    simpl. rewrite app_nil_r. now rewrite app_nth1 by lia.
  - now destruct (P s c).
Qed.

Lemma openLiteral_snoc (s : jsstring) (c : Z) :
  openLiteral (s ++ [c]) = literalStep (openLiteral s) c.
Proof. unfold openLiteral. now rewrite fold_left_app. Qed.

Ltac chars :=
  unfold isQuote, isOpener, isCloser, dquote, ch in *; simpl in *;
  repeat match goal with
         | H : _ || _ = true |- _ => apply orb_true_iff in H; destruct H
         | H : _ || _ = false |- _ => apply orb_false_iff in H; destruct H
         | H : (_ =? _)%Z = true |- _ => apply Z.eqb_eq in H
         | H : (_ =? _)%Z = false |- _ => apply Z.eqb_neq in H
         end;
  repeat match goal with
         | |- _ || _ = false => apply orb_false_iff; split
         | |- (_ =? _)%Z = false => apply Z.eqb_neq
         | |- (_ =? _)%Z = true => apply Z.eqb_eq
         end;
  try lia.

Lemma topLevelCommas_snoc (s : jsstring) (c : Z) :
  topLevelCommas (s ++ [c])
  = topLevelCommas s + (if topLevelComma s c then 1 else 0).
Proof. apply countPositions_snoc. Qed.

Lemma depthAfter_snoc (s : jsstring) (c : Z) :
  depthAfter (s ++ [c])
  = (depthAfter s + (if isOpener c && outside s then 1 else 0)
     - (if isCloser c && outside s then 1 else 0))%Z.
Proof.
  unfold depthAfter. rewrite !countPositions_snoc.
  destruct (isOpener c && outside s), (isCloser c && outside s); lia.
Qed.

Lemma outside_snoc (s : jsstring) (c : Z) :
  outside (s ++ [c])
  = match literalStep (openLiteral s) c with
    | None => true
    | Some _ => false
    end.
Proof. unfold outside. now rewrite openLiteral_snoc. Qed.

Lemma tracks_step (s : jsstring) (st : CountState) (c : Z) :
  tracks s st -> tracks (s ++ [c]) (countStep st c).
Proof.
  intros (Hc & Hd & Hi & Hq). unfold tracks.
  rewrite topLevelCommas_snoc, depthAfter_snoc, outside_snoc,
    openLiteral_snoc.
  unfold topLevelComma, countStep.
  assert (Ho : outside s = match openLiteral s with
                           | None => true
                           | Some _ => false
                           end) by reflexivity.
  destruct (openLiteral s) as [q|] eqn:Eq; rewrite Ho in *; simpl in Hi.
  - (* inside a literal opened by q *)
    rewrite Hi. specialize (Hq Hi). rewrite Hq. simpl.
    rewrite !andb_false_r.
    destruct (c =? q)%Z; simpl; rewrite ?Hi;
      repeat split; try lia; try congruence.
  - (* outside of literals *)
    rewrite Hi. simpl. rewrite !andb_true_r.
    destruct (isQuote c) eqn:Q; simpl.
    + assert (isOpener c = false) as -> by chars.
      assert (isCloser c = false) as -> by chars.
      assert ((c =? ch ",")%Z = false) as -> by chars.
      simpl. repeat split; auto; lia.
    + destruct (isOpener c) eqn:O; simpl.
      * assert (isCloser c = false) as -> by chars.
        assert ((c =? ch ",")%Z = false) as -> by chars.
        simpl. rewrite ?Hi. repeat split; try lia; congruence.
      * destruct (isCloser c) eqn:C; simpl.
        -- assert ((c =? ch ",")%Z = false) as -> by chars.
           simpl. rewrite ?Hi. repeat split; try lia; congruence.
        -- rewrite Hd.
           destruct ((c =? ch ",")%Z && (depthAfter s =? 0)%Z); simpl;
             rewrite ?Hi; repeat split; try lia; congruence.
Qed.

Lemma tracks_fold (s : jsstring) : tracks s (fold_left countStep s initial).
Proof.
  induction s as [|c s IH] using rev_ind.
  - unfold tracks. simpl. repeat split; intros; try discriminate.
  - rewrite fold_left_app. simpl. now apply tracks_step.
Qed.

Lemma countStep_quoteOrNone (st : CountState) (c : Z) :
  quoteOrNone st -> quoteOrNone (countStep st c).
Proof.
  unfold quoteOrNone, countStep. intros H.
  destruct (inString st); simpl.
  - destruct (stringChar st) as [q|] eqn:E; [|now rewrite E].
    destruct (c =? q)%Z; simpl; now rewrite ?E.
  - destruct (isQuote c) eqn:Q; simpl; [exact Q|].
    destruct (isOpener c); simpl; [exact H|].
    destruct (isCloser c); simpl; [exact H|].
    destruct ((c =? ch ",")%Z && (depth st =? 0)%Z); simpl; exact H.
Qed.

Lemma countStep_inert (st : CountState) (c : Z) :
  quoteOrNone st -> (127 < c)%Z -> countStep st c = st.
Proof.
  unfold quoteOrNone, countStep. intros H Hc.
  destruct (inString st); simpl.
  - destruct (stringChar st) as [q|]; [|reflexivity].
    assert ((c =? q)%Z = false) as -> by chars.
    reflexivity.
  - assert (isQuote c = false) as -> by chars.
    assert (isOpener c = false) as -> by chars.
    assert (isCloser c = false) as -> by chars.
    assert ((c =? ch ",")%Z = false) as -> by chars.
    reflexivity.
Qed.

(** Visiting code points or code units makes no difference to the loop. *)
Lemma fold_codePoints (n : nat) :
  forall (s : jsstring) (st : CountState),
    length s <= n -> quoteOrNone st ->
    fold_left countStep (codePoints s) st = fold_left countStep s st.
Proof.
  induction n as [|n IH]; intros s st Hn Hq.
  - destruct s; [reflexivity|simpl in Hn; lia].
  - destruct s as [|c [|d r]]; try reflexivity.
    simpl in Hn.
    change (codePoints (c :: d :: r)) with
      (if isHighSurrogate c && isLowSurrogate d
       then (0x10000 + (c - 0xD800) * 0x400 + (d - 0xDC00))%Z :: codePoints r
       else c :: codePoints (d :: r)).
    destruct (isHighSurrogate c && isLowSurrogate d) eqn:E.
    + apply andb_true_iff in E. destruct E as [Hh Hl].
      unfold isHighSurrogate, isLowSurrogate in *.
      apply andb_true_iff in Hh, Hl.
      destruct Hh as [Hh1 Hh2], Hl as [Hl1 Hl2].
      apply Z.leb_le in Hh1, Hh2, Hl1, Hl2.
      cbn [fold_left].
      rewrite (countStep_inert st c) by (auto; lia).
      rewrite (countStep_inert st d) by (auto; lia).
      rewrite (countStep_inert st) by (auto; lia).
      apply IH; [lia|exact Hq].
    + change (fold_left countStep (codePoints (d :: r)) (countStep st c)
              = fold_left countStep (d :: r) (countStep st c)).
      apply IH; [simpl; lia|].
      now apply countStep_quoteOrNone.
Qed.

Lemma countArguments_units (s : jsstring) :
  countArguments s
  = match trim s with
    | [] => 0
    | _ :: _ => count (fold_left countStep s initial)
    end.
Proof.
  unfold countArguments. fold initial.
  destruct (trim s); [reflexivity|].
  now rewrite (fold_codePoints (length s)) by (auto; exact I).
Qed.

Lemma countArguments_spec (s : jsstring) :
  countArguments s = if isBlank s then 0 else 1 + topLevelCommas s.
Proof.
  rewrite countArguments_units.
  destruct (trim s) as [|c r] eqn:E.
  - apply trim_nil_iff in E. now rewrite E.
  - destruct (isBlank s) eqn:B.
    + apply trim_nil_iff in B. congruence.
    + apply (tracks_fold s).
Qed.

(** Text that is left after trimming counts as one argument at least. *)
Lemma countArguments_trimmed (s : jsstring) :
  trim s <> [] -> 0 < countArguments (trim s).
Proof.
  intros H. rewrite countArguments_spec.
  destruct (trim s) as [|c r] eqn:E; [congruence|].
  pose proof (trim_head s c r E) as W.
  unfold isBlank. simpl. rewrite W. simpl. lia.
Qed.

End ArgumentListAnalyzerFacts.

(** C4. The argument counter returns 0 for a blank argument text, and
    otherwise one more than the number of commas that are at bracket depth
    0 and not inside a quoted literal, where the depth is one counter that
    any of the three openers increments and any of the three closers
    decrements, and a literal ends at the quote that opened it. On
    "a, [1,2], {x:1,y:2}" it returns 3. *)
Theorem countArguments_counts_top_level_commas :
  (forall s : jsstring,
     ArgumentFiller.countArguments s
     = if isBlank s then 0 else 1 + ArgumentListAnalyzer.topLevelCommas s)
  /\ ArgumentFiller.countArguments (str "a, [1,2], {x:1,y:2}") = 3.
Proof.
  split; [exact ArgumentListAnalyzerFacts.countArguments_spec|reflexivity].
Qed.

(** ** The argument text synthesizer *)

Module ArgumentTextSynthesizerFacts.

Import ArgumentFiller ArgumentTextSynthesizer.

Lemma splitCharFrom_cons (sep : Z) (s cur : jsstring) :
  exists p rest, splitCharFrom sep cur s = p :: rest.
Proof.
  revert cur. induction s as [|c r IH]; intros cur; simpl.
  - now exists (rev cur), [].
  - destruct (c =? sep)%Z; [now eexists _, _|apply IH].
Qed.

(** The last part of a split is the text after the last separator. *)
Lemma pop_splitCharFrom (sep : Z) (s cur : jsstring) :
  pop (splitCharFrom sep cur s)
  = Some (if occurs sep s then afterLast sep s else rev cur ++ s).
Proof.
  revert cur. induction s as [|c r IH]; intros cur.
  - simpl. now rewrite app_nil_r.
  - cbn [splitCharFrom occurs existsb afterLast]. fold (occurs sep r).
    rewrite (Z.eqb_sym sep c).
    destruct (c =? sep)%Z eqn:E; cbn [orb].
    + destruct (splitCharFrom_cons sep r []) as (p & rest & Hs).
      cbn [pop]. rewrite Hs, <- Hs, IH.
      now destruct (occurs sep r).
    + rewrite IH. destruct (occurs sep r); [reflexivity|].
      cbn [rev]. now rewrite <- app_assoc.
Qed.

Lemma pop_splitChar (sep : Z) (s : jsstring) :
  pop (splitChar sep s) = Some (afterLast sep s).
Proof.
  unfold splitChar. rewrite pop_splitCharFrom. f_equal.
  destruct (occurs sep s) eqn:E; [reflexivity|].
  simpl. induction s as [|c r IH]; [reflexivity|].
  cbn [occurs existsb] in E. apply orb_false_iff in E. destruct E as [E1 E2].
  cbn [afterLast]. fold (occurs sep r) in E2. rewrite E2.
  rewrite Z.eqb_sym in E1. now rewrite E1.
Qed.

Lemma toLowerCaseUnit_cons (lcm : Z -> Z * jsstring) (c : Z) :
  exists a r, toLowerCaseUnit lcm c = a :: r.
Proof.
  unfold toLowerCaseUnit.
  destruct ((ch "A" <=? c)%Z && (c <=? ch "Z")%Z); [now eexists _, _|].
  destruct ((0 <=? c)%Z && (c <? 128)%Z); now eexists _, _.
Qed.

(** The function of the program builds the identifier of the
    specification. *)
Lemma typeDerivedName_typeIdentifier (lcm : Z -> Z * jsstring)
    (p : MethodParameter) :
  typeDerivedName lcm p = typeIdentifier lcm (type p).
Proof.
  unfold typeDerivedName, typeIdentifier. rewrite pop_splitChar.
  fold (stripBrackets (type p)).
  destruct (afterLast (ch ".") (stripBrackets (type p))) as [|c r].
  - reflexivity.
  - cbn [orElse charAt nth_error toLowerCase1 substringFrom skipn lowerFirst].
    destruct (toLowerCaseUnit_cons lcm c) as (a & t & E).
    now rewrite E.
Qed.

End ArgumentTextSynthesizerFacts.

(** C3. For every parameter list (the non-empty ones among them) the
    synthesizer gives the texts of the parameters joined by ", ", each
    text chosen by the fixed precedence: the name when [useParameterNames]
    is set, whatever [fallbackToTypeName] says; else, when
    [fallbackToTypeName] is set, the identifier derived from the type
    (brackets stripped, the part after the last '.', first character
    lower-cased, "arg" when that is empty); else arg1, arg2, ... *)
Theorem generateArgumentString_precedence (lcm : Z -> Z * jsstring) :
  (forall (options : AutofillOptions) (ps : list MethodParameter),
     ArgumentFiller.generateArgumentString lcm options ps
     = join (str ", ")
         (mapi (ArgumentTextSynthesizer.argumentText lcm options) ps))
  /\ (forall (e : bool) (ps : list MethodParameter),
        ArgumentFiller.generateArgumentString lcm
          {| enableCompletion := e; useParameterNames := true;
             fallbackToTypeName := true |} ps
        = join (str ", ") (map name ps))
  /\ ArgumentTextSynthesizer.typeIdentifier lcm
       (str "java.util.Map<String, Integer>[]") = str "mapString, Integer"
  /\ ArgumentTextSynthesizer.typeIdentifier lcm (str "<>.") = str "arg".
Proof.
  split; [|split; [reflexivity|split; reflexivity]].
  intros options ps.
  unfold ArgumentFiller.generateArgumentString,
    ArgumentTextSynthesizer.argumentText, mapi.
  destruct (useParameterNames options).
  - now rewrite mapiFrom_const.
  - destruct (fallbackToTypeName options); [|reflexivity].
    rewrite mapiFrom_const.
    f_equal. apply map_ext. intros p.
    apply ArgumentTextSynthesizerFacts.typeDerivedName_typeIdentifier.
Qed.

(** ** The labels of the symbol source *)

Module SymbolSourceAdapterFacts.

Import SignatureQuery SymbolSourceAdapter.

Lemma tokensFrom_blank (w cur : jsstring) :
  isBlank w = true -> tokensFrom cur w = tokensFrom cur [].
Proof.
  unfold isBlank. revert cur. induction w as [|c r IH]; intros cur B.
  - reflexivity.
  - simpl in B. apply andb_true_iff in B. destruct B as [W B].
    simpl. rewrite W. destruct cur; rewrite (IH [] B); reflexivity.
Qed.

Lemma tokensFrom_blank_suffix (a w cur : jsstring) :
  isBlank w = true -> tokensFrom cur (a ++ w) = tokensFrom cur a.
Proof.
  intros B. revert cur. induction a as [|c r IH]; intros cur.
  - now apply tokensFrom_blank.
  - simpl. destruct (isWhiteSpace c); [destruct cur|]; now rewrite IH.
Qed.

Lemma tokens_trimStart (s : jsstring) : tokens (trimStart s) = tokens s.
Proof.
  unfold tokens. induction s as [|c r IH]; simpl; [reflexivity|].
  destruct (isWhiteSpace c) eqn:W; [exact IH|].
  simpl. now rewrite W.
Qed.

Lemma trimEnd_split (s : jsstring) :
  exists w, s = trimEnd s ++ w /\ isBlank w = true.
Proof.
  destruct (trimStart_split (rev s)) as (w & E & B).
  exists (rev w). split; [|now rewrite isBlank_rev].
  unfold trimEnd. rewrite <- rev_app_distr, <- E. now rewrite rev_involutive.
Qed.

Lemma tokens_trim (s : jsstring) : tokens (trim s) = tokens s.
Proof.
  unfold trim. rewrite <- (tokens_trimStart s).
  destruct (trimEnd_split (trimStart s)) as (w & E & B).
  rewrite E at 2. unfold tokens. now rewrite tokensFrom_blank_suffix.
Qed.

Lemma tokens_blank (s : jsstring) : isBlank s = true -> tokens s = [].
Proof. intros B. unfold tokens. now rewrite tokensFrom_blank. Qed.

Lemma endsInText_snoc (a : jsstring) (c : Z) (d : bool) :
  endsInText d (a ++ [c]) = negb (isWhiteSpace c).
Proof. revert d. induction a as [|x r IH]; intros d; simpl; auto. Qed.

Lemma endsInText_trim (s : jsstring) (c : Z) (r : jsstring) (d : bool) :
  trim s = c :: r -> endsInText d (trim s) = true.
Proof.
  unfold trim, trimEnd. intros E.
  destruct (trimStart_cases (rev (trimStart s))) as [N | (a & t & N & W)];
    rewrite N in *.
  - discriminate.
  - simpl. now rewrite endsInText_snoc, W.
Qed.

(** On a text that ends in a character that is not white space, the
    split has no empty part after its first one: it is the tokens. *)
Lemma split_tokensFrom (s cur : jsstring) :
  endsInText (nonEmpty cur) s = true ->
  splitWhiteSpaceFrom cur (negb (nonEmpty cur)) s = tokensFrom cur s.
Proof.
  revert cur. induction s as [|c r IH]; intros cur H.
  - destruct cur; [discriminate|reflexivity].
  - simpl in *. destruct (isWhiteSpace c) eqn:W; simpl in H.
    + destruct cur as [|x cur]; simpl.
      * apply (IH [] H).
      * f_equal. apply (IH [] H).
    + apply (IH (c :: cur) H).
Qed.

(** What splitting the trimmed label gives. *)
Lemma split_trim (s : jsstring) :
  splitWhiteSpace (trim s) = if isBlank s then [[]] else tokens s.
Proof.
  destruct (isBlank s) eqn:B.
  - apply trim_nil_iff in B. now rewrite B.
  - rewrite <- (tokens_trim s).
    destruct (trim s) as [|c r] eqn:E.
    + apply trim_nil_iff in E. congruence.
    + pose proof (trim_head s c r E) as W.
      pose proof (endsInText_trim s c r true E) as T.
      rewrite E in T. simpl in T. rewrite W in T. simpl in T.
      unfold splitWhiteSpace, tokens. simpl. rewrite W.
      apply (split_tokensFrom r [c] T).
Qed.

Lemma splitWhiteSpaceFrom_cons (s cur : jsstring) (b : bool) :
  exists p rest, splitWhiteSpaceFrom cur b s = p :: rest.
Proof.
  revert cur b. induction s as [|c r IH]; intros cur b; simpl.
  - now eexists _, _.
  - destruct (isWhiteSpace c); [destruct b|]; try apply IH.
    now eexists _, _.
Qed.

(** A split into one part has no white space to split at. *)
Lemma split_single (s cur t : jsstring) :
  splitWhiteSpaceFrom cur false s = [t] -> t = rev cur ++ s.
Proof.
  revert cur. induction s as [|c r IH]; intros cur; simpl.
  - intros [= <-]. now rewrite app_nil_r.
  - destruct (isWhiteSpace c).
    + destruct (splitWhiteSpaceFrom_cons r [] true) as (p & rest & E).
      rewrite E. discriminate.
    + intros H. rewrite (IH _ H). simpl. now rewrite <- app_assoc.
Qed.

Lemma tokensFrom_nonEmpty (s cur : jsstring) :
  Forall (fun t => t <> []) (tokensFrom cur s).
Proof.
  revert cur. induction s as [|c r IH]; intros cur; simpl.
  - destruct cur; constructor; [|constructor].
    simpl. intros E. now apply app_eq_nil in E.
  - destruct (isWhiteSpace c); [|apply IH].
    destruct cur; [apply IH|]. constructor; [|apply IH].
    simpl. intros E. now apply app_eq_nil in E.
Qed.

Lemma join_nonEmpty (sep p : jsstring) (rest : list jsstring) :
  p <> [] -> join sep (p :: rest) <> [].
Proof.
  intros H. simpl. destruct rest; [exact H|].
  intros E. apply app_eq_nil in E. tauto.
Qed.

Lemma orElse_nonEmpty (s d : jsstring) : s <> [] -> orElse (Some s) d = s.
Proof. destruct s; [congruence|reflexivity]. Qed.

(** The parsed label, in terms of the tokens. *)
Lemma toMethodParameter_tokens (signatureLabel : jsstring)
    (param : ParameterLabel) (index : nat) :
  toMethodParameter signatureLabel param index
  = parameterOfLabel (labelText signatureLabel param) index.
Proof.
  unfold toMethodParameter, parameterOfLabel.
  fold (labelText signatureLabel param).
  set (label := labelText signatureLabel param).
  unfold parseParameterLabel.
  pose proof (split_trim label) as S.
  destruct (isBlank label) eqn:B.
  - rewrite S. rewrite (tokens_blank label B).
    apply trim_nil_iff in B. rewrite B. reflexivity.
  - pose proof (tokensFrom_nonEmpty label []) as NE. fold (tokens label) in NE.
    rewrite S. clear S.
    destruct (rev (tokens label)) as [|t before] eqn:R.
    + apply (f_equal (@rev jsstring)) in R. rewrite rev_involutive in R.
      simpl in R.
      pose proof (split_trim label) as S. rewrite B, R in S.
      destruct (splitWhiteSpaceFrom_cons (trim label) [] false)
        as (p & rest & E).
      unfold splitWhiteSpace in S. congruence.
    + apply (f_equal (@rev jsstring)) in R. rewrite rev_involutive in R.
      simpl in R. rewrite R in NE |- *.
      apply Forall_app in NE. destruct NE as [NEb NEt].
      inversion NEt as [|? ? Ht _]; subst.
      destruct before as [|b before'].
      * simpl. pose proof (split_trim label) as S. rewrite B, R in S.
        simpl in S. unfold splitWhiteSpace in S.
        apply split_single in S. simpl in S. rewrite <- S.
        destruct t; [congruence|reflexivity].
      * assert (L : length (rev (b :: before') ++ [t])
                    = S (length (rev (b :: before')))).
        { rewrite length_app. simpl. lia. }
        assert (L2 : 1 <= length (rev (b :: before'))).
        { rewrite length_rev. simpl. lia. }
        rewrite L.
        replace (2 <=? S (length (rev (b :: before')))) with true
          by (symmetry; apply Nat.leb_le; lia).
        replace (S (length (rev (b :: before'))) - 1)
          with (length (rev (b :: before'))) by lia.
        rewrite app_nth2, Nat.sub_diag by lia. simpl nth.
        rewrite firstn_app, Nat.sub_diag, firstn_all. simpl firstn.
        rewrite app_nil_r.
        rewrite orElse_nonEmpty by exact Ht.
        rewrite orElse_nonEmpty; [reflexivity|].
        destruct (rev (b :: before')) as [|p rest] eqn:Rb;
          [simpl in L2; lia|].
        apply join_nonEmpty. now inversion NEb.
Qed.

End SymbolSourceAdapterFacts.

(** C9. A label supplied by the signature help is trimmed and split on
    white space. Splitting gives the tokens of the label (one empty part
    for a blank label). With two tokens or more the last one is the name
    and the ones before it, joined by single spaces, are the type; with
    one token it is the name and the type is "Object"; a name that comes
    out empty becomes arg<index+1> and an empty type "Object". Every
    parameter that the query returns is built this way from its label and
    its position. *)
Theorem parameter_label_parsing :
  (forall label : jsstring,
     splitWhiteSpace (trim label)
     = if isBlank label then [[]] else SymbolSourceAdapter.tokens label)
  /\ (forall (signatureLabel : jsstring) (param : ParameterLabel)
        (index : nat),
        SignatureQuery.toMethodParameter signatureLabel param index
        = SymbolSourceAdapter.parameterOfLabel
            (SymbolSourceAdapter.labelText signatureLabel param) index)
  /\ (forall (h : Host) (d : TextDocument) (pos : Position)
        (help : SignatureHelp) (sig : SignatureInformation)
        (p : ParameterLabel) (ps : list ParameterLabel),
        executeSignatureHelpProvider h d pos = Resolved (Some help) ->
        nth_error (signatures help) (activeSignature help) = Some sig ->
        sig_parameters sig = Some (p :: ps) ->
        SignatureQuery.getParameters h d pos
        = Some (mapi (fun q i =>
                        SymbolSourceAdapter.parameterOfLabel
                          (SymbolSourceAdapter.labelText (sig_label sig) q) i)
                  (p :: ps)))
  /\ SignatureQuery.toMethodParameter [] (LabelString (str "String... args")) 0
     = {| name := str "args"; type := str "String..."; index := 0 |}
  /\ SignatureQuery.toMethodParameter (str "put(K key, V  value)")
       (LabelOffsets 11 19) 1
     = {| name := str "value"; type := str "V"; index := 1 |}
  /\ SignatureQuery.toMethodParameter []
       (LabelString (str " Map<String, Integer>   m ")) 0
     = {| name := str "m"; type := str "Map<String, Integer>"; index := 0 |}
  /\ SignatureQuery.toMethodParameter [] (LabelString (str "count")) 4
     = {| name := str "count"; type := str "Object"; index := 4 |}
  /\ SignatureQuery.toMethodParameter [] (LabelString (str "  ")) 2
     = {| name := str "arg3"; type := str "Object"; index := 2 |}.
Proof.
  split; [exact SymbolSourceAdapterFacts.split_trim|].
  split; [exact SymbolSourceAdapterFacts.toMethodParameter_tokens|].
  split; [|repeat split; reflexivity].
  intros h d pos help sig p ps Hq Hn Hp.
  unfold SignatureQuery.getParameters, SignatureQuery.query.
  rewrite Hq.
  destruct (signatures help) as [|s0 rest] eqn:Es.
  - destruct (activeSignature help); discriminate.
  - simpl length. simpl Nat.eqb. rewrite Hn, Hp. simpl tryCatch.
    f_equal. unfold mapi.
    apply mapiFrom_ext.
    intros q j. apply SymbolSourceAdapterFacts.toMethodParameter_tokens.
Qed.

(** ** The call-site locator *)

Module CallSiteLocatorFacts.

Import ArgumentFiller CallSiteLocator.

Lemma unclosed_cons (c : Z) (s : jsstring) :
  unclosed (c :: s) = (delta c + unclosed s)%Z.
Proof.
  unfold unclosed, occurrences, delta. simpl count_occ.
  destruct (Z.eq_dec c (ch "(")) as [E1|E1];
    destruct (Z.eq_dec c (ch ")")) as [E2|E2].
  - subst c. discriminate.
  - rewrite (proj2 (Z.eqb_eq _ _) E1). lia.
  - rewrite (proj2 (Z.eqb_neq _ _) E1), (proj2 (Z.eqb_eq _ _) E2). lia.
  - rewrite (proj2 (Z.eqb_neq _ _) E1), (proj2 (Z.eqb_neq _ _) E2). lia.
Qed.

Lemma unclosed_nil : unclosed [] = 0%Z.
Proof. reflexivity. Qed.

Lemma segment_cons (text : jsstring) (i e : nat) (c : Z) :
  at_ text i = Some c -> i < e ->
  segment text i e = c :: segment text (S i) e.
Proof.
  unfold segment, at_. revert i e.
  induction text as [|x t IH]; intros i e Hc He.
  - destruct i; discriminate.
  - destruct e as [|e]; [lia|]. destruct i as [|i]; simpl in *.
    + now injection Hc as ->.
    + apply IH; [exact Hc|lia].
Qed.

Lemma segment_past (text : jsstring) (i e : nat) :
  at_ text i = None -> segment text i e = [].
Proof.
  unfold segment, at_. intros H. apply nth_error_None in H.
  apply skipn_all2. rewrite length_firstn. lia.
Qed.

Lemma segment_empty (text : jsstring) (e : nat) : segment text e e = [].
Proof.
  unfold segment. apply skipn_all2. rewrite length_firstn. lia.
Qed.

(** The backward scan, with the depth that the loop has when it reaches
    [n]: the excess of [')'] over ['('] in [text[n..e)]. *)
Lemma scanOpenParen_spec (text : jsstring) (e : nat) :
  forall n,
    n <= e ->
    (forall j, n <= j < e -> (unclosed (segment text j e) <= 0)%Z) ->
    match scanOpenParen text n (- unclosed (segment text n e))%Z with
    | Some p => innermostOpen text e p
    | None => noOpen text e
    end.
Proof.
  induction n as [|i IH]; intros Hn Hj.
  - simpl. intros j Hlt. apply Hj. lia.
  - assert (Hnext : (unclosed (segment text (S i) e) <= 0)%Z).
    { destruct (Nat.eq_dec (S i) e) as [<-|Hne].
      - rewrite segment_empty, unclosed_nil. lia.
      - apply Hj. lia. }
    cbn [scanOpenParen].
    destruct (at_ text i) as [c|] eqn:Ec.
    + pose proof (segment_cons text i e c Ec ltac:(lia)) as Hseg.
      pose proof (unclosed_cons c (segment text (S i) e)) as Hu.
      rewrite <- Hseg in Hu.
      destruct (c =? ch ")")%Z eqn:Ecl.
      * apply Z.eqb_eq in Ecl. subst c.
        change (delta (ch ")")) with (-1)%Z in Hu.
        replace (- unclosed (segment text (S i) e) + 1)%Z
          with (- unclosed (segment text i e))%Z by lia.
        apply IH; [lia|]. intros j Hb.
        destruct (Nat.eq_dec j i) as [->|]; [lia|apply Hj; lia].
      * destruct (c =? ch "(")%Z eqn:Eop.
        -- apply Z.eqb_eq in Eop. subst c.
           change (delta (ch "(")) with 1%Z in Hu.
           destruct (- unclosed (segment text (S i) e) =? 0)%Z eqn:Ez.
           ++ apply Z.eqb_eq in Ez.
              repeat split; [exact Ec|lia|lia|].
              intros j Hb. apply Hj. lia.
           ++ apply Z.eqb_neq in Ez.
              replace (- unclosed (segment text (S i) e) - 1)%Z
                with (- unclosed (segment text i e))%Z by lia.
              apply IH; [lia|]. intros j Hb.
              destruct (Nat.eq_dec j i) as [->|]; [lia|apply Hj; lia].
        -- unfold delta in Hu. rewrite Eop, Ecl in Hu.
           replace (unclosed (segment text (S i) e))
             with (unclosed (segment text i e)) by lia.
           apply IH; [lia|]. intros j Hb.
           destruct (Nat.eq_dec j i) as [->|]; [lia|apply Hj; lia].
    + assert (Hi : segment text i e = []) by now apply segment_past.
      assert (HSi : segment text (S i) e = []).
      { apply segment_past. unfold at_ in *.
        apply nth_error_None in Ec. apply nth_error_None. lia. }
      rewrite HSi. rewrite <- Hi.
      apply IH; [lia|]. intros j Hb.
      destruct (Nat.eq_dec j i) as [->|]; [|apply Hj; lia].
      rewrite Hi, unclosed_nil. lia.
Qed.

Lemma scanOpenParen_start (text : jsstring) (e : nat) :
  match scanOpenParen text e 0 with
  | Some p => innermostOpen text e p
  | None => noOpen text e
  end.
Proof.
  pose proof (scanOpenParen_spec text e e (le_n e)) as H.
  rewrite segment_empty, unclosed_nil in H. simpl in H.
  apply H. intros j Hb. lia.
Qed.

Lemma innermostOpen_unique (text : jsstring) (e p p' : nat) :
  innermostOpen text e p -> innermostOpen text e p' -> p = p'.
Proof.
  intros (_ & H1 & H2 & H3) (_ & H1' & H2' & H3').
  destruct (Nat.lt_trichotomy p p') as [L|[E|L]]; [|exact E|].
  - specialize (H3 p' ltac:(lia)). lia.
  - specialize (H3' p ltac:(lia)). lia.
Qed.

(** The forward scan on the text that follows the ['(']. *)
Lemma scanCloseParen_spec (rest : jsstring) :
  forall (i : nat) (d : Z),
    (1 <= d)%Z ->
    match scanCloseParen rest i d with
    | Some q =>
        exists k, q = i + k
                  /\ nth_error rest k = Some (ch ")")
                  /\ (d + unclosed (firstn (S k) rest) = 0)%Z
                  /\ forall k', k' < k ->
                                (1 <= d + unclosed (firstn (S k') rest))%Z
    | None =>
        forall k', k' < length rest ->
                   (1 <= d + unclosed (firstn (S k') rest))%Z
    end.
Proof.
  induction rest as [|c rest IH]; intros i d Hd.
  - simpl. intros k' Hk. lia.
  - cbn [scanCloseParen].
    assert (Hstep : forall d',
      (1 <= d')%Z -> (d' = d + delta c)%Z ->
      match scanCloseParen rest (S i) d' with
      | Some q =>
          exists k, q = i + k
                    /\ nth_error (c :: rest) k = Some (ch ")")
                    /\ (d + unclosed (firstn (S k) (c :: rest)) = 0)%Z
                    /\ forall k', k' < k ->
                         (1 <= d + unclosed (firstn (S k') (c :: rest)))%Z
      | None =>
          forall k', k' < length (c :: rest) ->
                     (1 <= d + unclosed (firstn (S k') (c :: rest)))%Z
      end).
    { intros d' Hd' Ed. specialize (IH (S i) d' Hd').
      destruct (scanCloseParen rest (S i) d') as [q|].
      - destruct IH as (k & Hq & Hk & Hz & Hall).
        exists (S k). repeat split; [lia|exact Hk| |].
        + cbn [firstn]. rewrite unclosed_cons. cbn [firstn] in Hz. lia.
        + intros [|k'] Hlt; cbn [firstn]; rewrite unclosed_cons.
          * rewrite unclosed_nil. lia.
          * specialize (Hall k' ltac:(lia)). cbn [firstn] in Hall. lia.
      - intros [|k'] Hlt; cbn [firstn]; rewrite unclosed_cons.
        + rewrite unclosed_nil. lia.
        + simpl in Hlt. specialize (IH k' ltac:(lia)).
          cbn [firstn] in IH. lia. }
    unfold delta in Hstep.
    destruct (c =? ch "(")%Z eqn:Eop.
    + apply Hstep; lia.
    + destruct (c =? ch ")")%Z eqn:Ecl.
      * destruct (d - 1 =? 0)%Z eqn:Ez.
        -- apply Z.eqb_eq in Ez, Ecl. subst c. exists 0.
           repeat split; [lia| |intros k' Hk; lia].
           cbn [firstn]. rewrite unclosed_cons, unclosed_nil.
           unfold delta. simpl. lia.
        -- apply Z.eqb_neq in Ez. apply Hstep; lia.
      * replace d with (d + 0)%Z at 1 by lia. apply Hstep; lia.
Qed.

Lemma segment_after_open (text : jsstring) (p k : nat) :
  at_ text p = Some (ch "(") ->
  unclosed (segment text p (S p + S k))
  = (1 + unclosed (firstn (S k) (skipn (S p) text)))%Z.
Proof.
  intros Hp. rewrite (segment_cons text p _ _ Hp) by lia.
  rewrite unclosed_cons. change (delta (ch "(")) with 1%Z.
  unfold segment. now rewrite firstn_skipn_comm.
Qed.

Lemma segment_open (text : jsstring) (p : nat) :
  at_ text p = Some (ch "(") -> unclosed (segment text p (S p)) = 1%Z.
Proof.
  intros Hp. rewrite (segment_cons text p _ _ Hp) by lia.
  now rewrite unclosed_cons, segment_empty, unclosed_nil.
Qed.

(** The forward scan, from the ['('] at [p]. *)
Lemma scanCloseParen_from (text : jsstring) (p : nat) :
  at_ text p = Some (ch "(") ->
  match scanCloseParen (skipn (p + 1) text) (p + 1) 1 with
  | Some q => matchingClose text p q
  | None => noClose text p
  end.
Proof.
  intros Hp. rewrite Nat.add_1_r.
  pose proof (scanCloseParen_spec (skipn (S p) text) (S p) 1 ltac:(lia)) as H.
  destruct (scanCloseParen (skipn (S p) text) (S p) 1) as [q|].
  - destruct H as (k & -> & Hk & Hz & Hall).
    repeat split; [lia| | |].
    + unfold at_. now rewrite nth_error_skipn in Hk.
    + replace (S (S p + k)) with (S p + S k) by lia.
      rewrite segment_after_open by exact Hp. lia.
    + intros j Hj. destruct (Nat.eq_dec j p) as [->|Hne].
      * rewrite segment_open by exact Hp. lia.
      * replace (S j) with (S p + S (j - S p)) by lia.
        rewrite segment_after_open by exact Hp.
        specialize (Hall (j - S p) ltac:(lia)). lia.
  - intros j Hj. destruct (Nat.eq_dec j p) as [->|Hne].
    + rewrite segment_open by exact Hp. lia.
    + replace (S j) with (S p + S (j - S p)) by lia.
      rewrite segment_after_open by exact Hp.
      specialize (H (j - S p)). rewrite length_skipn in H.
      specialize (H ltac:(lia)). lia.
Qed.

(** What a located call site is made of. *)
Lemma findMethodCallContext_some (text : jsstring) (offset : nat)
    (ctx : MethodCallContext) :
  findMethodCallContext text offset = Some ctx ->
  scanOpenParen text (S (scanStart offset)) 0 = Some (openParenOffset ctx)
  /\ scanCloseParen (skipn (openParenOffset ctx + 1) text)
       (openParenOffset ctx + 1) 1 = Some (closeParenOffset ctx)
  /\ extractMethodName text (openParenOffset ctx)
     = Some (methodName ctx, isConstructor ctx)
  /\ argumentsStart ctx = openParenOffset ctx + 1
  /\ argumentsLength ctx = closeParenOffset ctx - openParenOffset ctx - 1
  /\ existingArguments ctx
     = trim (substring text (openParenOffset ctx + 1) (closeParenOffset ctx)).
Proof.
  unfold findMethodCallContext.
  replace (if 0 <? offset then offset - 1 else 0) with (scanStart offset)
    by (unfold scanStart; destruct (Nat.ltb_spec 0 offset); lia).
  destruct (scanOpenParen text (S (scanStart offset)) 0) as [p|];
    [|discriminate].
  destruct (scanCloseParen (skipn (p + 1) text) (p + 1) 1) as [q|] eqn:Eq;
    [|discriminate].
  destruct (extractMethodName text p) as [[nm isC]|] eqn:En; [|discriminate].
  intros [= <-]. simpl. repeat split; assumption.
Qed.

Lemma findMethodCallContext_located (text : jsstring) (offset : nat)
    (ctx : MethodCallContext) :
  findMethodCallContext text offset = Some ctx ->
  innermostOpen text (S (scanStart offset)) (openParenOffset ctx)
  /\ matchingClose text (openParenOffset ctx) (closeParenOffset ctx).
Proof.
  intros H. apply findMethodCallContext_some in H.
  destruct H as (Ho & Hc & _).
  pose proof (scanOpenParen_start text (S (scanStart offset))) as Hopen.
  rewrite Ho in Hopen. split; [exact Hopen|].
  pose proof (scanCloseParen_from text (openParenOffset ctx)
                (proj1 Hopen)) as Hclose.
  now rewrite Hc in Hclose.
Qed.

End CallSiteLocatorFacts.

(** C2. From the offset before the cursor (offset 0 for a cursor at 0)
    the locator finds the innermost ['('] that is not closed before the
    cursor, and from it the [')'] that closes it, counting ['('] and [')']
    only. It answers "no call site", a result and not an error, when no
    ['('] is left open before the cursor and when the one that is has no
    closing [')']. In "foo(bar(1,2), baz())" with the cursor inside the
    parentheses of baz, the call site is that of baz. *)
Theorem findMethodCallContext_balanced_scan :
  (forall (text : jsstring) (offset : nat)
      (ctx : ArgumentFiller.MethodCallContext),
     ArgumentFiller.findMethodCallContext text offset = Some ctx ->
     CallSiteLocator.innermostOpen text (S (CallSiteLocator.scanStart offset))
       (ArgumentFiller.openParenOffset ctx)
     /\ CallSiteLocator.matchingClose text
          (ArgumentFiller.openParenOffset ctx)
          (ArgumentFiller.closeParenOffset ctx))
  /\ (forall (text : jsstring) (offset : nat),
        CallSiteLocator.noOpen text (S (CallSiteLocator.scanStart offset)) ->
        ArgumentFiller.findMethodCallContext text offset = None)
  /\ (forall (text : jsstring) (offset p : nat),
        CallSiteLocator.innermostOpen text
          (S (CallSiteLocator.scanStart offset)) p ->
        CallSiteLocator.noClose text p ->
        ArgumentFiller.findMethodCallContext text offset = None)
  /\ ArgumentFiller.findMethodCallContext (str "foo(bar(1,2), baz())") 18
     = Some {| ArgumentFiller.methodName := str "baz";
               ArgumentFiller.isConstructor := false;
               ArgumentFiller.openParenOffset := 17;
               ArgumentFiller.closeParenOffset := 18;
               ArgumentFiller.argumentsStart := 18;
               ArgumentFiller.argumentsLength := 0;
               ArgumentFiller.existingArguments := [] |}
  /\ ArgumentFiller.findMethodCallContext (str "foo(bar(1,2), baz())") 13
     = Some {| ArgumentFiller.methodName := str "foo";
               ArgumentFiller.isConstructor := false;
               ArgumentFiller.openParenOffset := 3;
               ArgumentFiller.closeParenOffset := 19;
               ArgumentFiller.argumentsStart := 4;
               ArgumentFiller.argumentsLength := 15;
               ArgumentFiller.existingArguments := str "bar(1,2), baz()" |}
  /\ ArgumentFiller.findMethodCallContext (str "a) + b") 3 = None
  /\ ArgumentFiller.findMethodCallContext (str "foo(bar(1,2)") 4 = None.
Proof.
  split; [exact CallSiteLocatorFacts.findMethodCallContext_located|].
  split; [|split; [|repeat split; reflexivity]].
  - intros text offset Hno.
    destruct (ArgumentFiller.findMethodCallContext text offset) as [ctx|] eqn:E;
      [|reflexivity].
    apply CallSiteLocatorFacts.findMethodCallContext_located in E.
    destruct E as ((_ & Hlt & Hone & _) & _).
    specialize (Hno _ Hlt). lia.
  - intros text offset p Hin Hno.
    destruct (ArgumentFiller.findMethodCallContext text offset) as [ctx|] eqn:E;
      [|reflexivity].
    apply CallSiteLocatorFacts.findMethodCallContext_located in E.
    destruct E as (Hin' & (Hlt & Hat & Hzero & _)).
    rewrite <- (CallSiteLocatorFacts.innermostOpen_unique _ _ _ _ Hin Hin')
      in *.
    assert (Hq : ArgumentFiller.closeParenOffset ctx < length text).
    { apply nth_error_Some. unfold at_ in Hat. congruence. }
    specialize (Hno (ArgumentFiller.closeParenOffset ctx) ltac:(lia)). lia.
Qed.

(** ** The fill operation *)

Module FillFacts.

Import ArgumentFiller CallSiteLocator ParameterResolver.

(** Without data from the symbol source the fill operation is the
    fallback. *)
Lemma fillArguments_fallback (lcm : Z -> Z * jsstring)
    (options : AutofillOptions) (h : Host) (document : TextDocument)
    (position : Position) (ctx : MethodCallContext) :
  findMethodCallContext (getText document) (offsetAt document position)
  = Some ctx ->
  noAdapterData h document position ->
  fillArguments lcm options h document position
  = (parameters <- parseParametersFromContext lcm options
                     (getText document) ctx ;;
     match parameters with
     | None => Returned None
     | Some [] => Returned None
     | Some ps =>
         Returned (Some {| arguments := generateArgumentString lcm options ps;
                           replaceStart := argumentsStart ctx;
                           replaceLength := argumentsLength ctx |})
     end).
Proof.
  intros Hf Hno. unfold fillArguments. rewrite Hf.
  unfold isRedHatJavaExtensionAvailable, getParametersFromLanguageServer.
  destruct Hno as [Hno|Hno]; rewrite Hno; [reflexivity|].
  now destruct (redhatJava h).
Qed.

(** With data from the symbol source the fill operation uses it, and
    does not look at the text between the parentheses. *)
Lemma fillArguments_adapter (lcm : Z -> Z * jsstring)
    (options : AutofillOptions) (h : Host) (document : TextDocument)
    (position : Position) (ctx : MethodCallContext)
    (p : MethodParameter) (ps : list MethodParameter) :
  findMethodCallContext (getText document) (offsetAt document position)
  = Some ctx ->
  redhatJava h = true ->
  SignatureQuery.getParameters h document position = Some (p :: ps) ->
  fillArguments lcm options h document position
  = Returned (Some {| arguments :=
                        generateArgumentString lcm options (p :: ps);
                      replaceStart := argumentsStart ctx;
                      replaceLength := argumentsLength ctx |}).
Proof.
  intros Hf Hj Hq. unfold fillArguments. rewrite Hf.
  unfold isRedHatJavaExtensionAvailable, getParametersFromLanguageServer.
  now rewrite Hj, Hq.
Qed.

(** The fallback refuses text that is already there. *)
Lemma parseParametersFromContext_existing (lcm : Z -> Z * jsstring)
    (options : AutofillOptions) (text : jsstring) (offset : nat)
    (ctx : MethodCallContext) :
  findMethodCallContext text offset = Some ctx ->
  existingArguments ctx <> [] ->
  parseParametersFromContext lcm options text ctx = Returned None.
Proof.
  intros Hf Hne. apply CallSiteLocatorFacts.findMethodCallContext_some in Hf.
  destruct Hf as (_ & _ & _ & _ & _ & He).
  unfold parseParametersFromContext. rewrite He in *.
  pose proof (ArgumentListAnalyzerFacts.countArguments_trimmed _ Hne) as Hc.
  apply Nat.ltb_lt in Hc. rewrite Hc.
  destruct (trim _); [congruence|reflexivity].
Qed.

(** A fill result replaces the span of the located call site. *)
Lemma fillArguments_span (lcm : Z -> Z * jsstring)
    (options : AutofillOptions) (h : Host) (document : TextDocument)
    (position : Position) (r : ArgumentFillResult) :
  fillArguments lcm options h document position = Returned (Some r) ->
  exists ctx,
    findMethodCallContext (getText document) (offsetAt document position)
    = Some ctx
    /\ replaceStart r = argumentsStart ctx
    /\ replaceLength r = argumentsLength ctx.
Proof.
  unfold fillArguments.
  destruct (findMethodCallContext _ _) as [ctx|]; [|discriminate].
  intros H. exists ctx. split; [reflexivity|].
  destruct (if isRedHatJavaExtensionAvailable h
            then getParametersFromLanguageServer h document position ctx
            else None) as [ps|].
  - simpl in H. destruct ps; [discriminate|]. now injection H as <-.
  - destruct (parseParametersFromContext lcm options (getText document) ctx)
      as [[ps|]|]; simpl in H; try discriminate.
    destruct ps; [discriminate|]. now injection H as <-.
Qed.

(** The text between the parentheses of a located call site. *)
Lemma substring_between (text : jsstring) (p q : nat) :
  p < q -> q < length text ->
  substring text (p + 1) q = segment text (p + 1) q.
Proof.
  intros Hpq Hq. unfold substring, segment.
  rewrite !Nat.min_l by lia. rewrite Nat.max_r by lia.
  rewrite firstn_skipn_comm. do 2 f_equal. lia.
Qed.

(** The invariants of a located call site. *)
Lemma findMethodCallContext_invariants (text : jsstring) (offset : nat)
    (ctx : MethodCallContext) :
  findMethodCallContext text offset = Some ctx ->
  openParenOffset ctx < closeParenOffset ctx
  /\ closeParenOffset ctx < length text
  /\ at_ text (openParenOffset ctx) = Some (ch "(")
  /\ at_ text (closeParenOffset ctx) = Some (ch ")")
  /\ argumentsStart ctx = openParenOffset ctx + 1
  /\ argumentsLength ctx = closeParenOffset ctx - openParenOffset ctx - 1
  /\ argumentsStart ctx + argumentsLength ctx = closeParenOffset ctx
  /\ existingArguments ctx
     = trim (segment text (openParenOffset ctx + 1) (closeParenOffset ctx)).
Proof.
  intros Hf.
  pose proof (CallSiteLocatorFacts.findMethodCallContext_located _ _ _ Hf)
    as ((Hop & _) & (Hlt & Hcl & _)).
  apply CallSiteLocatorFacts.findMethodCallContext_some in Hf.
  destruct Hf as (_ & _ & _ & Hs & Hl & He).
  assert (Hq : closeParenOffset ctx < length text).
  { apply nth_error_Some. unfold at_ in Hcl. congruence. }
  repeat split; try assumption; try lia.
  rewrite He. now rewrite substring_between.
Qed.

End FillFacts.

(** C1 (the program departs from it). A located call site whose text
    between the parentheses is not blank gets no fill result, whatever the
    options, as long as the symbol source gives no parameters: the
    fallback refuses to replace arguments that are there. When the symbol
    source gives parameters the program does not look at that text and
    replaces the span between the parentheses, whatever stands there: for
    "foo(1, 2)" and the signature help of [m(int a, String b)] the fill
    result puts "a, b" in place of the four characters "1, 2". *)
Theorem existing_arguments_kept_only_without_adapter :
  (forall (lcm : Z -> Z * jsstring) (options : AutofillOptions) (h : Host)
      (document : TextDocument) (position : Position)
      (ctx : ArgumentFiller.MethodCallContext),
     ArgumentFiller.findMethodCallContext (getText document)
       (offsetAt document position) = Some ctx ->
     ArgumentFiller.existingArguments ctx <> [] ->
     ParameterResolver.noAdapterData h document position ->
     ArgumentFiller.fillArguments lcm options h document position
     = Returned None)
  /\ (forall (lcm : Z -> Z * jsstring) (options : AutofillOptions) (h : Host)
        (document : TextDocument) (position : Position)
        (ctx : ArgumentFiller.MethodCallContext)
        (p : MethodParameter) (ps : list MethodParameter),
        ArgumentFiller.findMethodCallContext (getText document)
          (offsetAt document position) = Some ctx ->
        redhatJava h = true ->
        SignatureQuery.getParameters h document position = Some (p :: ps) ->
        ArgumentFiller.fillArguments lcm options h document position
        = Returned
            (Some {| arguments :=
                       ArgumentFiller.generateArgumentString lcm options
                         (p :: ps);
                     replaceStart := ArgumentFiller.argumentsStart ctx;
                     replaceLength := ArgumentFiller.argumentsLength ctx |}))
  /\ ArgumentFiller.fillArguments ParameterResolver.unchanged
       ParameterResolver.allTrue ParameterResolver.noJavaExtension
       (ParameterResolver.singleLine (str "foo(1, 2)"))
       {| line := 0; character := 4 |}
     = Returned None
  /\ ArgumentFiller.fillArguments ParameterResolver.unchanged
       ParameterResolver.allTrue
       (ParameterResolver.javaExtensionWith ParameterResolver.helpIntString)
       (ParameterResolver.singleLine (str "foo(1, 2)"))
       {| line := 0; character := 4 |}
     = Returned (Some {| arguments := str "a, b";
                         replaceStart := 4;
                         replaceLength := 4 |}).
Proof.
  split; [|split; [exact FillFacts.fillArguments_adapter|split; reflexivity]].
  intros lcm options h document position ctx Hf Hne Hno.
  rewrite (FillFacts.fillArguments_fallback _ _ _ _ _ _ Hf Hno).
  now rewrite (FillFacts.parseParametersFromContext_existing _ _ _ _ _ Hf Hne).
Qed.

(** C8, the part that does not hold: the context keeps the text between
    the parentheses trimmed, not as it is in the document. In "f( a )"
    the text between the parentheses is " a " and the context has "a". *)
Lemma existingArguments_is_trimmed :
  ArgumentFiller.findMethodCallContext (str "f( a )") 2
  = Some {| ArgumentFiller.methodName := str "f";
            ArgumentFiller.isConstructor := false;
            ArgumentFiller.openParenOffset := 1;
            ArgumentFiller.closeParenOffset := 5;
            ArgumentFiller.argumentsStart := 2;
            ArgumentFiller.argumentsLength := 3;
            ArgumentFiller.existingArguments := str "a" |}
  /\ substring (str "f( a )") 2 5 = str " a "
  /\ str "a" <> str " a ".
Proof. repeat split; try reflexivity. discriminate. Qed.

(** C8, as amended. Every located call site has its ['('] before its
    [')'], [argumentsStart] one past the ['('], [argumentsLength] the
    number of characters between the two, and as [existingArguments] the
    text between the two with the white space at its ends removed. A fill
    result replaces exactly the span between the parentheses, which lies
    inside the document and is empty for "()". For
    "void m(){ someMethod(); }", the cursor between the parentheses of
    someMethod, the parameters [int a] and [String b] and all options set,
    the result is "a, b" replacing nothing at offset 21. *)
Theorem call_site_invariants :
  (forall (text : jsstring) (offset : nat)
      (ctx : ArgumentFiller.MethodCallContext),
     ArgumentFiller.findMethodCallContext text offset = Some ctx ->
     ArgumentFiller.openParenOffset ctx < ArgumentFiller.closeParenOffset ctx
     /\ ArgumentFiller.closeParenOffset ctx < length text
     /\ at_ text (ArgumentFiller.openParenOffset ctx) = Some (ch "(")
     /\ at_ text (ArgumentFiller.closeParenOffset ctx) = Some (ch ")")
     /\ ArgumentFiller.argumentsStart ctx
        = ArgumentFiller.openParenOffset ctx + 1
     /\ ArgumentFiller.argumentsLength ctx
        = ArgumentFiller.closeParenOffset ctx
          - ArgumentFiller.openParenOffset ctx - 1
     /\ ArgumentFiller.argumentsStart ctx + ArgumentFiller.argumentsLength ctx
        = ArgumentFiller.closeParenOffset ctx
     /\ ArgumentFiller.existingArguments ctx
        = trim (CallSiteLocator.segment text
                  (ArgumentFiller.openParenOffset ctx + 1)
                  (ArgumentFiller.closeParenOffset ctx)))
  /\ (forall (lcm : Z -> Z * jsstring) (options : AutofillOptions)
        (h : Host) (document : TextDocument) (position : Position)
        (r : ArgumentFillResult),
        ArgumentFiller.fillArguments lcm options h document position
        = Returned (Some r) ->
        exists ctx,
          ArgumentFiller.findMethodCallContext (getText document)
            (offsetAt document position) = Some ctx
          /\ replaceStart r = ArgumentFiller.openParenOffset ctx + 1
          /\ replaceStart r + replaceLength r
             = ArgumentFiller.closeParenOffset ctx
          /\ replaceStart r + replaceLength r < length (getText document)
          /\ (ArgumentFiller.closeParenOffset ctx
              = ArgumentFiller.openParenOffset ctx + 1 ->
              replaceLength r = 0))
  /\ ArgumentFiller.fillArguments ParameterResolver.unchanged
       ParameterResolver.allTrue
       (ParameterResolver.javaExtensionWith ParameterResolver.helpIntString)
       (ParameterResolver.singleLine (str "void m(){ someMethod(); }"))
       {| line := 0; character := 21 |}
     = Returned (Some {| arguments := str "a, b";
                         replaceStart := 21;
                         replaceLength := 0 |}).
Proof.
  split; [exact FillFacts.findMethodCallContext_invariants|].
  split; [|reflexivity].
  intros lcm options h document position r Hr.
  destruct (FillFacts.fillArguments_span _ _ _ _ _ _ Hr) as (ctx & Hf & Hs & Hl).
  exists ctx. split; [exact Hf|].
  apply FillFacts.findMethodCallContext_invariants in Hf.
  destruct Hf as (H1 & H2 & _ & _ & H3 & H4 & H5 & _).
  rewrite Hs, Hl. repeat split; lia.
Qed.

(** ** The heuristics *)

Module HeuristicFacts.

Import ArgumentFiller CallSiteLocator ParameterResolver.

Lemma skipBack_le (test : option Z -> bool) (text : jsstring) (n : nat) :
  skipBack test text n <= n.
Proof.
  induction n as [|i IH]; simpl; [lia|].
  destruct (test (at_ text i)); lia.
Qed.

Lemma skipBack_run (test : option Z -> bool) (text : jsstring) (n i : nat) :
  skipBack test text n <= i < n -> test (at_ text i) = true.
Proof.
  induction n as [|m IH]; simpl; [lia|].
  destruct (test (at_ text m)) eqn:E; [|lia].
  intros H. destruct (Nat.eq_dec i m) as [->|]; [exact E|].
  apply IH. lia.
Qed.

(** A callee name is a run of identifier characters, and not empty. *)
Lemma extractMethodName_ident (text : jsstring) (p : nat) (nm : jsstring)
    (isC : bool) :
  p <= length text ->
  extractMethodName text p = Some (nm, isC) ->
  nm <> [] /\ Forall (fun c => isIdentChar c = true) nm.
Proof.
  unfold extractMethodName. intros Hp.
  set (e := skipBack testWhiteSpace text p).
  set (s := skipBack testIdentChar text e).
  pose proof (skipBack_le testWhiteSpace text p) as He. fold e in He.
  pose proof (skipBack_le testIdentChar text e) as Hs. fold s in Hs.
  destruct (Nat.eqb_spec s e) as [|Hne]; [discriminate|].
  intros [= <- _].
  unfold substring. rewrite !Nat.min_l by lia. rewrite Nat.max_r by lia.
  split.
  - intros E. apply (f_equal (@length Z)) in E.
    rewrite length_firstn, length_skipn in E. simpl in E. lia.
  - apply Forall_forall. intros c Hin.
    apply In_nth_error in Hin. destruct Hin as (k & Hk).
    rewrite nth_error_firstn in Hk.
    destruct (Nat.ltb_spec k (e - s)) as [Hlt|]; [|discriminate].
    rewrite nth_error_skipn in Hk.
    pose proof (skipBack_run testIdentChar text e (s + k)) as Hr.
    fold s in Hr. specialize (Hr ltac:(lia)).
    unfold at_ in Hr. now rewrite Hk in Hr.
Qed.

Lemma toLowerCaseUnit_ident (lcm : Z -> Z * jsstring) (c : Z) :
  isIdentChar c = true -> toLowerCaseUnit lcm c = [asciiLower c].
Proof.
  unfold isIdentChar, toLowerCaseUnit, asciiLower, ch. simpl.
  intros H.
  destruct ((65 <=? c)%Z && (c <=? 90)%Z); [reflexivity|].
  replace ((0 <=? c)%Z && (c <? 128)%Z) with true; [reflexivity|].
  symmetry. apply andb_true_iff.
  rewrite Z.leb_le, Z.ltb_lt.
  repeat rewrite orb_true_iff in H. repeat rewrite andb_true_iff in H.
  repeat rewrite Z.leb_le in H. rewrite Z.eqb_eq in H. lia.
Qed.

(** The setter rule. *)
Lemma generatePlaceholderParameters_setter (lcm : Z -> Z * jsstring)
    (c : Z) (rest : jsstring) (isC : bool) :
  generatePlaceholderParameters lcm (str "set" ++ c :: rest) isC
  = Returned [ {| name := toLowerCaseUnit lcm c ++ rest;
                  type := str "Object"; index := 0 |} ].
Proof.
  unfold generatePlaceholderParameters.
  change (startsWith (str "set" ++ c :: rest) (str "set")) with true.
  reflexivity.
Qed.

(** The other callees go to the table. *)
Lemma generatePlaceholderParameters_table (lcm : Z -> Z * jsstring)
    (callee : jsstring) (isC : bool) :
  isSetter callee = false ->
  generatePlaceholderParameters lcm callee isC
  = match getProperty callee with
    | OwnArray names => Returned (objectParameters names)
    | Inherited => Thrown TypeError
    | Undefined => Returned []
    end.
Proof.
  unfold generatePlaceholderParameters, isSetter. now intros ->.
Qed.

(** On the heuristic path the fill operation is the heuristics, when the
    option allows them. *)
Lemma fillArguments_heuristic (lcm : Z -> Z * jsstring)
    (options : AutofillOptions) (h : Host) (document : TextDocument)
    (position : Position) (ctx : MethodCallContext) :
  heuristicPath h document position ctx ->
  fillArguments lcm options h document position
  = if fallbackToTypeName options then
      ps <- generatePlaceholderParameters lcm (methodName ctx)
              (isConstructor ctx) ;;
      match ps with
      | [] => Returned None
      | _ :: _ =>
          Returned (Some {| arguments := generateArgumentString lcm options ps;
                            replaceStart := argumentsStart ctx;
                            replaceLength := argumentsLength ctx |})
      end
    else Returned None.
Proof.
  intros (Hf & He & Hno).
  rewrite (FillFacts.fillArguments_fallback _ _ _ _ _ _ Hf Hno).
  unfold parseParametersFromContext. rewrite He. simpl.
  destruct (fallbackToTypeName options); [|reflexivity].
  destruct (generatePlaceholderParameters lcm (methodName ctx)
              (isConstructor ctx)) as [ps|]; [|reflexivity].
  now destruct ps.
Qed.

(** The text for parameters of the table or of the setter rule: their
    names, or "object" for each when type names are asked for. *)
Lemma generateArgumentString_objects (lcm : Z -> Z * jsstring)
    (options : AutofillOptions) (ps : list MethodParameter) :
  fallbackToTypeName options = true ->
  Forall (fun p => type p = str "Object") ps ->
  generateArgumentString lcm options ps
  = join (str ", ")
      (if useParameterNames options then map name ps
       else map (fun _ => str "object") ps).
Proof.
  intros Hfb Hall. unfold generateArgumentString. rewrite Hfb.
  destruct (useParameterNames options); [reflexivity|].
  f_equal. apply map_ext_in. intros p Hin.
  rewrite Forall_forall in Hall. unfold typeDerivedName.
  now rewrite (Hall p Hin).
Qed.

Lemma objectParameters_types (names : list jsstring) :
  Forall (fun p => type p = str "Object") (objectParameters names).
Proof.
  unfold objectParameters, mapi. generalize 0.
  induction names as [|n r IH]; intros i; simpl; constructor; auto.
Qed.

Lemma objectParameters_names (names : list jsstring) :
  map name (objectParameters names) = names.
Proof.
  unfold objectParameters, mapi. generalize 0.
  induction names as [|n r IH]; intros i; simpl; [reflexivity|].
  now rewrite IH.
Qed.

Lemma objectParameters_length (names : list jsstring) :
  length (objectParameters names) = length names.
Proof.
  unfold objectParameters, mapi. generalize 0.
  induction names as [|n r IH]; intros i; simpl; [reflexivity|].
  now rewrite IH.
Qed.

Lemma knownPatterns_nonEmpty (callee : jsstring) (names : list jsstring) :
  ownProperty knownPatterns callee = Some names -> names <> [].
Proof.
  unfold knownPatterns. cbn [ownProperty].
  repeat match goal with
         | |- context [if ?b then _ else _] => destruct b
         end;
    intros [= <-]; discriminate.
Qed.

(** A callee of the table, on the heuristic path. *)
Lemma fillArguments_table (lcm : Z -> Z * jsstring)
    (options : AutofillOptions) (h : Host) (document : TextDocument)
    (position : Position) (ctx : MethodCallContext)
    (names : list jsstring) :
  heuristicPath h document position ctx ->
  fallbackToTypeName options = true ->
  isSetter (methodName ctx) = false ->
  ownProperty knownPatterns (methodName ctx) = Some names ->
  fillArguments lcm options h document position
  = Returned
      (Some {| arguments :=
                 join (str ", ")
                   (if useParameterNames options then names
                    else map (fun _ => str "object") names);
               replaceStart := argumentsStart ctx;
               replaceLength := argumentsLength ctx |}).
Proof.
  intros Hp Hfb Hs Ho.
  rewrite (fillArguments_heuristic _ _ _ _ _ _ Hp), Hfb.
  rewrite (generatePlaceholderParameters_table _ _ _ Hs).
  unfold getProperty. rewrite Ho. cbn [bind].
  pose proof (knownPatterns_nonEmpty _ _ Ho) as Hne.
  pose proof (objectParameters_length names) as Hl.
  destruct (objectParameters names) as [|p ps] eqn:E.
  - destruct names; [congruence|discriminate].
  - rewrite <- E.
    rewrite (generateArgumentString_objects _ _ _ Hfb
               (objectParameters_types names)).
    rewrite objectParameters_names.
    destruct (useParameterNames options); [reflexivity|].
    do 4 f_equal. clear. unfold objectParameters, mapi. generalize 0.
    induction names as [|n r IH]; intros i; simpl; [reflexivity|].
    now rewrite IH.
Qed.

(** A callee of the form of a setter, on the heuristic path. *)
Lemma fillArguments_setter (lcm : Z -> Z * jsstring)
    (options : AutofillOptions) (h : Host) (document : TextDocument)
    (position : Position) (ctx : MethodCallContext)
    (c : Z) (rest : jsstring) :
  heuristicPath h document position ctx ->
  fallbackToTypeName options = true ->
  methodName ctx = str "set" ++ c :: rest ->
  parseParametersFromContext lcm options (getText document) ctx
  = Returned (Some [ {| name := asciiLower c :: rest;
                        type := str "Object"; index := 0 |} ])
  /\ fillArguments lcm options h document position
     = Returned
         (Some {| arguments :=
                    if useParameterNames options then asciiLower c :: rest
                    else str "object";
                  replaceStart := argumentsStart ctx;
                  replaceLength := argumentsLength ctx |}).
Proof.
  intros Hp Hfb Hn.
  assert (Hc : isIdentChar c = true).
  { destruct Hp as (Hf & _ & _).
    pose proof (FillFacts.findMethodCallContext_invariants _ _ _ Hf)
      as (Hlt & Hlen & _).
    apply CallSiteLocatorFacts.findMethodCallContext_some in Hf.
    destruct Hf as (_ & _ & He & _).
    apply extractMethodName_ident in He; [|lia].
    destruct He as (_ & Hall). rewrite Hn in Hall.
    apply Forall_app in Hall. destruct Hall as (_ & Hall).
    now inversion Hall. }
  split.
  - destruct Hp as (_ & He & _).
    unfold parseParametersFromContext. rewrite He, Hfb, Hn. cbn [length].
    rewrite generatePlaceholderParameters_setter.
    now rewrite (toLowerCaseUnit_ident lcm c Hc).
  - rewrite (fillArguments_heuristic _ _ _ _ _ _ Hp), Hfb, Hn.
    rewrite generatePlaceholderParameters_setter.
    rewrite (toLowerCaseUnit_ident lcm c Hc). cbn [bind app].
    rewrite generateArgumentString_objects;
      [|exact Hfb|repeat constructor].
    now destruct (useParameterNames options).
Qed.

End HeuristicFacts.

(** C5, the part that does not hold: on the heuristic path the fill text
    for the callee "equals" is "obj" only when parameter names are asked
    for. With [useParameterNames] off and [fallbackToTypeName] on, the
    text is derived from the type of the parameter, "Object", and is
    "object". *)
Lemma equals_fill_text_depends_on_options :
  ArgumentFiller.fillArguments ParameterResolver.unchanged
    ParameterResolver.typeNamesOnly ParameterResolver.noJavaExtension
    (ParameterResolver.singleLine (str "x.equals()"))
    {| line := 0; character := 9 |}
  = Returned (Some {| arguments := str "object";
                      replaceStart := 9;
                      replaceLength := 0 |})
  /\ str "object" <> str "obj".
Proof. split; [reflexivity|discriminate]. Qed.

(** The table is an object literal, and a callee that names a property
    which every object inherits finds that property in it: the fill
    operation throws for "toString". *)
Lemma inherited_property_name_throws :
  ArgumentFiller.getProperty (str "toString") = ArgumentFiller.Inherited
  /\ ArgumentFiller.fillArguments ParameterResolver.unchanged
       ParameterResolver.allTrue ParameterResolver.noJavaExtension
       (ParameterResolver.singleLine (str "x.toString()"))
       {| line := 0; character := 11 |}
     = Thrown TypeError.
Proof. split; reflexivity. Qed.

(** C5, as amended. On the heuristic path: with [fallbackToTypeName] off
    there is no fill result; with it on, a callee of the table that is not
    of the form of a setter gets the names of its entry as parameters, and
    as fill text these names joined when [useParameterNames] is on and
    "object" for each of them when it is off ("equals" has the one
    parameter "obj", so the text is "obj" with all options on); a callee
    that is not of the form of a setter, is not in the table and is not
    the name of a property that objects inherit gets no fill result. *)
Theorem heuristic_path_resolution :
  (forall (lcm : Z -> Z * jsstring) (options : AutofillOptions) (h : Host)
      (document : TextDocument) (position : Position)
      (ctx : ArgumentFiller.MethodCallContext),
     ParameterResolver.heuristicPath h document position ctx ->
     fallbackToTypeName options = false ->
     ArgumentFiller.fillArguments lcm options h document position
     = Returned None)
  /\ (forall (lcm : Z -> Z * jsstring) (options : AutofillOptions) (h : Host)
        (document : TextDocument) (position : Position)
        (ctx : ArgumentFiller.MethodCallContext) (names : list jsstring),
        ParameterResolver.heuristicPath h document position ctx ->
        fallbackToTypeName options = true ->
        ParameterResolver.isSetter (ArgumentFiller.methodName ctx) = false ->
        ArgumentFiller.ownProperty ArgumentFiller.knownPatterns
          (ArgumentFiller.methodName ctx) = Some names ->
        ArgumentFiller.parseParametersFromContext lcm options
          (getText document) ctx
        = Returned (Some (ParameterResolver.objectParameters names))
        /\ ArgumentFiller.fillArguments lcm options h document position
           = Returned
               (Some {| arguments :=
                          join (str ", ")
                            (if useParameterNames options then names
                             else map (fun _ => str "object") names);
                        replaceStart := ArgumentFiller.argumentsStart ctx;
                        replaceLength :=
                          ArgumentFiller.argumentsLength ctx |}))
  /\ (forall (lcm : Z -> Z * jsstring) (options : AutofillOptions) (h : Host)
        (document : TextDocument) (position : Position)
        (ctx : ArgumentFiller.MethodCallContext),
        ParameterResolver.heuristicPath h document position ctx ->
        fallbackToTypeName options = true ->
        ParameterResolver.isSetter (ArgumentFiller.methodName ctx) = false ->
        ArgumentFiller.getProperty (ArgumentFiller.methodName ctx)
        = ArgumentFiller.Undefined ->
        ArgumentFiller.fillArguments lcm options h document position
        = Returned None)
  /\ ArgumentFiller.ownProperty ArgumentFiller.knownPatterns (str "equals")
     = Some [str "obj"]
  /\ ArgumentFiller.fillArguments ParameterResolver.unchanged
       ParameterResolver.allTrue ParameterResolver.noJavaExtension
       (ParameterResolver.singleLine (str "x.equals()"))
       {| line := 0; character := 9 |}
     = Returned (Some {| arguments := str "obj";
                         replaceStart := 9;
                         replaceLength := 0 |})
  /\ ArgumentFiller.fillArguments ParameterResolver.unchanged
       ParameterResolver.allTrue ParameterResolver.noJavaExtension
       (ParameterResolver.singleLine (str "mysteryMethod()"))
       {| line := 0; character := 14 |}
     = Returned None.
Proof.
  split; [|split; [|split; [|repeat split; reflexivity]]].
  - intros lcm options h document position ctx Hp Hfb.
    now rewrite (HeuristicFacts.fillArguments_heuristic _ _ _ _ _ _ Hp), Hfb.
  - intros lcm options h document position ctx names Hp Hfb Hs Ho.
    split; [|now apply HeuristicFacts.fillArguments_table].
    destruct Hp as (_ & He & _).
    unfold ArgumentFiller.parseParametersFromContext.
    rewrite He, Hfb. cbn [length].
    rewrite (HeuristicFacts.generatePlaceholderParameters_table _ _ _ Hs).
    unfold ArgumentFiller.getProperty. now rewrite Ho.
  - intros lcm options h document position ctx Hp Hfb Hs Hu.
    rewrite (HeuristicFacts.fillArguments_heuristic _ _ _ _ _ _ Hp), Hfb.
    rewrite (HeuristicFacts.generatePlaceholderParameters_table _ _ _ Hs).
    now rewrite Hu.
Qed.

(** C6, the part that does not hold: the fill text for the callee
    "setTitle" is "title" only when parameter names are asked for; with
    [useParameterNames] off it is "object". *)
Lemma setter_fill_text_depends_on_options :
  ArgumentFiller.fillArguments ParameterResolver.unchanged
    ParameterResolver.typeNamesOnly ParameterResolver.noJavaExtension
    (ParameterResolver.singleLine (str "x.setTitle()"))
    {| line := 0; character := 11 |}
  = Returned (Some {| arguments := str "object";
                      replaceStart := 11;
                      replaceLength := 0 |})
  /\ str "object" <> str "title".
Proof. split; [reflexivity|discriminate]. Qed.

(** C6, as amended. For a callee that is "set" followed by one character
    at least the heuristic table gives one parameter: its name is what
    follows "set" with the first character lower-cased and the rest as it
    is, its type is "Object". On the heuristic path, where the callee is
    made of identifier characters, that is the resolution, and the fill
    text is this name when [useParameterNames] is on and "object" when it
    is off. The callee "setTitle" gets the parameter "title", and the fill
    text "title" with all options on. *)
Theorem setter_heuristic :
  (forall (lcm : Z -> Z * jsstring) (c : Z) (rest : jsstring) (isC : bool),
     ArgumentFiller.generatePlaceholderParameters lcm
       (str "set" ++ c :: rest) isC
     = Returned [ {| name := toLowerCaseUnit lcm c ++ rest;
                     type := str "Object"; index := 0 |} ])
  /\ (forall (lcm : Z -> Z * jsstring) (options : AutofillOptions) (h : Host)
        (document : TextDocument) (position : Position)
        (ctx : ArgumentFiller.MethodCallContext) (c : Z) (rest : jsstring),
        ParameterResolver.heuristicPath h document position ctx ->
        fallbackToTypeName options = true ->
        ArgumentFiller.methodName ctx = str "set" ++ c :: rest ->
        ArgumentFiller.parseParametersFromContext lcm options
          (getText document) ctx
        = Returned (Some [ {| name := ParameterResolver.asciiLower c :: rest;
                              type := str "Object"; index := 0 |} ])
        /\ ArgumentFiller.fillArguments lcm options h document position
           = Returned
               (Some {| arguments :=
                          if useParameterNames options
                          then ParameterResolver.asciiLower c :: rest
                          else str "object";
                        replaceStart := ArgumentFiller.argumentsStart ctx;
                        replaceLength :=
                          ArgumentFiller.argumentsLength ctx |}))
  /\ ArgumentFiller.generatePlaceholderParameters ParameterResolver.unchanged
       (str "setTitle") false
     = Returned [ {| name := str "title"; type := str "Object"; index := 0 |} ]
  /\ ArgumentFiller.fillArguments ParameterResolver.unchanged
       ParameterResolver.allTrue ParameterResolver.noJavaExtension
       (ParameterResolver.singleLine (str "x.setTitle()"))
       {| line := 0; character := 11 |}
     = Returned (Some {| arguments := str "title";
                         replaceStart := 11;
                         replaceLength := 0 |}).
Proof.
  split; [exact HeuristicFacts.generatePlaceholderParameters_setter|].
  split; [exact HeuristicFacts.fillArguments_setter|].
  split; reflexivity.
Qed.

(** ** The completion surface *)

Module CompletionFacts.

Import ArgumentCompletionProvider CallSiteLocator ParameterResolver
  CompletionSurface.

(** The check scans as the locator does. *)
Lemma isInsideMethodCallFrom_scan (t : jsstring) (n : nat) (d : Z) :
  isInsideMethodCallFrom t n d
  = match ArgumentFiller.scanOpenParen t n d with
    | Some p => endsWithIdentChar (trim (substring t 0 p))
    | None => false
    end.
Proof.
  revert d. induction n as [|i IH]; intros d; simpl; [reflexivity|].
  destruct (at_ t i) as [c|]; [|apply IH].
  destruct (c =? ch ")")%Z; [apply IH|].
  destruct (c =? ch "(")%Z; [|apply IH].
  destruct (d =? 0)%Z; [reflexivity|apply IH].
Qed.

Lemma substring_prefix (t : jsstring) (p : nat) :
  substring t 0 p = firstn p t.
Proof.
  unfold substring. rewrite (Nat.min_l 0 (length t)) by lia.
  rewrite Nat.max_r, (Nat.min_l 0), Nat.sub_0_r by lia. cbn [skipn].
  destruct (Nat.le_ge_cases p (length t)) as [H|H].
  - now rewrite Nat.min_l by lia.
  - rewrite Nat.min_r by lia. now rewrite !firstn_all2 by lia.
Qed.

(** The check, said by counting parentheses. *)
Lemma isInsideMethodCall_iff (t : jsstring) :
  isInsideMethodCall t = true <-> insideCall t.
Proof.
  unfold isInsideMethodCall, insideCall.
  rewrite isInsideMethodCallFrom_scan.
  pose proof (CallSiteLocatorFacts.scanOpenParen_start t (length t)) as H.
  destruct (ArgumentFiller.scanOpenParen t (length t) 0) as [p|].
  - rewrite substring_prefix. split.
    + intros E. now exists p.
    + intros (p' & Hin & E).
      now rewrite (CallSiteLocatorFacts.innermostOpen_unique _ _ _ _ H Hin).
  - split; [discriminate|].
    intros (p' & (_ & Hlt & Hone & _) & _).
    specialize (H p' Hlt). lia.
Qed.

(** The three ways to no suggestion. *)
Lemma provide_disabled (options : AutofillOptions) (h : Host)
    (document : TextDocument) (position : Position) :
  enableCompletion options = false ->
  provideCompletionItems options h document position = Returned None.
Proof. unfold provideCompletionItems. now intros ->. Qed.

Lemma provide_outside (options : AutofillOptions) (h : Host)
    (document : TextDocument) (position : Position) (lineText : jsstring) :
  lineAt document (line position) = Returned lineText ->
  isInsideMethodCall (substring lineText 0 (character position)) = false ->
  provideCompletionItems options h document position = Returned None.
Proof.
  unfold provideCompletionItems. intros -> Hc. cbn [bind]. rewrite Hc.
  now destruct (enableCompletion options).
Qed.

Lemma provide_no_data (options : AutofillOptions) (h : Host)
    (document : TextDocument) (position : Position) (lineText : jsstring) :
  lineAt document (line position) = Returned lineText ->
  noAdapterData h document position ->
  provideCompletionItems options h document position = Returned None.
Proof.
  unfold provideCompletionItems, noAdapterData,
    isRedHatJavaExtensionAvailable, getParametersFromSignatureHelp.
  intros -> Hno. cbn [bind].
  destruct (enableCompletion options); [|reflexivity]. cbn [negb].
  destruct (isInsideMethodCall _); [|reflexivity]. cbn [negb].
  destruct Hno as [-> | Hno]; [reflexivity|].
  rewrite Hno. now destruct (redhatJava h).
Qed.

(** Suggestions are made of parameters of the symbol source. *)
Lemma provide_some (options : AutofillOptions) (h : Host)
    (document : TextDocument) (position : Position)
    (items : list CompletionItem) :
  provideCompletionItems options h document position
  = Returned (Some items) ->
  enableCompletion options = true
  /\ redhatJava h = true
  /\ exists p ps,
       SignatureQuery.getParameters h document position = Some (p :: ps)
       /\ createCompletionItems (p :: ps) document position
          = Returned items.
Proof.
  unfold provideCompletionItems, isRedHatJavaExtensionAvailable,
    getParametersFromSignatureHelp.
  destruct (enableCompletion options); [|discriminate]. cbn [negb].
  destruct (lineAt document (line position)) as [lineText|];
    [|discriminate].
  cbn [bind].
  destruct (isInsideMethodCall _); [|discriminate]. cbn [negb].
  destruct (redhatJava h); [|discriminate].
  destruct (SignatureQuery.getParameters h document position)
    as [[|p ps]|] eqn:E; try discriminate.
  intros H. repeat split. exists p, ps. split; [reflexivity|].
  destruct (createCompletionItems (p :: ps) document position);
    simpl in H; congruence.
Qed.

(** A line of the document lies in its text, at the offset at which it
    starts. *)
Lemma getText_line (ls : list jsstring) (e : jsstring) :
  forall (l : nat) (t : jsstring),
    nth_error ls l = Some t ->
    exists before after,
      join e ls = before ++ t ++ after
      /\ length before = lineStart ls e l.
Proof.
  induction ls as [|t0 rest IH]; intros l t Hl.
  - destruct l; discriminate.
  - destruct l as [|l]; simpl in Hl.
    + injection Hl as ->. exists []. cbn [join lineStart].
      destruct rest; eexists; split; try reflexivity.
      now rewrite app_nil_r.
    + destruct (IH l t Hl) as (b & a & Ej & Eb).
      exists (t0 ++ e ++ b), a. cbn [join lineStart].
      destruct rest as [|t1 rest']; [destruct l; discriminate|].
      rewrite Ej. split.
      * now rewrite <- !app_assoc.
      * rewrite !length_app. lia.
Qed.

(** The text of the document before the cursor ends with the text of the
    line before the cursor. *)
Lemma text_before_cursor (document : TextDocument) (position : Position)
    (t : jsstring) :
  nth_error (lines document) (line position) = Some t ->
  exists before,
    firstn (offsetAt document position) (getText document)
    = before ++ firstn (character position) t
    /\ length before
       = lineStart (lines document) (eol document) (line position).
Proof.
  intros Hl. unfold offsetAt, getText. rewrite Hl.
  destruct (getText_line _ (eol document) _ _ Hl) as (b & a & Ej & Eb).
  exists b. split; [|exact Eb].
  rewrite Ej, <- Eb, firstn_app_2, firstn_app.
  replace (Nat.min (character position) (length t) - length t) with 0
    by lia.
  cbn [firstn]. rewrite app_nil_r. f_equal.
  destruct (Nat.le_ge_cases (character position) (length t)) as [H|H].
  - now rewrite Nat.min_l by lia.
  - rewrite Nat.min_r by lia. now rewrite !firstn_all2 by lia.
Qed.

(** A ['('] left open in the text of the line is left open in the text of
    the document, at its offset there. *)
Lemma innermostOpen_in_document (text before pre : jsstring) (o p : nat) :
  firstn o text = before ++ pre ->
  o = length before + length pre ->
  innermostOpen pre (length pre) p ->
  innermostOpen text o (length before + p).
Proof.
  intros Hf Ho (Hat & Hlt & Hone & Hall).
  assert (Hseg : forall j, segment text (length before + j) o
                           = segment pre j (length pre)).
  { intros j. unfold segment. rewrite Hf, firstn_all, skipn_app.
    rewrite skipn_all2 by lia. simpl. f_equal. lia. }
  repeat split.
  - unfold at_ in *.
    pose proof (nth_error_firstn o text (length before + p)) as H.
    destruct (Nat.ltb_spec (length before + p) o) as [_|]; [|lia].
    rewrite <- H, Hf, nth_error_app2 by lia.
    now replace (length before + p - length before) with p by lia.
  - lia.
  - now rewrite Hseg.
  - intros j Hj.
    replace j with (length before + (j - length before)) by lia.
    rewrite Hseg. apply Hall. lia.
Qed.

(** The cursor is enclosed by a ['('] of an earlier line: the check on
    the line fails. *)
Lemma check_fails_across_lines (document : TextDocument)
    (position : Position) (t : jsstring) (p : nat) :
  nth_error (lines document) (line position) = Some t ->
  innermostOpen (getText document) (offsetAt document position) p ->
  p < lineStart (lines document) (eol document) (line position) ->
  isInsideMethodCall (substring t 0 (character position)) = false.
Proof.
  intros Hl Hin Hp.
  destruct (isInsideMethodCall _) eqn:E; [|reflexivity].
  apply isInsideMethodCall_iff in E. destruct E as (p' & Hin' & _).
  rewrite substring_prefix in Hin'.
  destruct (text_before_cursor document position t Hl) as (b & Ef & Eb).
  assert (Ho : offsetAt document position
               = length b + length (firstn (character position) t)).
  { unfold offsetAt. rewrite Hl, Eb, length_firstn. reflexivity. }
  pose proof (innermostOpen_in_document _ _ _ _ _ Ef Ho Hin') as Hdoc.
  pose proof (CallSiteLocatorFacts.innermostOpen_unique _ _ _ _ Hin Hdoc).
  lia.
Qed.

Lemma opener_not_closer (c : Z) :
  isOpener c = true -> isCloser c = false /\ (c =? ch ",")%Z = false.
Proof.
  unfold isOpener, isCloser, ch. simpl. intros H.
  repeat rewrite orb_true_iff in H. repeat rewrite Z.eqb_eq in H.
  split; [repeat (apply orb_false_iff; split)|]; apply Z.eqb_neq; lia.
Qed.

Lemma closer_not_comma (c : Z) :
  isCloser c = true -> (c =? ch ",")%Z = false.
Proof.
  unfold isCloser, ch. simpl. intros H.
  repeat rewrite orb_true_iff in H. repeat rewrite Z.eqb_eq in H.
  apply Z.eqb_neq; lia.
Qed.

Lemma stopsFrom_zero (d : Z) (c : Z) (r : jsstring) :
  stopsFrom d (c :: r) 0 = (isCloser c || (c =? ch ",")%Z) && (d =? 0)%Z.
Proof. unfold stopsFrom. simpl. now rewrite Z.add_0_r. Qed.

Lemma stopsFrom_succ (d : Z) (c : Z) (r : jsstring) (k : nat) :
  stopsFrom d (c :: r) (S k) = stopsFrom (d + bracketDelta c) r k.
Proof.
  unfold stopsFrom. cbn [nth_error firstn bracketDepth].
  now rewrite Z.add_assoc.
Qed.

(** The forward scan of the replacement range stops at the first comma or
    closing bracket of depth 0. *)
Lemma scanArgumentEnd_spec (rest : jsstring) :
  forall (i : nat) (d : Z),
    (0 <= d)%Z ->
    match scanArgumentEnd rest i d with
    | Some q =>
        exists k, q = i + k
                  /\ k < length rest
                  /\ stopsFrom d rest k = true
                  /\ forall k', k' < k -> stopsFrom d rest k' = false
    | None => forall k', stopsFrom d rest k' = false
    end.
Proof.
  induction rest as [|c rest IH]; intros i d Hd.
  - simpl. intros k'. unfold stopsFrom. now destruct k'.
  - cbn [scanArgumentEnd].
    assert (Hstep : forall d',
      (0 <= d')%Z -> d' = (d + bracketDelta c)%Z ->
      stopsFrom d (c :: rest) 0 = false ->
      match scanArgumentEnd rest (S i) d' with
      | Some q =>
          exists k, q = i + k
                    /\ k < length (c :: rest)
                    /\ stopsFrom d (c :: rest) k = true
                    /\ forall k', k' < k -> stopsFrom d (c :: rest) k' = false
      | None => forall k', stopsFrom d (c :: rest) k' = false
      end).
    { intros d' Hd' -> H0. specialize (IH (S i) _ Hd').
      destruct (scanArgumentEnd rest (S i) (d + bracketDelta c)) as [q|].
      - destruct IH as (k & -> & Hlt & Hk & Hall).
        exists (S k). repeat split; [lia|simpl; lia| |].
        + now rewrite stopsFrom_succ.
        + intros [|k'] Hk'; [exact H0|].
          rewrite stopsFrom_succ. apply Hall. lia.
      - intros [|k']; [exact H0|]. rewrite stopsFrom_succ. apply IH. }
    unfold bracketDelta in Hstep.
    destruct (isOpener c) eqn:Eo.
    + destruct (opener_not_closer c Eo) as (Ec & Em).
      apply Hstep; [lia|reflexivity|].
      now rewrite stopsFrom_zero, Ec, Em.
    + destruct (isCloser c) eqn:Ec.
      * destruct (d =? 0)%Z eqn:Ez.
        -- exists 0. repeat split; [lia|simpl; lia| |intros k' Hk'; lia].
           now rewrite stopsFrom_zero, Ec, Ez.
        -- apply Z.eqb_neq in Ez. apply Hstep; [lia|lia|].
           rewrite stopsFrom_zero.
           replace (d =? 0)%Z with false by (symmetry; apply Z.eqb_neq; lia).
           apply andb_false_r.
      * destruct ((c =? ch ",")%Z && (d =? 0)%Z) eqn:Em.
        -- exists 0. repeat split; [lia|simpl; lia| |intros k' Hk'; lia].
           apply andb_true_iff in Em. destruct Em as (Em & Ez).
           now rewrite stopsFrom_zero, Ec, Em, Ez.
        -- apply Hstep; [lia|lia|].
           rewrite stopsFrom_zero, Ec. exact Em.
Qed.

Lemma scanArgumentStart_lt (t : jsstring) (n i : nat) :
  scanArgumentStart t n = Some i -> i < n.
Proof.
  induction n as [|m IH]; simpl; [discriminate|].
  destruct (at_ t m) as [c|].
  - destruct ((c =? ch "(")%Z || (c =? ch ",")%Z).
    + intros [= <-]. lia.
    + intros H. specialize (IH H). lia.
  - intros H. specialize (IH H). lia.
Qed.

Lemma skipWhiteSpace_bounds (lineText : jsstring) (limit : nat) :
  forall n s, s <= limit ->
    s <= skipWhiteSpace lineText limit s n <= limit.
Proof.
  induction n as [|n IH]; intros s Hs; simpl; [lia|].
  destruct (Nat.ltb_spec s limit) as [Hlt|]; simpl; [|lia].
  destruct (testWhiteSpace (at_ lineText s)); [|lia].
  specialize (IH (S s) Hlt). lia.
Qed.

(** The bound on the iterations of the loop that skips white space is
    enough: the loop has ended when it is reached. *)
Lemma skipWhiteSpace_done (lineText : jsstring) (limit : nat) :
  forall n s, limit - s <= n ->
    let r := skipWhiteSpace lineText limit s n in
    (r <? limit) && testWhiteSpace (at_ lineText r) = false.
Proof.
  induction n as [|n IH]; intros s Hn; simpl.
  - replace (s <? limit) with false; [reflexivity|].
    symmetry. apply Nat.ltb_ge. lia.
  - destruct ((s <? limit) && testWhiteSpace (at_ lineText s)) eqn:E.
    + apply IH. apply andb_true_iff in E. destruct E as (E & _).
      apply Nat.ltb_lt in E. lia.
    + exact E.
Qed.

(** The replacement range. *)
Lemma calculateReplaceRange_spec (document : TextDocument)
    (position : Position) (lineText : jsstring) :
  lineAt document (line position) = Returned lineText ->
  exists startChar endChar,
    calculateReplaceRange document position
    = Returned (Some {| range_start := {| line := line position;
                                          character := startChar |};
                        range_end := {| line := line position;
                                        character := endChar |} |})
    /\ startChar <= character position <= endChar
    /\ endChar <= Nat.max (character position) (length lineText)
    /\ ((forall k, stops (skipn (character position) lineText) k = false) ->
        endChar = character position)
    /\ (forall k,
          stops (skipn (character position) lineText) k = true ->
          (forall k', k' < k ->
             stops (skipn (character position) lineText) k' = false) ->
          endChar = character position + k).
Proof.
  intros Hl. unfold calculateReplaceRange. rewrite Hl. cbn [bind].
  unfold substringFrom.
  set (after := skipn (character position) lineText).
  set (before := substring lineText 0 (character position)).
  set (startChar :=
         match scanArgumentStart before (length before) with
         | Some i =>
             skipWhiteSpace lineText (character position) (i + 1)
               (character position - (i + 1))
         | None => character position
         end).
  set (endChar :=
         match scanArgumentEnd after 0 0 with
         | Some i => character position + i
         | None => character position
         end).
  assert (Hs : startChar <= character position).
  { unfold startChar.
    destruct (scanArgumentStart before (length before)) as [i|] eqn:E;
      [|lia].
    apply scanArgumentStart_lt in E.
    assert (length before <= character position).
    { unfold before. rewrite substring_prefix, length_firstn. lia. }
    apply skipWhiteSpace_bounds. lia. }
  pose proof (scanArgumentEnd_spec after 0 0 ltac:(lia)) as He.
  change (stopsFrom 0%Z after) with (stops after) in He.
  assert (Hend : character position <= endChar
                 /\ endChar <= Nat.max (character position) (length lineText)
                 /\ ((forall k, stops after k = false) ->
                     endChar = character position)
                 /\ (forall k, stops after k = true ->
                       (forall k', k' < k -> stops after k' = false) ->
                       endChar = character position + k)).
  { unfold endChar.
    destruct (scanArgumentEnd after 0 0) as [q|].
    - destruct He as (k & -> & Hlt & Hk & Hall). simpl.
      unfold after in Hlt. rewrite length_skipn in Hlt.
      repeat split; [lia|lia| |].
      + intros Hno. rewrite Hno in Hk. discriminate.
      + intros k0 Hk0 Hall0.
        destruct (Nat.lt_trichotomy k k0) as [L|[E|L]]; [|lia|].
        * rewrite (Hall0 k L) in Hk. discriminate.
        * rewrite (Hall k0 L) in Hk0. discriminate.
    - split; [lia|split; [lia|split; [reflexivity|]]].
      intros k0 Hk0 _. rewrite He in Hk0. discriminate. }
  exists startChar, endChar. split; [|split; [lia|tauto]].
  unfold newRange, isBefore. cbn [line character].
  rewrite Nat.ltb_irrefl, Nat.eqb_refl. simpl.
  replace (endChar <? startChar) with false; [reflexivity|].
  symmetry. apply Nat.ltb_ge. lia.
Qed.

End CompletionFacts.

(** C7. The completion surface gives no suggestion, as a result and not
    as an error, when completion is off in the options, when the check on
    the text of the line before the cursor fails (no ['('] left open in it
    that has an identifier character before it), and when the symbol
    source is absent or yields no parameters. The suggestions it gives are
    made of parameters of the symbol source alone: for "x.equals()"
    without the Java extension it gives none, where the fill operation
    finds "obj" in its table. *)
Theorem completion_without_heuristics :
  (forall (options : AutofillOptions) (h : Host) (document : TextDocument)
      (position : Position),
     enableCompletion options = false ->
     ArgumentCompletionProvider.provideCompletionItems options h document
       position = Returned None)
  /\ (forall (options : AutofillOptions) (h : Host) (document : TextDocument)
        (position : Position) (lineText : jsstring),
        lineAt document (line position) = Returned lineText ->
        ~ CompletionSurface.insideCall
            (firstn (character position) lineText) ->
        ArgumentCompletionProvider.provideCompletionItems options h document
          position = Returned None)
  /\ (forall (options : AutofillOptions) (h : Host) (document : TextDocument)
        (position : Position) (lineText : jsstring),
        lineAt document (line position) = Returned lineText ->
        ParameterResolver.noAdapterData h document position ->
        ArgumentCompletionProvider.provideCompletionItems options h document
          position = Returned None)
  /\ (forall (options : AutofillOptions) (h : Host) (document : TextDocument)
        (position : Position)
        (items : list ArgumentCompletionProvider.CompletionItem),
        ArgumentCompletionProvider.provideCompletionItems options h document
          position = Returned (Some items) ->
        enableCompletion options = true
        /\ redhatJava h = true
        /\ exists p ps,
             SignatureQuery.getParameters h document position
             = Some (p :: ps)
             /\ ArgumentCompletionProvider.createCompletionItems (p :: ps)
                  document position = Returned items)
  /\ ArgumentCompletionProvider.provideCompletionItems
       ParameterResolver.allTrue ParameterResolver.noJavaExtension
       (ParameterResolver.singleLine (str "x.equals()"))
       {| line := 0; character := 9 |}
     = Returned None
  /\ ArgumentFiller.fillArguments ParameterResolver.unchanged
       ParameterResolver.allTrue ParameterResolver.noJavaExtension
       (ParameterResolver.singleLine (str "x.equals()"))
       {| line := 0; character := 9 |}
     = Returned (Some {| arguments := str "obj";
                         replaceStart := 9;
                         replaceLength := 0 |}).
Proof.
  split; [exact CompletionFacts.provide_disabled|].
  split; [|split; [exact CompletionFacts.provide_no_data|]].
  - intros options h document position lineText Hl Hn.
    apply (CompletionFacts.provide_outside _ _ _ _ _ Hl).
    rewrite CompletionFacts.substring_prefix.
    destruct (ArgumentCompletionProvider.isInsideMethodCall _) eqn:E;
      [|reflexivity].
    apply CompletionFacts.isInsideMethodCall_iff in E. contradiction.
  - split; [exact CompletionFacts.provide_some|split; reflexivity].
Qed.

(** C10. The completion surface reads the line of the cursor only. When
    the innermost ['('] left open before the cursor in the text of the
    document lies on an earlier line, it gives no suggestion, whatever the
    symbol source could supply. The replacement range that it computes
    starts and ends on the line of the cursor, starts at or before the
    cursor and ends at or after it; it ends at the first comma or closing
    bracket of bracket depth 0 after the cursor on that line, and at the
    cursor when the line has none. *)
Theorem completion_confined_to_cursor_line :
  (forall (options : AutofillOptions) (h : Host) (document : TextDocument)
      (position : Position) (lineText : jsstring) (p : nat),
     lineAt document (line position) = Returned lineText ->
     CallSiteLocator.innermostOpen (getText document)
       (offsetAt document position) p ->
     p < lineStart (lines document) (eol document) (line position) ->
     ArgumentCompletionProvider.provideCompletionItems options h document
       position = Returned None)
  /\ (forall (document : TextDocument) (position : Position)
        (lineText : jsstring),
        lineAt document (line position) = Returned lineText ->
        exists startChar endChar,
          ArgumentCompletionProvider.calculateReplaceRange document position
          = Returned (Some {| range_start := {| line := line position;
                                                character := startChar |};
                              range_end := {| line := line position;
                                              character := endChar |} |})
          /\ startChar <= character position <= endChar
          /\ endChar <= Nat.max (character position) (length lineText)
          /\ ((forall k,
                 CompletionSurface.stops
                   (skipn (character position) lineText) k = false) ->
              endChar = character position)
          /\ (forall k,
                CompletionSurface.stops
                  (skipn (character position) lineText) k = true ->
                (forall k', k' < k ->
                   CompletionSurface.stops
                     (skipn (character position) lineText) k' = false) ->
                endChar = character position + k))
  /\ (forall (document : TextDocument) (position : Position) (r : Range),
        ArgumentCompletionProvider.calculateReplaceRange document position
        = Returned (Some r) ->
        line (range_start r) = line position
        /\ line (range_end r) = line position
        /\ character (range_start r) <= character position
        /\ character position <= character (range_end r))
  /\ ArgumentFiller.scanOpenParen (getText CompletionSurface.twoLines)
       (offsetAt CompletionSurface.twoLines {| line := 1; character := 4 |})
       0 = Some 3
  /\ ArgumentCompletionProvider.provideCompletionItems
       ParameterResolver.allTrue
       (ParameterResolver.javaExtensionWith ParameterResolver.helpIntString)
       CompletionSurface.twoLines {| line := 1; character := 4 |}
     = Returned None
  /\ ArgumentCompletionProvider.calculateReplaceRange
       (ParameterResolver.singleLine (str "foo(a, bar(1, 2), c)"))
       {| line := 0; character := 7 |}
     = Returned (Some {| range_start := {| line := 0; character := 7 |};
                         range_end := {| line := 0; character := 16 |} |})
  /\ ArgumentCompletionProvider.calculateReplaceRange
       (ParameterResolver.singleLine (str "foo(ab"))
       {| line := 0; character := 5 |}
     = Returned (Some {| range_start := {| line := 0; character := 4 |};
                         range_end := {| line := 0; character := 5 |} |}).
Proof.
  split; [|split; [exact CompletionFacts.calculateReplaceRange_spec|split]].
  - intros options h document position lineText p Hl Hin Hp.
    apply (CompletionFacts.provide_outside _ _ _ _ _ Hl).
    apply (CompletionFacts.check_fails_across_lines document position
             lineText p); try assumption.
    unfold lineAt in Hl.
    destruct (nth_error (lines document) (line position)); congruence.
  - intros document position r Hr.
    destruct (lineAt document (line position)) as [lineText|e] eqn:Hl.
    + destruct (CompletionFacts.calculateReplaceRange_spec _ _ _ Hl)
        as (s & e & Hc & Hb & _).
      rewrite Hc in Hr. injection Hr as <-. simpl. lia.
    + unfold ArgumentCompletionProvider.calculateReplaceRange in Hr.
      rewrite Hl in Hr. discriminate.
  - repeat split; reflexivity.
Qed.

(** * The conditional statements at concrete inputs *)

(** The call site of baz in "foo(bar(1,2), baz())". *)
Lemma findMethodCallContext_balanced_scan_witness :
  ArgumentFiller.findMethodCallContext (str "foo(bar(1,2), baz())") 18
  = Some {| ArgumentFiller.methodName := str "baz";
            ArgumentFiller.isConstructor := false;
            ArgumentFiller.openParenOffset := 17;
            ArgumentFiller.closeParenOffset := 18;
            ArgumentFiller.argumentsStart := 18;
            ArgumentFiller.argumentsLength := 0;
            ArgumentFiller.existingArguments := [] |}
  /\ CallSiteLocator.innermostOpen (str "foo(bar(1,2), baz())") 18 17
  /\ CallSiteLocator.matchingClose (str "foo(bar(1,2), baz())") 17 18.
Proof.
  split; [reflexivity|].
  exact (proj1 findMethodCallContext_balanced_scan
           (str "foo(bar(1,2), baz())") 18 _ eq_refl).
Defined.

(** "foo(1, 2)" without the Java extension. *)
Lemma existing_arguments_kept_only_without_adapter_witness :
  ArgumentFiller.findMethodCallContext
    (getText (ParameterResolver.singleLine (str "foo(1, 2)")))
    (offsetAt (ParameterResolver.singleLine (str "foo(1, 2)"))
       {| line := 0; character := 4 |})
  = Some {| ArgumentFiller.methodName := str "foo";
            ArgumentFiller.isConstructor := false;
            ArgumentFiller.openParenOffset := 3;
            ArgumentFiller.closeParenOffset := 8;
            ArgumentFiller.argumentsStart := 4;
            ArgumentFiller.argumentsLength := 4;
            ArgumentFiller.existingArguments := str "1, 2" |}
  /\ str "1, 2" <> []
  /\ ParameterResolver.noAdapterData ParameterResolver.noJavaExtension
       (ParameterResolver.singleLine (str "foo(1, 2)"))
       {| line := 0; character := 4 |}
  /\ ArgumentFiller.fillArguments ParameterResolver.unchanged
       ParameterResolver.typeNamesOnly ParameterResolver.noJavaExtension
       (ParameterResolver.singleLine (str "foo(1, 2)"))
       {| line := 0; character := 4 |}
     = Returned None.
Proof.
  split; [reflexivity|].
  split; [discriminate|].
  split; [left; reflexivity|].
  refine (proj1 existing_arguments_kept_only_without_adapter
            ParameterResolver.unchanged ParameterResolver.typeNamesOnly
            ParameterResolver.noJavaExtension
            (ParameterResolver.singleLine (str "foo(1, 2)"))
            {| line := 0; character := 4 |} _ eq_refl _ _).
  - discriminate.
  - left. reflexivity.
Defined.

(** "x.equals()" on the heuristic path. *)
Lemma heuristic_path_resolution_witness :
  ParameterResolver.heuristicPath ParameterResolver.noJavaExtension
    (ParameterResolver.singleLine (str "x.equals()"))
    {| line := 0; character := 9 |}
    {| ArgumentFiller.methodName := str "equals";
       ArgumentFiller.isConstructor := false;
       ArgumentFiller.openParenOffset := 8;
       ArgumentFiller.closeParenOffset := 9;
       ArgumentFiller.argumentsStart := 9;
       ArgumentFiller.argumentsLength := 0;
       ArgumentFiller.existingArguments := [] |}
  /\ ArgumentFiller.fillArguments ParameterResolver.unchanged
       ParameterResolver.typeNamesOnly ParameterResolver.noJavaExtension
       (ParameterResolver.singleLine (str "x.equals()"))
       {| line := 0; character := 9 |}
     = Returned (Some {| arguments := str "object";
                         replaceStart := 9;
                         replaceLength := 0 |}).
Proof.
  assert (H : ParameterResolver.heuristicPath
                ParameterResolver.noJavaExtension
                (ParameterResolver.singleLine (str "x.equals()"))
                {| line := 0; character := 9 |}
                {| ArgumentFiller.methodName := str "equals";
                   ArgumentFiller.isConstructor := false;
                   ArgumentFiller.openParenOffset := 8;
                   ArgumentFiller.closeParenOffset := 9;
                   ArgumentFiller.argumentsStart := 9;
                   ArgumentFiller.argumentsLength := 0;
                   ArgumentFiller.existingArguments := [] |}).
  { split; [reflexivity|split; [reflexivity|left; reflexivity]]. }
  split; [exact H|].
  exact (proj2 (proj1 (proj2 heuristic_path_resolution)
                  ParameterResolver.unchanged ParameterResolver.typeNamesOnly
                  _ _ _ _ [str "obj"] H eq_refl eq_refl eq_refl)).
Defined.

(** "x.setTitle()" on the heuristic path. *)
Lemma setter_heuristic_witness :
  ParameterResolver.heuristicPath ParameterResolver.noJavaExtension
    (ParameterResolver.singleLine (str "x.setTitle()"))
    {| line := 0; character := 11 |}
    {| ArgumentFiller.methodName := str "setTitle";
       ArgumentFiller.isConstructor := false;
       ArgumentFiller.openParenOffset := 10;
       ArgumentFiller.closeParenOffset := 11;
       ArgumentFiller.argumentsStart := 11;
       ArgumentFiller.argumentsLength := 0;
       ArgumentFiller.existingArguments := [] |}
  /\ ArgumentFiller.fillArguments ParameterResolver.unchanged
       ParameterResolver.allTrue ParameterResolver.noJavaExtension
       (ParameterResolver.singleLine (str "x.setTitle()"))
       {| line := 0; character := 11 |}
     = Returned (Some {| arguments := str "title";
                         replaceStart := 11;
                         replaceLength := 0 |}).
Proof.
  assert (H : ParameterResolver.heuristicPath
                ParameterResolver.noJavaExtension
                (ParameterResolver.singleLine (str "x.setTitle()"))
                {| line := 0; character := 11 |}
                {| ArgumentFiller.methodName := str "setTitle";
                   ArgumentFiller.isConstructor := false;
                   ArgumentFiller.openParenOffset := 10;
                   ArgumentFiller.closeParenOffset := 11;
                   ArgumentFiller.argumentsStart := 11;
                   ArgumentFiller.argumentsLength := 0;
                   ArgumentFiller.existingArguments := [] |}).
  { split; [reflexivity|split; [reflexivity|left; reflexivity]]. }
  split; [exact H|].
  exact (proj2 (proj1 (proj2 setter_heuristic)
                  ParameterResolver.unchanged ParameterResolver.allTrue
                  _ _ _ _ (ch "T") (str "itle") H eq_refl eq_refl)).
Defined.

(** Completion for "x.equals()" without the Java extension. *)
Lemma completion_without_heuristics_witness :
  lineAt (ParameterResolver.singleLine (str "x.equals()")) 0
  = Returned (str "x.equals()")
  /\ ParameterResolver.noAdapterData ParameterResolver.noJavaExtension
       (ParameterResolver.singleLine (str "x.equals()"))
       {| line := 0; character := 9 |}
  /\ ArgumentCompletionProvider.provideCompletionItems
       ParameterResolver.allTrue ParameterResolver.noJavaExtension
       (ParameterResolver.singleLine (str "x.equals()"))
       {| line := 0; character := 9 |}
     = Returned None.
Proof.
  split; [reflexivity|].
  split; [left; reflexivity|].
  exact (proj1 (proj2 (proj2 completion_without_heuristics))
           ParameterResolver.allTrue ParameterResolver.noJavaExtension
           (ParameterResolver.singleLine (str "x.equals()"))
           {| line := 0; character := 9 |} (str "x.equals()")
           eq_refl (or_introl eq_refl)).
Defined.

(** The call site of "f( a )". *)
Lemma call_site_invariants_witness :
  ArgumentFiller.findMethodCallContext (str "f( a )") 2
  = Some {| ArgumentFiller.methodName := str "f";
            ArgumentFiller.isConstructor := false;
            ArgumentFiller.openParenOffset := 1;
            ArgumentFiller.closeParenOffset := 5;
            ArgumentFiller.argumentsStart := 2;
            ArgumentFiller.argumentsLength := 3;
            ArgumentFiller.existingArguments := str "a" |}
  /\ 1 < 5
  /\ str "a" = trim (CallSiteLocator.segment (str "f( a )") 2 5).
Proof.
  split; [reflexivity|].
  pose proof (proj1 call_site_invariants (str "f( a )") 2 _ eq_refl) as H.
  split; [exact (proj1 H)|].
  exact (proj2 (proj2 (proj2 (proj2 (proj2 (proj2 (proj2 H))))))).
Defined.

(** The parameters of the signature help of [m(int a, String b)]. *)
Lemma parameter_label_parsing_witness :
  SignatureQuery.getParameters
    (ParameterResolver.javaExtensionWith ParameterResolver.helpIntString)
    (ParameterResolver.singleLine (str "m()"))
    {| line := 0; character := 2 |}
  = Some [ {| name := str "a"; type := str "int"; index := 0 |};
           {| name := str "b"; type := str "String"; index := 1 |} ].
Proof.
  exact (proj1 (proj2 (proj2 parameter_label_parsing))
           (ParameterResolver.javaExtensionWith
              ParameterResolver.helpIntString)
           (ParameterResolver.singleLine (str "m()"))
           {| line := 0; character := 2 |}
           ParameterResolver.helpIntString _ _ _
           eq_refl eq_refl eq_refl).
Defined.

(** The cursor on the second line of a call that opens on the first. *)
Lemma completion_confined_to_cursor_line_witness :
  lineAt CompletionSurface.twoLines 1 = Returned (str "    b)")
  /\ CallSiteLocator.innermostOpen (getText CompletionSurface.twoLines)
       (offsetAt CompletionSurface.twoLines {| line := 1; character := 4 |})
       3
  /\ 3 < lineStart (lines CompletionSurface.twoLines)
           (eol CompletionSurface.twoLines) 1
  /\ ArgumentCompletionProvider.provideCompletionItems
       ParameterResolver.allTrue
       (ParameterResolver.javaExtensionWith ParameterResolver.helpIntString)
       CompletionSurface.twoLines {| line := 1; character := 4 |}
     = Returned None.
Proof.
  assert (H : CallSiteLocator.innermostOpen
                (getText CompletionSurface.twoLines)
                (offsetAt CompletionSurface.twoLines
                   {| line := 1; character := 4 |}) 3).
  { exact (CallSiteLocatorFacts.scanOpenParen_start
             (getText CompletionSurface.twoLines) 11). }
  split; [reflexivity|].
  split; [exact H|].
  split; [simpl; lia|].
  refine (proj1 completion_confined_to_cursor_line
            ParameterResolver.allTrue
            (ParameterResolver.javaExtensionWith
               ParameterResolver.helpIntString)
            CompletionSurface.twoLines {| line := 1; character := 4 |}
            (str "    b)") 3 eq_refl H _).
  simpl. lia.
Defined.

(** * Further properties of the program *)

(** ** The located call site and the cursor *)

Module LocatorFacts.

Import ArgumentFiller CallSiteLocator.

Lemma unclosed_app (x y : jsstring) :
  unclosed (x ++ y) = (unclosed x + unclosed y)%Z.
Proof.
  unfold unclosed, occurrences. rewrite !count_occ_app. lia.
Qed.

Lemma segment_split (text : jsstring) (a b c : nat) :
  a <= b <= c ->
  segment text a c = segment text a b ++ segment text b c.
Proof.
  intros H. unfold segment.
  rewrite <- (firstn_skipn b (firstn c text)) at 1.
  rewrite firstn_firstn, Nat.min_l by lia.
  rewrite skipn_app. f_equal.
  rewrite length_firstn.
  destruct (Nat.le_ge_cases b (length text)) as [Hb|Hb].
  - rewrite Nat.min_l by lia. now replace (a - b) with 0 by lia.
  - rewrite (skipn_all2 (n := b)) by (rewrite length_firstn; lia).
    now rewrite skipn_nil.
Qed.

Lemma unclosed_split (text : jsstring) (a b c : nat) :
  a <= b <= c ->
  unclosed (segment text a c)
  = (unclosed (segment text a b) + unclosed (segment text b c))%Z.
Proof.
  intros H. now rewrite (segment_split text a b c H), unclosed_app.
Qed.

Lemma segment_snoc (text : jsstring) (a q : nat) (c : Z) :
  a <= q -> at_ text q = Some c ->
  unclosed (segment text a (S q))
  = (unclosed (segment text a q) + CallSiteLocator.delta c)%Z.
Proof.
  intros Ha Hq. rewrite (unclosed_split text a q (S q)) by lia.
  rewrite (CallSiteLocatorFacts.segment_cons text q (S q) c Hq) by lia.
  rewrite CallSiteLocatorFacts.segment_empty,
    CallSiteLocatorFacts.unclosed_cons, CallSiteLocatorFacts.unclosed_nil.
  lia.
Qed.

(** The text between a ['('] and the [')'] that closes it is balanced,
    and so is every end of it. *)
Lemma matchingClose_inner (text : jsstring) (p q : nat) :
  at_ text p = Some (ch "(") ->
  matchingClose text p q ->
  innermostOpen text q p.
Proof.
  intros Hp (Hlt & Hq & Hzero & Hall).
  assert (Hone : unclosed (segment text p q) = 1%Z).
  { rewrite (segment_snoc text p q _ ltac:(lia) Hq) in Hzero.
    change (CallSiteLocator.delta (ch ")")) with (-1)%Z in Hzero. lia. }
  repeat split; try assumption.
  intros j Hj.
  rewrite (unclosed_split text p j q) in Hone by lia.
  specialize (Hall (j - 1) ltac:(lia)).
  replace (S (j - 1)) with j in Hall by lia. lia.
Qed.

(** The open parenthesis decides the context. *)
Lemma findMethodCallContext_of_open (text : jsstring) (o o' p : nat) :
  scanOpenParen text (S (scanStart o)) 0 = Some p ->
  scanOpenParen text (S (scanStart o')) 0 = Some p ->
  findMethodCallContext text o' = findMethodCallContext text o.
Proof.
  intros H H'. unfold findMethodCallContext.
  replace (if 0 <? o then o - 1 else 0) with (scanStart o)
    by (unfold scanStart; destruct (Nat.ltb_spec 0 o); lia).
  replace (if 0 <? o' then o' - 1 else 0) with (scanStart o')
    by (unfold scanStart; destruct (Nat.ltb_spec 0 o'); lia).
  now rewrite H, H'.
Qed.

Lemma scanOpenParen_found (text : jsstring) (e p : nat) :
  innermostOpen text e p -> scanOpenParen text e 0 = Some p.
Proof.
  intros Hin.
  pose proof (CallSiteLocatorFacts.scanOpenParen_start text e) as H.
  destruct (scanOpenParen text e 0) as [p'|].
  - f_equal. exact (CallSiteLocatorFacts.innermostOpen_unique _ _ _ _ H Hin).
  - destruct Hin as (_ & Hlt & Hone & _). specialize (H p Hlt). lia.
Qed.

End LocatorFacts.

(** The parentheses of a located call site enclose the cursor: the ['(']
    lies before the cursor and the [')'] at or after it (for a cursor at
    offset 0 the scan starts on the first character, and the bounds are
    those of offset 1). So the span that a fill result replaces contains
    the cursor or ends at it. *)
Theorem located_call_site_encloses_cursor (text : jsstring) (offset : nat)
    (ctx : ArgumentFiller.MethodCallContext) :
  ArgumentFiller.findMethodCallContext text offset = Some ctx ->
  ArgumentFiller.openParenOffset ctx < Nat.max offset 1
  /\ Nat.max offset 1 <= ArgumentFiller.closeParenOffset ctx
  /\ ArgumentFiller.argumentsStart ctx <= Nat.max offset 1
  /\ Nat.max offset 1
     <= ArgumentFiller.argumentsStart ctx + ArgumentFiller.argumentsLength ctx.
Proof.
  intros Hf.
  pose proof (FillFacts.findMethodCallContext_invariants _ _ _ Hf)
    as (Hlt & _ & Hop & Hcl & Hs & _ & Hsum & _).
  apply CallSiteLocatorFacts.findMethodCallContext_located in Hf.
  destruct Hf as ((_ & Hpe & Hone & Hall) & (_ & _ & Hzero & _)).
  replace (S (CallSiteLocator.scanStart offset)) with (Nat.max offset 1)
    in * by (unfold CallSiteLocator.scanStart; lia).
  set (e := Nat.max offset 1) in *.
  set (p := ArgumentFiller.openParenOffset ctx) in *.
  set (q := ArgumentFiller.closeParenOffset ctx) in *.
  assert (Hq : e <= q).
  { destruct (Nat.le_gt_cases e q) as [|Hgt]; [assumption|exfalso].
    rewrite (LocatorFacts.unclosed_split text p (S q) e) in Hone by lia.
    destruct (Nat.eq_dec (S q) e) as [E|E].
    - rewrite <- E, CallSiteLocatorFacts.segment_empty,
        CallSiteLocatorFacts.unclosed_nil in Hone. lia.
    - specialize (Hall (S q) ltac:(lia)). lia. }
  lia.
Qed.

Lemma located_call_site_encloses_cursor_witness :
  ArgumentFiller.findMethodCallContext (str "foo(bar(1,2), baz())") 13
  = Some {| ArgumentFiller.methodName := str "foo";
            ArgumentFiller.isConstructor := false;
            ArgumentFiller.openParenOffset := 3;
            ArgumentFiller.closeParenOffset := 19;
            ArgumentFiller.argumentsStart := 4;
            ArgumentFiller.argumentsLength := 15;
            ArgumentFiller.existingArguments := str "bar(1,2), baz()" |}
  /\ 3 < 13 /\ 13 <= 19 /\ 4 <= 13 /\ 13 <= 4 + 15.
Proof.
  split; [reflexivity|].
  exact (located_call_site_encloses_cursor
           (str "foo(bar(1,2), baz())") 13 _ eq_refl).
Defined.

(** Moving the cursor to just after the ['('] of a located call site, or
    to just before its [')'], locates the same call site. *)
Theorem located_call_site_at_its_ends (text : jsstring) (offset : nat)
    (ctx : ArgumentFiller.MethodCallContext) :
  ArgumentFiller.findMethodCallContext text offset = Some ctx ->
  ArgumentFiller.findMethodCallContext text
    (ArgumentFiller.openParenOffset ctx + 1) = Some ctx
  /\ ArgumentFiller.findMethodCallContext text
       (ArgumentFiller.closeParenOffset ctx) = Some ctx.
Proof.
  intros Hf.
  pose proof (FillFacts.findMethodCallContext_invariants _ _ _ Hf)
    as (Hlt & _ & Hop & _).
  pose proof (CallSiteLocatorFacts.findMethodCallContext_located _ _ _ Hf)
    as (Hin & Hclose).
  pose proof (CallSiteLocatorFacts.findMethodCallContext_some _ _ _ Hf)
    as (Hscan & _).
  set (p := ArgumentFiller.openParenOffset ctx) in *.
  set (q := ArgumentFiller.closeParenOffset ctx) in *.
  split; rewrite <- Hf;
    apply (LocatorFacts.findMethodCallContext_of_open text offset _ p Hscan).
  - replace (S (CallSiteLocator.scanStart (p + 1))) with (S p)
      by (unfold CallSiteLocator.scanStart; lia).
    apply LocatorFacts.scanOpenParen_found.
    repeat split; [exact Hop|lia| |intros j Hj; lia].
    now apply CallSiteLocatorFacts.segment_open.
  - replace (S (CallSiteLocator.scanStart q)) with q
      by (unfold CallSiteLocator.scanStart; lia).
    apply LocatorFacts.scanOpenParen_found.
    now apply LocatorFacts.matchingClose_inner.
Qed.

Lemma located_call_site_at_its_ends_witness :
  ArgumentFiller.findMethodCallContext (str "foo(bar(1,2), baz())") 13
  = Some {| ArgumentFiller.methodName := str "foo";
            ArgumentFiller.isConstructor := false;
            ArgumentFiller.openParenOffset := 3;
            ArgumentFiller.closeParenOffset := 19;
            ArgumentFiller.argumentsStart := 4;
            ArgumentFiller.argumentsLength := 15;
            ArgumentFiller.existingArguments := str "bar(1,2), baz()" |}
  /\ ArgumentFiller.findMethodCallContext (str "foo(bar(1,2), baz())") 4
     = ArgumentFiller.findMethodCallContext (str "foo(bar(1,2), baz())") 13
  /\ ArgumentFiller.findMethodCallContext (str "foo(bar(1,2), baz())") 19
     = ArgumentFiller.findMethodCallContext (str "foo(bar(1,2), baz())") 13.
Proof.
  split; [reflexivity|].
  pose proof (located_call_site_at_its_ends
                (str "foo(bar(1,2), baz())") 13 _ eq_refl) as H.
  exact H.
Defined.

(** ** What the fill operation returns and when it throws *)

Module OutcomeFacts.

Import ArgumentFiller CallSiteLocator ParameterResolver.

Lemma streq_true_iff (s t : jsstring) : streq s t = true <-> s = t.
Proof.
  unfold streq. destruct (list_eq_dec Z.eq_dec s t); split;
    congruence.
Qed.

(** The names that objects inherit are neither setters nor keys of the
    table. *)
Lemma inherited_names (callee : jsstring) :
  In callee objectPrototype ->
  isSetter callee = false /\ getProperty callee = Inherited.
Proof.
  unfold objectPrototype. simpl.
  intros H.
  repeat (destruct H as [<-|H]; [split; reflexivity|]).
  contradiction.
Qed.

Lemma getProperty_inherited (callee : jsstring) :
  getProperty callee = Inherited -> In callee objectPrototype.
Proof.
  unfold getProperty.
  destruct (ownProperty knownPatterns callee); [discriminate|].
  destruct (existsb (fun k => streq k callee) objectPrototype) eqn:E;
    [|discriminate].
  intros _. apply existsb_exists in E. destruct E as (k & Hin & Hk).
  apply streq_true_iff in Hk. now subst.
Qed.

(** The heuristics throw for the inherited names and for nothing else. *)
Lemma generatePlaceholderParameters_throws (lcm : Z -> Z * jsstring)
    (callee : jsstring) (isC : bool) (e : JsError) :
  generatePlaceholderParameters lcm callee isC = Thrown e
  <-> e = TypeError /\ In callee objectPrototype.
Proof.
  split.
  - unfold generatePlaceholderParameters.
    destruct (startsWith callee (str "set") && (3 <? length callee));
      [discriminate|].
    destruct (getProperty callee) eqn:E; try discriminate.
    intros [= <-]. split; [reflexivity|].
    now apply getProperty_inherited.
  - intros (-> & Hin). destruct (inherited_names callee Hin) as (Hs & Hg).
    rewrite (HeuristicFacts.generatePlaceholderParameters_table _ _ _ Hs).
    now rewrite Hg.
Qed.

(** Where the parameters of a fill result come from. *)
Lemma fillArguments_cases (lcm : Z -> Z * jsstring)
    (options : AutofillOptions) (h : Host) (document : TextDocument)
    (position : Position) :
  match findMethodCallContext (getText document)
          (offsetAt document position) with
  | None =>
      fillArguments lcm options h document position = Returned None
  | Some ctx =>
      (exists p ps,
          redhatJava h = true
          /\ SignatureQuery.getParameters h document position
             = Some (p :: ps)
          /\ fillArguments lcm options h document position
             = Returned
                 (Some {| arguments :=
                            generateArgumentString lcm options (p :: ps);
                          replaceStart := argumentsStart ctx;
                          replaceLength := argumentsLength ctx |}))
      \/ (noAdapterData h document position
          /\ existingArguments ctx <> []
          /\ fillArguments lcm options h document position = Returned None)
      \/ (heuristicPath h document position ctx
          /\ fillArguments lcm options h document position
             = if fallbackToTypeName options then
                 ps <- generatePlaceholderParameters lcm (methodName ctx)
                         (isConstructor ctx) ;;
                 match ps with
                 | [] => Returned None
                 | _ :: _ =>
                     Returned
                       (Some {| arguments :=
                                  generateArgumentString lcm options ps;
                                replaceStart := argumentsStart ctx;
                                replaceLength := argumentsLength ctx |})
                 end
               else Returned None)
  end.
Proof.
  destruct (findMethodCallContext (getText document)
              (offsetAt document position)) as [ctx|] eqn:Hf.
  - assert (Hcases :
      (exists p ps, redhatJava h = true
                    /\ SignatureQuery.getParameters h document position
                       = Some (p :: ps))
      \/ noAdapterData h document position).
    { unfold noAdapterData. destruct (redhatJava h); [|now right; left].
      destruct (SignatureQuery.getParameters h document position)
        as [[|p ps]|] eqn:E.
      - exfalso. revert E.
        unfold SignatureQuery.getParameters, SignatureQuery.query.
        destruct (executeSignatureHelpProvider h document position)
          as [|[help|]]; try discriminate.
        destruct (length (signatures help) =? 0); [discriminate|].
        destruct (nth_error (signatures help) (activeSignature help))
          as [sig|]; [|discriminate].
        destruct (sig_parameters sig) as [[|l ls]|]; discriminate.
      - left. now exists p, ps.
      - right. now right. }
    destruct Hcases as [(p & ps & Hj & Hq)|Hno].
    + left. exists p, ps. repeat split; try assumption.
      now apply FillFacts.fillArguments_adapter.
    + right.
      destruct (existingArguments ctx) as [|c r] eqn:He.
      * right. assert (Hp : heuristicPath h document position ctx)
          by (repeat split; assumption).
        split; [exact Hp|].
        now apply HeuristicFacts.fillArguments_heuristic.
      * left. split; [exact Hno|]. split; [discriminate|].
        rewrite (FillFacts.fillArguments_fallback _ _ _ _ _ _ Hf Hno).
        rewrite (FillFacts.parseParametersFromContext_existing
                   _ _ _ _ _ Hf); [reflexivity|].
        rewrite He. discriminate.
  - unfold fillArguments. now rewrite Hf.
Qed.

End OutcomeFacts.

(** The fill operation throws in one case only: the call site is
    resolved by the heuristics, [fallbackToTypeName] is on, and the callee
    is the name of a property that every object inherits (toString,
    valueOf, constructor, ...), which the lookup in the table finds. The
    error is then a TypeError. A failure of the symbol source never makes
    it throw. *)
Theorem fillArguments_throws_iff (lcm : Z -> Z * jsstring)
    (options : AutofillOptions) (h : Host) (document : TextDocument)
    (position : Position) (e : JsError) :
  ArgumentFiller.fillArguments lcm options h document position = Thrown e
  <-> e = TypeError
      /\ fallbackToTypeName options = true
      /\ exists ctx,
           ParameterResolver.heuristicPath h document position ctx
           /\ In (ArgumentFiller.methodName ctx)
                ArgumentFiller.objectPrototype.
Proof.
  pose proof (OutcomeFacts.fillArguments_cases lcm options h document
                position) as H.
  split.
  - intros Ht.
    destruct (ArgumentFiller.findMethodCallContext (getText document)
                (offsetAt document position)) as [ctx|];
      [|congruence].
    destruct H as [(p & ps & _ & _ & Hr)|[(_ & _ & Hr)|(Hp & Hr)]];
      try congruence.
    rewrite Ht in Hr.
    destruct (fallbackToTypeName options); [|discriminate].
    destruct (ArgumentFiller.generatePlaceholderParameters lcm
                (ArgumentFiller.methodName ctx)
                (ArgumentFiller.isConstructor ctx)) as [ps|e'] eqn:Eg.
    + destruct ps; discriminate.
    + injection Hr as ->.
      apply OutcomeFacts.generatePlaceholderParameters_throws in Eg.
      destruct Eg as (-> & Hin).
      repeat split. now exists ctx.
  - intros (-> & Hfb & ctx & Hp & Hin).
    rewrite (HeuristicFacts.fillArguments_heuristic _ _ _ _ _ _ Hp), Hfb.
    now rewrite (proj2 (OutcomeFacts.generatePlaceholderParameters_throws
                          lcm _ _ TypeError) (conj eq_refl Hin)).
Qed.

(** ** The parameters of the symbol source *)

Module AdapterFacts.

Import SignatureQuery SymbolSourceAdapter TextShape.

Lemma getParameters_some (h : Host) (d : TextDocument) (pos : Position)
    (ps : list MethodParameter) :
  getParameters h d pos = Some ps ->
  exists help sig l ls,
    executeSignatureHelpProvider h d pos = Resolved (Some help)
    /\ nth_error (signatures help) (activeSignature help) = Some sig
    /\ sig_parameters sig = Some (l :: ls)
    /\ ps = mapi (toMethodParameter (sig_label sig)) (l :: ls).
Proof.
  unfold getParameters, query.
  destruct (executeSignatureHelpProvider h d pos) as [|[help|]];
    try discriminate.
  destruct (length (signatures help) =? 0); [discriminate|].
  destruct (nth_error (signatures help) (activeSignature help))
    as [sig|] eqn:En; [|discriminate].
  destruct (sig_parameters sig) as [[|l ls]|] eqn:Ep; try discriminate.
  intros [= <-]. now exists help, sig, l, ls.
Qed.

Lemma nth_error_mapiFrom {A B : Type} (f : A -> nat -> B) (xs : list A) :
  forall (i0 i : nat) (q : B),
    nth_error (mapiFrom f i0 xs) i = Some q ->
    exists x, nth_error xs i = Some x /\ q = f x (i0 + i).
Proof.
  induction xs as [|x r IH]; intros i0 i q H.
  - destruct i; discriminate.
  - destruct i as [|i]; simpl in H.
    + injection H as <-. exists x. split; [reflexivity|].
      now rewrite Nat.add_0_r.
    + destruct (IH (S i0) i q H) as (y & Hy & ->).
      exists y. split; [exact Hy|]. f_equal. lia.
Qed.

Lemma tokensFrom_clean (s cur : jsstring) :
  hasNoWhiteSpace cur ->
  Forall hasNoWhiteSpace (tokensFrom cur s).
Proof.
  revert cur. induction s as [|c r IH]; intros cur Hc; simpl.
  - destruct cur; constructor; [|constructor].
    now apply Forall_rev.
  - destruct (isWhiteSpace c) eqn:W.
    + destruct cur.
      * apply IH. constructor.
      * constructor; [now apply Forall_rev|]. apply IH. constructor.
    + apply IH. now constructor.
Qed.

Lemma digits_clean (u : Decimal.uint) : hasNoWhiteSpace (digits u).
Proof.
  induction u; simpl; constructor; try assumption; reflexivity.
Qed.

Lemma digits_identifier (u : Decimal.uint) : isIdentifier (digits u).
Proof.
  induction u; simpl; constructor; try assumption; reflexivity.
Qed.

(** The parameter read off a label. *)
Lemma parameterOfLabel_well_formed (label : jsstring) (i : nat) :
  index (parameterOfLabel label i) = i
  /\ name (parameterOfLabel label i) <> []
  /\ hasNoWhiteSpace (name (parameterOfLabel label i))
  /\ type (parameterOfLabel label i) <> [].
Proof.
  unfold parameterOfLabel.
  pose proof (SymbolSourceAdapterFacts.tokensFrom_nonEmpty label []) as NE.
  pose proof (tokensFrom_clean label [] ltac:(constructor)) as CL.
  fold (tokens label) in NE, CL.
  apply Forall_rev in NE. apply Forall_rev in CL.
  assert (NE' : Forall (fun t : jsstring => t <> [])
                  (@rev jsstring (tokens label))) by exact NE.
  clear NE. revert NE' CL.
  destruct (rev (tokens label)) as [|t before]; intros NE CL.
  - simpl. split; [reflexivity|]. split; [discriminate|].
    split; [|discriminate].
    repeat (constructor; [reflexivity|]). apply digits_clean.
  - inversion NE as [|? ? Ht NEb]; subst.
    inversion CL as [|? ? Hc _]; subst.
    destruct before as [|b before'].
    + simpl. split; [reflexivity|]. split; [assumption|].
      split; [assumption|discriminate].
    + cbn [name type index]. split; [reflexivity|]. split; [assumption|].
      split; [assumption|].
      apply Forall_rev in NEb.
      destruct (rev (b :: before')) as [|p rest] eqn:E.
      * apply (f_equal (@length jsstring)) in E.
        rewrite length_rev in E. discriminate.
      * apply SymbolSourceAdapterFacts.join_nonEmpty.
        now inversion NEb.
Qed.

End AdapterFacts.

(** The parameters that the query of the signature help returns are never
    an empty list; each has the index of its position, a name that is not
    empty and has no white space, and a type that is not empty. A query
    that is rejected, that answers no signature or an active signature
    that does not exist, or a signature without parameters, gives no
    list. *)
Theorem adapter_parameters_well_formed (h : Host) (d : TextDocument)
    (pos : Position) (ps : list MethodParameter) :
  SignatureQuery.getParameters h d pos = Some ps ->
  ps <> []
  /\ (exists help sig labels,
        executeSignatureHelpProvider h d pos = Resolved (Some help)
        /\ nth_error (signatures help) (activeSignature help) = Some sig
        /\ sig_parameters sig = Some labels
        /\ length ps = length labels)
  /\ forall i q,
       nth_error ps i = Some q ->
       index q = i
       /\ name q <> []
       /\ TextShape.hasNoWhiteSpace (name q)
       /\ type q <> [].
Proof.
  intros H. apply AdapterFacts.getParameters_some in H.
  destruct H as (help & sig & l & ls & Hr & Hn & Hp & ->).
  split; [discriminate|]. split.
  - exists help, sig, (l :: ls). repeat split; try assumption.
    unfold mapi. generalize 0. generalize (l :: ls) as xs. clear.
    induction xs as [|x r IH]; intros i; simpl; [reflexivity|].
    now rewrite IH.
  - intros i q Hq. unfold mapi in Hq.
    apply AdapterFacts.nth_error_mapiFrom in Hq.
    destruct Hq as (x & _ & ->). simpl.
    rewrite SymbolSourceAdapterFacts.toMethodParameter_tokens.
    apply AdapterFacts.parameterOfLabel_well_formed.
Qed.

Lemma adapter_parameters_well_formed_witness :
  SignatureQuery.getParameters
    (ParameterResolver.javaExtensionWith ParameterResolver.helpIntString)
    (ParameterResolver.singleLine (str "m()"))
    {| line := 0; character := 2 |}
  = Some [ {| name := str "a"; type := str "int"; index := 0 |};
           {| name := str "b"; type := str "String"; index := 1 |} ]
  /\ [ {| name := str "a"; type := str "int"; index := 0 |};
       {| name := str "b"; type := str "String"; index := 1 |} ] <> [].
Proof.
  split; [reflexivity|].
  exact (proj1 (adapter_parameters_well_formed
                  (ParameterResolver.javaExtensionWith
                     ParameterResolver.helpIntString)
                  (ParameterResolver.singleLine (str "m()"))
                  {| line := 0; character := 2 |} _ eq_refl)).
Defined.

(** ** The text of a fill result *)

Module FillTextFacts.

Import ArgumentFiller CallSiteLocator ParameterResolver TextShape.

Lemma typeDerivedName_nonEmpty (lcm : Z -> Z * jsstring)
    (p : MethodParameter) : typeDerivedName lcm p <> [].
Proof.
  rewrite ArgumentTextSynthesizerFacts.typeDerivedName_typeIdentifier.
  unfold ArgumentTextSynthesizer.typeIdentifier.
  destruct (ArgumentTextSynthesizer.lowerFirst lcm _); discriminate.
Qed.

Lemma generateArgumentString_nonEmpty (lcm : Z -> Z * jsstring)
    (options : AutofillOptions) (p : MethodParameter)
    (ps : list MethodParameter) :
  name p <> [] ->
  generateArgumentString lcm options (p :: ps) <> [].
Proof.
  intros Hn. unfold generateArgumentString.
  destruct (useParameterNames options).
  - cbn [map]. now apply SymbolSourceAdapterFacts.join_nonEmpty.
  - destruct (fallbackToTypeName options).
    + cbn [map]. apply SymbolSourceAdapterFacts.join_nonEmpty.
      apply typeDerivedName_nonEmpty.
    + unfold mapi. cbn [mapiFrom].
      apply SymbolSourceAdapterFacts.join_nonEmpty. discriminate.
Qed.

Lemma knownPatterns_names (callee : jsstring) (names : list jsstring) :
  ownProperty knownPatterns callee = Some names ->
  Forall (fun n => n <> [] /\ isIdentifier n) names.
Proof.
  unfold knownPatterns. cbn [ownProperty].
  repeat match goal with
         | |- context [if ?b then _ else _] => destruct b
         end;
    intros [= <-];
    repeat (apply Forall_cons;
            [split; [discriminate|repeat constructor]|]);
    apply Forall_nil.
Qed.

Lemma objectParameters_forall (P : jsstring -> Prop)
    (names : list jsstring) :
  Forall P names -> Forall (fun p => P (name p)) (objectParameters names).
Proof.
  unfold objectParameters, mapi. generalize 0.
  induction names as [|n r IH]; intros i H; simpl; constructor;
    inversion H; subst; auto.
Qed.

Lemma startsWith_prefix (p s : jsstring) :
  startsWith s p = true -> exists r, s = p ++ r.
Proof.
  revert s. induction p as [|a p IH]; intros s H.
  - now exists s.
  - destruct s as [|b s]; [discriminate|].
    cbn [startsWith] in H. apply andb_true_iff in H.
    destruct H as (Hab & Hp). apply Z.eqb_eq in Hab. subst b.
    destruct (IH s Hp) as (r & ->). now exists r.
Qed.

(** A callee of the form of a setter has a fourth character. *)
Lemma isSetter_shape (callee : jsstring) :
  isSetter callee = true ->
  exists c rest, callee = str "set" ++ c :: rest.
Proof.
  unfold isSetter. intros H. apply andb_true_iff in H.
  destruct H as (Hs & Hl). apply Nat.ltb_lt in Hl.
  destruct (startsWith_prefix _ _ Hs) as (r & ->).
  destruct r as [|c rest]; [simpl in Hl; lia|].
  now exists c, rest.
Qed.

(** The parameters of the heuristics have names that are not empty. *)
Lemma generatePlaceholderParameters_names (lcm : Z -> Z * jsstring)
    (callee : jsstring) (isC : bool) (ps : list MethodParameter) :
  generatePlaceholderParameters lcm callee isC = Returned ps ->
  Forall (fun p => name p <> []) ps.
Proof.
  destruct (isSetter callee) eqn:Es.
  - destruct (isSetter_shape callee Es) as (c & rest & ->).
    rewrite HeuristicFacts.generatePlaceholderParameters_setter.
    intros [= <-]. constructor; [|constructor]. simpl.
    destruct (ArgumentTextSynthesizerFacts.toLowerCaseUnit_cons lcm c)
      as (a & t & ->). discriminate.
  - rewrite (HeuristicFacts.generatePlaceholderParameters_table _ _ _ Es).
    unfold getProperty.
    destruct (ownProperty knownPatterns callee) as [names|] eqn:Eo.
    + intros [= <-].
      apply (objectParameters_forall (fun n => n <> [])).
      eapply Forall_impl; [|exact (knownPatterns_names _ _ Eo)].
      simpl. tauto.
    + destruct (existsb _ _); [discriminate|].
      intros [= <-]. constructor.
Qed.

End FillTextFacts.

(** A fill result never has an empty text: whatever the options, the
    parameters of the symbol source and those of the heuristics give a
    text of one character at least. (The caller's message for a fill
    result whose text is empty is never shown.) *)
Theorem fill_text_never_empty (lcm : Z -> Z * jsstring)
    (options : AutofillOptions) (h : Host) (document : TextDocument)
    (position : Position) (r : ArgumentFillResult) :
  ArgumentFiller.fillArguments lcm options h document position
  = Returned (Some r) ->
  arguments r <> [].
Proof.
  intros Hr.
  pose proof (OutcomeFacts.fillArguments_cases lcm options h document
                position) as H.
  destruct (ArgumentFiller.findMethodCallContext (getText document)
              (offsetAt document position)) as [ctx|]; [|congruence].
  destruct H as [(p & ps & _ & Hq & Hf)|[(_ & _ & Hf)|(_ & Hf)]].
  - rewrite Hf in Hr. injection Hr as <-. simpl.
    apply FillTextFacts.generateArgumentString_nonEmpty.
    apply AdapterFacts.getParameters_some in Hq.
    destruct Hq as (help & sig & l & ls & _ & _ & _ & Hps).
    unfold mapi in Hps. cbn [mapiFrom] in Hps. injection Hps as -> _.
    rewrite SymbolSourceAdapterFacts.toMethodParameter_tokens.
    apply AdapterFacts.parameterOfLabel_well_formed.
  - congruence.
  - rewrite Hf in Hr.
    destruct (fallbackToTypeName options); [|discriminate].
    destruct (ArgumentFiller.generatePlaceholderParameters lcm
                (ArgumentFiller.methodName ctx)
                (ArgumentFiller.isConstructor ctx)) as [ps|] eqn:Eg;
      [|discriminate].
    apply FillTextFacts.generatePlaceholderParameters_names in Eg.
    destruct ps as [|p ps]; [discriminate|].
    simpl in Hr. injection Hr as <-. simpl.
    apply FillTextFacts.generateArgumentString_nonEmpty.
    now inversion Eg.
Qed.

Lemma fill_text_never_empty_witness :
  ArgumentFiller.fillArguments ParameterResolver.unchanged
    ParameterResolver.typeNamesOnly ParameterResolver.noJavaExtension
    (ParameterResolver.singleLine (str "x.put()"))
    {| line := 0; character := 6 |}
  = Returned (Some {| arguments := str "object, object";
                      replaceStart := 6;
                      replaceLength := 0 |})
  /\ str "object, object" <> [].
Proof.
  split; [reflexivity|].
  exact (fill_text_never_empty ParameterResolver.unchanged
           ParameterResolver.typeNamesOnly ParameterResolver.noJavaExtension
           (ParameterResolver.singleLine (str "x.put()"))
           {| line := 0; character := 6 |} _ eq_refl).
Defined.

(** Without parameters from the symbol source, a fill result replaces
    white space only: the text between the parentheses that gives way to
    the arguments is blank. *)
Theorem fallback_replaces_white_space_only (lcm : Z -> Z * jsstring)
    (options : AutofillOptions) (h : Host) (document : TextDocument)
    (position : Position) (r : ArgumentFillResult) :
  ParameterResolver.noAdapterData h document position ->
  ArgumentFiller.fillArguments lcm options h document position
  = Returned (Some r) ->
  isBlank (CallSiteLocator.segment (getText document) (replaceStart r)
             (replaceStart r + replaceLength r)) = true.
Proof.
  intros Hno Hr.
  destruct (FillFacts.fillArguments_span _ _ _ _ _ _ Hr)
    as (ctx & Hf & Hs & Hl).
  pose proof (FillFacts.findMethodCallContext_invariants _ _ _ Hf)
    as (_ & _ & _ & _ & Hst & _ & Hsum & He).
  rewrite Hs, Hl, Hsum. rewrite Hst. apply trim_nil_iff. rewrite <- He.
  destruct (ArgumentFiller.existingArguments ctx) as [|c t] eqn:Ex;
    [reflexivity|exfalso].
  rewrite (FillFacts.fillArguments_fallback _ _ _ _ _ _ Hf Hno) in Hr.
  rewrite (FillFacts.parseParametersFromContext_existing _ _ _ _ _ Hf)
    in Hr; [discriminate|].
  rewrite Ex. discriminate.
Qed.

Lemma fallback_replaces_white_space_only_witness :
  ParameterResolver.noAdapterData ParameterResolver.noJavaExtension
    (ParameterResolver.singleLine (str "x.put(   )"))
    {| line := 0; character := 7 |}
  /\ ArgumentFiller.fillArguments ParameterResolver.unchanged
       ParameterResolver.allTrue ParameterResolver.noJavaExtension
       (ParameterResolver.singleLine (str "x.put(   )"))
       {| line := 0; character := 7 |}
     = Returned (Some {| arguments := str "key, value";
                         replaceStart := 6;
                         replaceLength := 3 |})
  /\ isBlank (CallSiteLocator.segment (str "x.put(   )") 6 9) = true.
Proof.
  split; [left; reflexivity|]. split; [reflexivity|].
  exact (fallback_replaces_white_space_only ParameterResolver.unchanged
           ParameterResolver.allTrue ParameterResolver.noJavaExtension
           (ParameterResolver.singleLine (str "x.put(   )"))
           {| line := 0; character := 7 |} _
           (or_introl eq_refl) eq_refl).
Defined.

(** ** The callee name *)

Module ExtractFacts.

Import ArgumentFiller CallSiteLocator TextShape.

Lemma skipBack_stop (test : option Z -> bool) (text : jsstring) (n : nat) :
  skipBack test text n = 0
  \/ test (at_ text (skipBack test text n - 1)) = false.
Proof.
  induction n as [|i IH]; simpl; [now left|].
  destruct (test (at_ text i)) eqn:E; [exact IH|].
  right. simpl. now rewrite Nat.sub_0_r.
Qed.

Lemma segment_forallb (P : Z -> bool) (text : jsstring) (a b : nat) :
  (forall i, a <= i < b -> i < length text ->
             exists c, at_ text i = Some c /\ P c = true) ->
  forallb P (segment text a b) = true.
Proof.
  intros H. apply forallb_forall. intros c Hin.
  apply In_nth_error in Hin. destruct Hin as (k & Hk).
  unfold segment in Hk. rewrite nth_error_skipn, nth_error_firstn in Hk.
  destruct (Nat.ltb_spec (a + k) b) as [Hlt|]; [|discriminate].
  assert (Hlen : a + k < length text).
  { apply nth_error_Some. congruence. }
  destruct (H (a + k) ltac:(lia) Hlen) as (c' & Hc' & HP).
  unfold at_ in Hc'. congruence.
Qed.

Lemma substring_segment (text : jsstring) (a b : nat) :
  a <= b -> b <= length text ->
  substring text a b = segment text a b.
Proof.
  intros Hab Hb. unfold substring, segment.
  rewrite !Nat.min_l by lia. rewrite Nat.max_r by lia.
  rewrite firstn_skipn_comm. do 2 f_equal. lia.
Qed.

Lemma testWhiteSpace_some (c : option Z) :
  testWhiteSpace c = true -> exists x, c = Some x /\ isWhiteSpace x = true.
Proof. destruct c as [x|]; [|discriminate]. intros H. now exists x. Qed.

Lemma identChar_not_whiteSpace (c : Z) :
  isIdentChar c = true -> isWhiteSpace c = false.
Proof.
  unfold isIdentChar, isWhiteSpace, ch. simpl. intros H.
  repeat rewrite orb_true_iff in H. repeat rewrite andb_true_iff in H.
  repeat rewrite Z.leb_le in H. rewrite Z.eqb_eq in H.
  repeat (apply orb_false_iff; split);
    try (apply andb_false_iff; rewrite !Z.leb_gt; lia);
    apply Z.eqb_neq; lia.
Qed.

(** Going back over a run of characters that pass the test, up to a
    character that does not. *)
Lemma skipBack_over_run (test : option Z -> bool) (a run : jsstring) :
  Forall (fun c => test (Some c) = true) run ->
  (a = [] \/ exists a' x, a = a' ++ [x] /\ test (Some x) = false) ->
  forall b,
    skipBack test (a ++ run ++ b) (length a + length run) = length a.
Proof.
  intros Hrun Hstop.
  induction run as [|c run IH] using rev_ind; intros b.
  - simpl. rewrite Nat.add_0_r.
    destruct Hstop as [->|(a' & x & -> & Hx)]; [reflexivity|].
    rewrite length_app. simpl. rewrite Nat.add_1_r. cbn [skipBack].
    unfold at_. rewrite <- app_assoc. rewrite nth_error_app2 by lia.
    rewrite Nat.sub_diag. simpl. now rewrite Hx.
  - apply Forall_app in Hrun. destruct Hrun as (Hrun & Hc).
    inversion Hc as [|? ? Hc' _]; subst.
    rewrite length_app. simpl.
    replace (length a + (length run + 1)) with (S (length a + length run))
      by lia.
    cbn [skipBack]. unfold at_.
    rewrite nth_error_app2 by lia.
    replace (length a + length run - length a) with (length run) by lia.
    rewrite <- app_assoc. rewrite nth_error_app2 by lia.
    rewrite Nat.sub_diag. simpl. rewrite Hc'.
    apply (IH Hrun).
Qed.

End ExtractFacts.

(** The callee name is the longest run of identifier characters that
    ends where the white space before the ['('] begins; there is no
    callee exactly when that white space begins at the start of the text
    or after a character that is not an identifier character. A call is
    marked as a constructor exactly when the three characters that end
    where the white space before the name begins are "new". *)
Theorem callee_name_is_the_identifier_before_the_paren
    (text : jsstring) (p : nat) :
  p <= length text ->
  exists e,
    e <= p
    /\ isBlank (CallSiteLocator.segment text e p) = true
    /\ (e = 0 \/ Js.testWhiteSpace (at_ text (e - 1)) = false)
    /\ match ArgumentFiller.extractMethodName text p with
       | None => e = 0 \/ Js.testIdentChar (at_ text (e - 1)) = false
       | Some (callee, isC) =>
           exists s b,
             s < e
             /\ callee = CallSiteLocator.segment text s e
             /\ TextShape.isIdentifier callee
             /\ (s = 0 \/ Js.testIdentChar (at_ text (s - 1)) = false)
             /\ b <= s
             /\ isBlank (CallSiteLocator.segment text b s) = true
             /\ (b = 0 \/ Js.testWhiteSpace (at_ text (b - 1)) = false)
             /\ (isC = true
                 <-> 3 <= b
                     /\ CallSiteLocator.segment text (b - 3) b = str "new")
       end.
Proof.
  intros Hp. unfold ArgumentFiller.extractMethodName.
  set (e := ArgumentFiller.skipBack Js.testWhiteSpace text p).
  set (s := ArgumentFiller.skipBack Js.testIdentChar text e).
  set (b := ArgumentFiller.skipBack Js.testWhiteSpace text s).
  pose proof (HeuristicFacts.skipBack_le Js.testWhiteSpace text p) as He.
  pose proof (HeuristicFacts.skipBack_le Js.testIdentChar text e) as Hs.
  pose proof (HeuristicFacts.skipBack_le Js.testWhiteSpace text s) as Hb.
  fold e in He. fold s in Hs. fold b in Hb.
  assert (Hblank : forall lo hi,
            hi <= length text ->
            lo = ArgumentFiller.skipBack Js.testWhiteSpace text hi ->
            isBlank (CallSiteLocator.segment text lo hi) = true).
  { intros lo hi Hhi ->. apply ExtractFacts.segment_forallb.
    intros i Hi _.
    apply ExtractFacts.testWhiteSpace_some.
    now apply (HeuristicFacts.skipBack_run Js.testWhiteSpace text hi). }
  exists e. split; [exact He|]. split; [now apply Hblank|].
  split; [apply ExtractFacts.skipBack_stop|].
  destruct (Nat.eqb_spec s e) as [Heq|Hne].
  - pose proof (ExtractFacts.skipBack_stop Js.testIdentChar text e) as H.
    fold s in H. rewrite Heq in H. exact H.
  - exists s, b.
    split; [lia|].
    split; [apply ExtractFacts.substring_segment; lia|].
    split.
    { rewrite ExtractFacts.substring_segment by lia.
      apply Forall_forall. intros c Hin.
      assert (H : forallb isIdentChar (CallSiteLocator.segment text s e)
                  = true).
      { apply ExtractFacts.segment_forallb. intros i Hi Hlen.
        pose proof (HeuristicFacts.skipBack_run Js.testIdentChar text e i Hi)
          as Hr.
        destruct (at_ text i) as [x|] eqn:Ex.
        - now exists x.
        - apply nth_error_None in Ex. lia. }
      rewrite forallb_forall in H. now apply H. }
    split; [apply ExtractFacts.skipBack_stop|].
    split; [exact Hb|].
    split; [apply Hblank; [lia|reflexivity]|].
    split; [apply ExtractFacts.skipBack_stop|].
    rewrite andb_true_iff, Nat.leb_le, OutcomeFacts.streq_true_iff.
    split; intros (H3 & Hnew); (split; [exact H3|]).
    + rewrite <- Hnew. symmetry.
      apply ExtractFacts.substring_segment; lia.
    + rewrite <- Hnew. apply ExtractFacts.substring_segment; lia.
Qed.

Lemma callee_name_is_the_identifier_before_the_paren_witness :
  8 <= length (str "new Foo (")
  /\ ArgumentFiller.extractMethodName (str "new Foo (") 8
     = Some (str "Foo", true)
  /\ exists e,
       e <= 8
       /\ isBlank (CallSiteLocator.segment (str "new Foo (") e 8) = true.
Proof.
  assert (H : 8 <= length (str "new Foo (")) by (simpl; lia).
  split; [exact H|]. split; [reflexivity|].
  destruct (callee_name_is_the_identifier_before_the_paren
              (str "new Foo (") 8 H) as (e & He & Hb & _).
  exists e. split; [exact He|exact Hb].
Defined.

(** A callee written after "new" and white space is found with its name
    and marked as a constructor, whatever stands before "new" — also the
    end of a longer identifier, as in "renew Foo(". White space between
    the name and the ['('] is passed over. *)
Theorem constructor_call_is_recognised
    (pre gap callee space rest : jsstring) :
  gap <> [] ->
  isBlank gap = true ->
  callee <> [] ->
  TextShape.isIdentifier callee ->
  isBlank space = true ->
  ArgumentFiller.extractMethodName
    (pre ++ str "new" ++ gap ++ callee ++ space ++ rest)
    (length (pre ++ str "new" ++ gap ++ callee ++ space))
  = Some (callee, true).
Proof.
  intros Hgap Hgb Hc Hid Hsb.
  unfold isBlank in *. rewrite forallb_forall in Hgb, Hsb.
  assert (Hlast : forall (l : jsstring), l <> [] ->
                    exists l' x, l = l' ++ [x]).
  { intros l Hl. destruct (exists_last Hl) as (l' & x & ->).
    now exists l', x. }
  destruct (Hlast gap Hgap) as (gap' & g & Eg).
  destruct (Hlast callee Hc) as (callee' & k & Ek).
  assert (Hg : isWhiteSpace g = true).
  { apply Hgb. rewrite Eg. apply in_or_app. right. now left. }
  assert (Hk : isIdentChar k = true).
  { unfold TextShape.isIdentifier in Hid. rewrite Forall_forall in Hid.
    apply Hid. rewrite Ek. apply in_or_app. right. now left. }
  set (text := pre ++ str "new" ++ gap ++ callee ++ space ++ rest).
  set (n1 := length (pre ++ str "new")).
  set (n2 := length ((pre ++ str "new") ++ gap)).
  set (n3 := length (((pre ++ str "new") ++ gap) ++ callee)).
  assert (E3 : ArgumentFiller.skipBack Js.testWhiteSpace text
                 (length (pre ++ str "new" ++ gap ++ callee ++ space)) = n3).
  { unfold text, n3.
    replace (pre ++ str "new" ++ gap ++ callee ++ space ++ rest)
      with ((((pre ++ str "new") ++ gap) ++ callee) ++ space ++ rest)
      by (now rewrite <- !app_assoc).
    replace (length (pre ++ str "new" ++ gap ++ callee ++ space))
      with (length (((pre ++ str "new") ++ gap) ++ callee) + length space)
      by (rewrite !length_app; lia).
    apply ExtractFacts.skipBack_over_run.
    - apply Forall_forall. intros c Hin. simpl. now apply Hsb.
    - right. exists (((pre ++ str "new") ++ gap) ++ callee'), k.
      split; [rewrite Ek; now rewrite <- !app_assoc|].
      simpl. now apply ExtractFacts.identChar_not_whiteSpace. }
  assert (E2 : ArgumentFiller.skipBack Js.testIdentChar text n3 = n2).
  { unfold text, n3, n2.
    replace (pre ++ str "new" ++ gap ++ callee ++ space ++ rest)
      with (((pre ++ str "new") ++ gap) ++ callee ++ space ++ rest)
      by (now rewrite <- !app_assoc).
    rewrite (length_app _ callee).
    apply ExtractFacts.skipBack_over_run.
    - exact Hid.
    - right. exists ((pre ++ str "new") ++ gap'), g.
      split; [rewrite Eg; now rewrite <- !app_assoc|].
      simpl. destruct (isIdentChar g) eqn:Ei; [|reflexivity].
      apply ExtractFacts.identChar_not_whiteSpace in Ei. congruence. }
  assert (E1 : ArgumentFiller.skipBack Js.testWhiteSpace text n2 = n1).
  { unfold text, n2, n1.
    replace (pre ++ str "new" ++ gap ++ callee ++ space ++ rest)
      with ((pre ++ str "new") ++ gap ++ callee ++ space ++ rest)
      by (now rewrite <- !app_assoc).
    rewrite (length_app _ gap).
    apply ExtractFacts.skipBack_over_run.
    - apply Forall_forall. intros c Hin. simpl. now apply Hgb.
    - right. exists (pre ++ str "ne"), (ch "w").
      split; [now rewrite <- !app_assoc|reflexivity]. }
  unfold ArgumentFiller.extractMethodName. fold text.
  rewrite E3, E2, E1.
  assert (Hn12 : n2 = n1 + length gap) by (unfold n1, n2; now rewrite length_app).
  assert (Hn23 : n3 = n2 + length callee)
    by (unfold n2, n3; now rewrite (length_app _ callee)).
  assert (Hn1 : n1 = length pre + 3)
    by (unfold n1; rewrite length_app; reflexivity).
  assert (Hlen : n3 <= length text).
  { unfold text, n3. rewrite !length_app. lia. }
  destruct (Nat.eqb_spec n2 n3) as [Heq|_].
  - destruct callee; [congruence|simpl in Hn23; lia].
  - f_equal. f_equal.
    + rewrite ExtractFacts.substring_segment by lia.
      unfold CallSiteLocator.segment, text, n3, n2.
      replace (pre ++ str "new" ++ gap ++ callee ++ space ++ rest)
        with ((((pre ++ str "new") ++ gap) ++ callee) ++ space ++ rest)
        by (now rewrite <- !app_assoc).
      rewrite firstn_app, Nat.sub_diag, firstn_all. simpl firstn.
      rewrite app_nil_r, skipn_app, Nat.sub_diag, skipn_all. reflexivity.
    + apply andb_true_iff. split; [apply Nat.leb_le; lia|].
      apply OutcomeFacts.streq_true_iff.
      rewrite ExtractFacts.substring_segment by lia.
      unfold CallSiteLocator.segment, text, n1.
      replace (pre ++ str "new" ++ gap ++ callee ++ space ++ rest)
        with ((pre ++ str "new") ++ gap ++ callee ++ space ++ rest)
        by (now rewrite <- !app_assoc).
      rewrite firstn_app, Nat.sub_diag, firstn_all. simpl firstn.
      rewrite app_nil_r, skipn_app.
      replace (length (pre ++ str "new") - 3) with (length pre)
        by (rewrite length_app; simpl; lia).
      rewrite skipn_all.
      replace (length pre - length pre) with 0 by lia. reflexivity.
Qed.

Lemma constructor_call_is_recognised_witness :
  str " " <> []
  /\ isBlank (str " ") = true
  /\ str "Foo" <> []
  /\ TextShape.isIdentifier (str "Foo")
  /\ isBlank [] = true
  /\ ArgumentFiller.extractMethodName (str "x = renew Foo(1)") 13
     = Some (str "Foo", true).
Proof.
  assert (Hid : TextShape.isIdentifier (str "Foo"))
    by (repeat constructor).
  split; [discriminate|]. split; [reflexivity|]. split; [discriminate|].
  split; [exact Hid|]. split; [reflexivity|].
  exact (constructor_call_is_recognised (str "x = re") (str " ") (str "Foo")
           [] (str "(1)") ltac:(discriminate) eq_refl ltac:(discriminate)
           Hid eq_refl).
Defined.

(** ** The start of the replacement range *)

Module RangeFacts.

Import ArgumentCompletionProvider.

Lemma scanArgumentStart_spec (t : jsstring) (n : nat) :
  match scanArgumentStart t n with
  | Some i =>
      i < n
      /\ (at_ t i = Some (ch "(") \/ at_ t i = Some (ch ","))
      /\ forall j, i < j < n ->
                   at_ t j <> Some (ch "(") /\ at_ t j <> Some (ch ",")
  | None =>
      forall j, j < n ->
                at_ t j <> Some (ch "(") /\ at_ t j <> Some (ch ",")
  end.
Proof.
  induction n as [|m IH]; simpl.
  - intros j Hj. lia.
  - assert (Hstep : (at_ t m <> Some (ch "(") /\ at_ t m <> Some (ch ",")) ->
      match scanArgumentStart t m with
      | Some i =>
          i < S m
          /\ (at_ t i = Some (ch "(") \/ at_ t i = Some (ch ","))
          /\ forall j, i < j < S m ->
                       at_ t j <> Some (ch "(") /\ at_ t j <> Some (ch ",")
      | None =>
          forall j, j < S m ->
                    at_ t j <> Some (ch "(") /\ at_ t j <> Some (ch ",")
      end).
    { intros Hm. destruct (scanArgumentStart t m) as [i|].
      - destruct IH as (Hi & Hat & Hall). split; [lia|]. split; [exact Hat|].
        intros j Hj. destruct (Nat.eq_dec j m) as [->|]; [exact Hm|].
        apply Hall. lia.
      - intros j Hj. destruct (Nat.eq_dec j m) as [->|]; [exact Hm|].
        apply IH. lia. }
    destruct (at_ t m) as [c|] eqn:Ec.
    + destruct ((c =? ch "(")%Z || (c =? ch ",")%Z) eqn:E.
      * split; [lia|]. split; [|intros j Hj; lia].
        apply orb_true_iff in E. rewrite !Z.eqb_eq in E.
        rewrite Ec. destruct E as [->| ->]; [now left|now right].
      * apply Hstep. apply orb_false_iff in E. rewrite !Z.eqb_neq in E.
        split; intros [= ->]; tauto.
    + apply Hstep. split; discriminate.
Qed.

Lemma skipWhiteSpace_run (lineText : jsstring) (limit : nat) :
  forall n s j,
    s <= j < skipWhiteSpace lineText limit s n ->
    testWhiteSpace (at_ lineText j) = true.
Proof.
  induction n as [|n IH]; intros s j Hj; simpl in Hj; [lia|].
  destruct ((s <? limit) && testWhiteSpace (at_ lineText s)) eqn:E; [|lia].
  apply andb_true_iff in E. destruct E as (_ & Hw).
  destruct (Nat.eq_dec j s) as [->|]; [exact Hw|].
  apply (IH (S s)). lia.
Qed.

Lemma at_firstn (t : jsstring) (c j : nat) :
  j < c -> at_ (firstn c t) j = at_ t j.
Proof.
  intros H. unfold at_. rewrite nth_error_firstn.
  now destruct (Nat.ltb_spec j c); [|lia].
Qed.

(** The range that is computed, with its two ends as the loops leave
    them. *)
Lemma calculateReplaceRange_value (document : TextDocument)
    (position : Position) (lineText : jsstring) :
  lineAt document (line position) = Returned lineText ->
  calculateReplaceRange document position
  = Returned
      (Some {| range_start :=
                 {| line := line position;
                    character :=
                      match scanArgumentStart
                              (substring lineText 0 (character position))
                              (length (substring lineText 0
                                         (character position))) with
                      | Some i =>
                          skipWhiteSpace lineText (character position)
                            (i + 1) (character position - (i + 1))
                      | None => character position
                      end |};
               range_end :=
                 {| line := line position;
                    character :=
                      match scanArgumentEnd
                              (substringFrom lineText (character position))
                              0 0 with
                      | Some i => character position + i
                      | None => character position
                      end |} |}).
Proof.
  intros Hl. unfold calculateReplaceRange. rewrite Hl. cbn [bind].
  unfold newRange, isBefore. cbn [line character].
  rewrite Nat.ltb_irrefl, Nat.eqb_refl. cbn [orb andb].
  match goal with
  | |- context [if (?a <? ?b) then _ else _] =>
      destruct (Nat.ltb_spec a b) as [Hlt|]; [exfalso|reflexivity]
  end.
  revert Hlt.
  destruct (scanArgumentStart _ _) as [i|] eqn:Es;
    destruct (scanArgumentEnd _ _ _) as [k|]; try lia.
  - apply CompletionFacts.scanArgumentStart_lt in Es.
    rewrite CompletionFacts.substring_prefix, length_firstn in Es.
    pose proof (CompletionFacts.skipWhiteSpace_bounds lineText
                  (character position) (character position - (i + 1))
                  (i + 1) ltac:(lia)). lia.
  - apply CompletionFacts.scanArgumentStart_lt in Es.
    rewrite CompletionFacts.substring_prefix, length_firstn in Es.
    pose proof (CompletionFacts.skipWhiteSpace_bounds lineText
                  (character position) (character position - (i + 1))
                  (i + 1) ltac:(lia)). lia.
Qed.

End RangeFacts.

(** The replacement range of the completion starts right after the
    nearest ['('] or [','] before the cursor on its line, past the white
    space that follows it (nested parentheses are not counted here): only
    white space lies between that character and the start, the start is
    the cursor or a character that is not white space, and no ['('] or
    [','] lies between the start and the cursor. On a line without such
    a character before the cursor the range starts at the cursor. *)
Theorem replace_range_start (document : TextDocument) (position : Position)
    (lineText : jsstring) (r : Range) :
  lineAt document (line position) = Returned lineText ->
  ArgumentCompletionProvider.calculateReplaceRange document position
  = Returned (Some r) ->
  let s := character (range_start r) in
  let c := character position in
  (exists i,
      i < s /\ s <= c
      /\ (at_ lineText i = Some (ch "(") \/ at_ lineText i = Some (ch ","))
      /\ (forall j, i < j < s -> Js.testWhiteSpace (at_ lineText j) = true)
      /\ (s = c \/ Js.testWhiteSpace (at_ lineText s) = false)
      /\ (forall j, i < j < c ->
            at_ lineText j <> Some (ch "(")
            /\ at_ lineText j <> Some (ch ",")))
  \/ (s = c
      /\ forall j, j < c ->
           at_ lineText j <> Some (ch "(") /\ at_ lineText j <> Some (ch ",")).
Proof.
  intros Hl Hr.
  assert (Hstart :
    character (range_start r)
    = match ArgumentCompletionProvider.scanArgumentStart
              (substring lineText 0 (character position))
              (length (substring lineText 0 (character position))) with
      | Some i =>
          ArgumentCompletionProvider.skipWhiteSpace lineText
            (character position) (i + 1) (character position - (i + 1))
      | None => character position
      end).
  { rewrite (RangeFacts.calculateReplaceRange_value _ _ _ Hl) in Hr.
    now injection Hr as <-. }
  cbv zeta. rewrite Hstart. clear Hstart Hr.
  rewrite CompletionFacts.substring_prefix.
  set (c := character position).
  set (before := firstn c lineText).
  assert (Hlen : length before <= c) by (unfold before; rewrite length_firstn; lia).
  assert (Hat : forall j, j < c -> at_ before j = at_ lineText j)
    by (intros j Hj; now apply RangeFacts.at_firstn).
  assert (Hpast : forall j, length before <= j < c ->
            at_ lineText j <> Some (ch "(") /\ at_ lineText j <> Some (ch ",")).
  { intros j Hj. rewrite <- Hat by lia. unfold at_.
    rewrite (proj2 (nth_error_None before j)) by lia. split; discriminate. }
  pose proof (RangeFacts.scanArgumentStart_spec before (length before)) as H.
  destruct (ArgumentCompletionProvider.scanArgumentStart before
              (length before)) as [i|].
  - left. destruct H as (Hi & Hpc & Hall). exists i.
    pose proof (CompletionFacts.skipWhiteSpace_bounds lineText c
                  (c - (i + 1)) (i + 1) ltac:(lia)) as Hb.
    split; [lia|]. split; [lia|].
    split; [rewrite <- Hat by lia; exact Hpc|].
    split.
    { intros j Hj.
      apply (RangeFacts.skipWhiteSpace_run lineText c (c - (i + 1)) (i + 1)).
      lia. }
    split.
    { pose proof (CompletionFacts.skipWhiteSpace_done lineText c
                    (c - (i + 1)) (i + 1) ltac:(lia)) as Hd.
      cbv zeta in Hd. apply andb_false_iff in Hd.
      destruct Hd as [Hd|Hd]; [|now right].
      apply Nat.ltb_ge in Hd. left. lia. }
    intros j Hj. destruct (Nat.lt_ge_cases j (length before)) as [Hj'|Hj'].
    + rewrite <- Hat by lia. apply Hall. lia.
    + apply Hpast. lia.
  - right. split; [reflexivity|].
    intros j Hj. destruct (Nat.lt_ge_cases j (length before)) as [Hj'|Hj'].
    + rewrite <- Hat by lia. now apply H.
    + apply Hpast. lia.
Qed.

Lemma replace_range_start_witness :
  lineAt (ParameterResolver.singleLine (str "foo(a,   b")) 0
  = Returned (str "foo(a,   b")
  /\ ArgumentCompletionProvider.calculateReplaceRange
       (ParameterResolver.singleLine (str "foo(a,   b"))
       {| line := 0; character := 10 |}
     = Returned (Some {| range_start := {| line := 0; character := 9 |};
                         range_end := {| line := 0; character := 10 |} |})
  /\ ((exists i,
          i < 9 /\ 9 <= 10
          /\ (at_ (str "foo(a,   b") i = Some (ch "(")
              \/ at_ (str "foo(a,   b") i = Some (ch ","))
          /\ (forall j, i < j < 9 ->
                Js.testWhiteSpace (at_ (str "foo(a,   b") j) = true)
          /\ (9 = 10 \/ Js.testWhiteSpace (at_ (str "foo(a,   b") 9) = false)
          /\ (forall j, i < j < 10 ->
                at_ (str "foo(a,   b") j <> Some (ch "(")
                /\ at_ (str "foo(a,   b") j <> Some (ch ",")))
      \/ (9 = 10
          /\ forall j, j < 10 ->
               at_ (str "foo(a,   b") j <> Some (ch "(")
               /\ at_ (str "foo(a,   b") j <> Some (ch ","))).
Proof.
  split; [reflexivity|]. split; [reflexivity|].
  exact (replace_range_start
           (ParameterResolver.singleLine (str "foo(a,   b"))
           {| line := 0; character := 10 |} (str "foo(a,   b") _
           eq_refl eq_refl).
Defined.

(** ** Filling twice *)

Module RefillFacts.

Import ArgumentFiller CallSiteLocator ParameterResolver TextShape.

Lemma identifier_noParen (x : jsstring) : isIdentifier x -> hasNoParen x.
Proof.
  unfold isIdentifier, hasNoParen. apply Forall_impl. intros c Hc.
  split; intros ->; discriminate.
Qed.

Lemma asciiLower_ident (c : Z) :
  isIdentChar c = true -> isIdentChar (asciiLower c) = true.
Proof.
  unfold asciiLower, isIdentChar, ch. simpl. intros H.
  destruct ((65 <=? c)%Z && (c <=? 90)%Z) eqn:E;
    [|rewrite E; exact H].
  apply andb_true_iff in E. rewrite !Z.leb_le in E.
  apply orb_true_iff. left. apply orb_true_iff. left.
  apply orb_true_iff. left. apply andb_true_iff.
  rewrite !Z.leb_le. lia.
Qed.

(** A text joined from identifiers: no parenthesis in it, and it does not
    start with white space. *)
Lemma join_identifiers (x : jsstring) (xs : list jsstring) :
  Forall (fun n => n <> [] /\ isIdentifier n) (x :: xs) ->
  hasNoParen (join (str ", ") (x :: xs))
  /\ trim (join (str ", ") (x :: xs)) <> [].
Proof.
  intros H. split.
  - revert x H. induction xs as [|y ys IH]; intros x H.
    + inversion H as [|? ? (_ & Hx) _]; subst. simpl.
      now apply identifier_noParen.
    + inversion H as [|? ? (_ & Hx) Hr]; subst.
      change (join (str ", ") (x :: y :: ys))
        with (x ++ str ", " ++ join (str ", ") (y :: ys)).
      apply Forall_app. split; [now apply identifier_noParen|].
      apply Forall_app. split; [|now apply IH].
      repeat constructor; discriminate.
  - inversion H as [|? ? (Hne & Hx) _]; subst.
    destruct x as [|c x']; [congruence|].
    inversion Hx as [|? ? Hc _]; subst.
    apply ExtractFacts.identChar_not_whiteSpace in Hc.
    intros E. apply trim_nil_iff in E. unfold isBlank in E.
    destruct xs; cbn [join app forallb] in E; rewrite Hc in E;
      discriminate.
Qed.

(** The text of a fill result of the heuristics is joined from
    identifiers. *)
Lemma heuristic_fill_text (lcm : Z -> Z * jsstring)
    (options : AutofillOptions) (h : Host) (document : TextDocument)
    (position : Position) (ctx : MethodCallContext)
    (r : ArgumentFillResult) :
  heuristicPath h document position ctx ->
  fillArguments lcm options h document position = Returned (Some r) ->
  exists x xs,
    arguments r = join (str ", ") (x :: xs)
    /\ Forall (fun n => n <> [] /\ isIdentifier n) (x :: xs).
Proof.
  intros Hp Hr.
  assert (Hobj : str "object" <> [] /\ isIdentifier (str "object"))
    by (split; [discriminate|repeat constructor]).
  destruct (fallbackToTypeName options) eqn:Hfb.
  2:{ rewrite (HeuristicFacts.fillArguments_heuristic _ _ _ _ _ _ Hp), Hfb
        in Hr. discriminate. }
  destruct (isSetter (methodName ctx)) eqn:Es.
  - destruct (FillTextFacts.isSetter_shape _ Es) as (c & rest & Hn).
    destruct (HeuristicFacts.fillArguments_setter lcm options h document
                position ctx c rest Hp Hfb Hn) as (_ & Hfill).
    rewrite Hfill in Hr. injection Hr as <-. simpl.
    destruct Hp as (Hf & _).
    pose proof (FillFacts.findMethodCallContext_invariants _ _ _ Hf)
      as (Hlt & Hlen & _).
    apply CallSiteLocatorFacts.findMethodCallContext_some in Hf.
    destruct Hf as (_ & _ & He & _).
    apply HeuristicFacts.extractMethodName_ident in He; [|lia].
    destruct He as (_ & Hall). rewrite Hn in Hall.
    apply Forall_app in Hall. destruct Hall as (_ & Hall).
    inversion Hall as [|? ? Hc Hrest]; subst.
    destruct (useParameterNames options).
    + exists (asciiLower c :: rest), []. split; [reflexivity|].
      constructor; [|constructor]. split; [discriminate|].
      constructor; [now apply asciiLower_ident|exact Hrest].
    + exists (str "object"), []. split; [reflexivity|].
      constructor; [exact Hobj|constructor].
  - destruct (ownProperty knownPatterns (methodName ctx)) as [names|] eqn:Eo.
    + rewrite (HeuristicFacts.fillArguments_table lcm options h document
                 position ctx names Hp Hfb Es Eo) in Hr.
      injection Hr as <-. simpl.
      pose proof (FillTextFacts.knownPatterns_names _ _ Eo) as Hnames.
      pose proof (HeuristicFacts.knownPatterns_nonEmpty _ _ Eo) as Hne.
      destruct names as [|n ns]; [congruence|].
      destruct (useParameterNames options).
      * now exists n, ns.
      * exists (str "object"), (map (fun _ => str "object") ns).
        split; [reflexivity|].
        constructor; [exact Hobj|].
        apply Forall_forall. intros y Hy. apply in_map_iff in Hy.
        destruct Hy as (? & <- & _). exact Hobj.
    + rewrite (HeuristicFacts.fillArguments_heuristic _ _ _ _ _ _ Hp), Hfb
        in Hr.
      rewrite (HeuristicFacts.generatePlaceholderParameters_table _ _ _ Es)
        in Hr.
      unfold getProperty in Hr. rewrite Eo in Hr.
      destruct (existsb _ _); discriminate.
Qed.

Lemma scanOpenParen_over_plain (t : jsstring) (p : nat) :
  at_ t p = Some (ch "(") ->
  forall n,
    p < n ->
    (forall j c, p < j < n -> at_ t j = Some c ->
                 c <> ch "(" /\ c <> ch ")") ->
    scanOpenParen t n 0 = Some p.
Proof.
  intros Hp. induction n as [|i IH]; intros Hn Hplain; [lia|].
  cbn [scanOpenParen].
  destruct (Nat.eq_dec i p) as [->|Hne].
  - rewrite Hp. reflexivity.
  - assert (Hrec : scanOpenParen t i 0 = Some p).
    { apply IH; [lia|]. intros j c Hj. apply Hplain. lia. }
    destruct (at_ t i) as [c|] eqn:Ec; [|exact Hrec].
    destruct (Hplain i c ltac:(lia) Ec) as (Ho & Hc).
    apply Z.eqb_neq in Ho, Hc. now rewrite Ho, Hc.
Qed.

Lemma scanCloseParen_over_plain (x y : jsstring) :
  hasNoParen x ->
  forall i d, scanCloseParen (x ++ y) i d = scanCloseParen y (i + length x) d.
Proof.
  induction 1 as [|c x (Ho & Hc) _ IH]; intros i d; simpl.
  - now rewrite Nat.add_0_r.
  - apply Z.eqb_neq in Ho, Hc. rewrite Ho, Hc, IH. f_equal. lia.
Qed.

Lemma skipBack_ext (test : option Z -> bool) (t t' : jsstring) (n : nat) :
  (forall i, i < n -> at_ t i = at_ t' i) ->
  skipBack test t n = skipBack test t' n.
Proof.
  induction n as [|i IH]; intros H; simpl; [reflexivity|].
  rewrite <- (H i) by lia. destruct (test (at_ t i)); [|reflexivity].
  apply IH. intros j Hj. apply H. lia.
Qed.

Lemma substring_firstn (t : jsstring) (p a b : nat) :
  a <= b -> b <= p -> p <= length t ->
  substring (firstn p t) a b = substring t a b.
Proof.
  intros Hab Hbp Hp.
  rewrite !ExtractFacts.substring_segment
    by (try rewrite length_firstn; lia).
  unfold segment. now rewrite firstn_firstn, Nat.min_l by lia.
Qed.

(** The callee name depends on the text before the ['('] only. *)
Lemma extractMethodName_local (t t' : jsstring) (p : nat) :
  firstn p t = firstn p t' ->
  p <= length t -> p <= length t' ->
  extractMethodName t p = extractMethodName t' p.
Proof.
  intros Hf Hp Hp'.
  assert (Hat : forall i, i < p -> at_ t i = at_ t' i).
  { intros i Hi. rewrite <- (RangeFacts.at_firstn t p i Hi).
    rewrite <- (RangeFacts.at_firstn t' p i Hi). now rewrite Hf. }
  assert (Hsub : forall a b, a <= b -> b <= p ->
                             substring t a b = substring t' a b).
  { intros a b Hab Hb.
    rewrite <- (substring_firstn t p a b), <- (substring_firstn t' p a b)
      by lia.
    now rewrite Hf. }
  unfold extractMethodName.
  pose proof (HeuristicFacts.skipBack_le testWhiteSpace t p) as He.
  rewrite <- (skipBack_ext testWhiteSpace t t' p Hat).
  set (e := skipBack testWhiteSpace t p) in *.
  pose proof (HeuristicFacts.skipBack_le testIdentChar t e) as Hs.
  rewrite <- (skipBack_ext testIdentChar t t' e)
    by (intros i Hi; apply Hat; lia).
  set (s := skipBack testIdentChar t e) in *.
  pose proof (HeuristicFacts.skipBack_le testWhiteSpace t s) as Hb.
  rewrite <- (skipBack_ext testWhiteSpace t t' s)
    by (intros i Hi; apply Hat; lia).
  set (b := skipBack testWhiteSpace t s) in *.
  rewrite <- (Hsub s e) by lia.
  now rewrite <- (Hsub (b - 3) b) by lia.
Qed.

Lemma skipn_nth (l : jsstring) (n : nat) (x : Z) :
  nth_error l n = Some x -> skipn n l = x :: skipn (S n) l.
Proof.
  revert n. induction l as [|a l IH]; intros [|n] H; try discriminate.
  - now injection H as ->.
  - simpl in H. simpl. now apply IH.
Qed.

(** The call site in the text in which its arguments have been replaced
    by a text without parentheses, seen from a cursor in that text. *)
Lemma findMethodCallContext_after_fill (text args : jsstring)
    (offset o' : nat) (ctx : MethodCallContext) :
  findMethodCallContext text offset = Some ctx ->
  hasNoParen args ->
  openParenOffset ctx + 1 <= o' <= openParenOffset ctx + 1 + length args ->
  findMethodCallContext
    (firstn (openParenOffset ctx + 1) text ++ args
     ++ skipn (closeParenOffset ctx) text) o'
  = Some {| methodName := methodName ctx;
            isConstructor := isConstructor ctx;
            openParenOffset := openParenOffset ctx;
            closeParenOffset := openParenOffset ctx + 1 + length args;
            argumentsStart := openParenOffset ctx + 1;
            argumentsLength := length args;
            existingArguments := trim args |}.
Proof.
  intros Hf Hplain Ho.
  pose proof (FillFacts.findMethodCallContext_invariants _ _ _ Hf)
    as (Hlt & Hlen & Hop & Hcl & _).
  pose proof (CallSiteLocatorFacts.findMethodCallContext_some _ _ _ Hf)
    as (_ & _ & Hname & _).
  set (p := openParenOffset ctx) in *.
  set (q := closeParenOffset ctx) in *.
  set (A := firstn (p + 1) text).
  set (text' := A ++ args ++ skipn q text).
  assert (HA : length A = p + 1) by (unfold A; rewrite length_firstn; lia).
  assert (Hq : skipn q text = ch ")" :: skipn (S q) text)
    by (now apply skipn_nth).
  assert (Hat_p : at_ text' p = Some (ch "(")).
  { unfold text', at_. rewrite nth_error_app1 by lia.
    unfold A. rewrite nth_error_firstn.
    destruct (Nat.ltb_spec p (p + 1)); [exact Hop|lia]. }
  assert (Hscan : scanOpenParen text' o' 0 = Some p).
  { apply scanOpenParen_over_plain; [exact Hat_p|lia|].
    intros j c Hj Hc. unfold text', at_ in Hc.
    rewrite nth_error_app2, nth_error_app1 in Hc by lia.
    unfold hasNoParen in Hplain. rewrite Forall_forall in Hplain.
    apply Hplain. eapply nth_error_In. exact Hc. }
  assert (Hskip : skipn (p + 1) text' = args ++ skipn q text).
  { unfold text'. rewrite skipn_app, <- HA, skipn_all, Nat.sub_diag.
    reflexivity. }
  assert (Hclose : scanCloseParen (skipn (p + 1) text') (p + 1) 1
                   = Some (p + 1 + length args)).
  { rewrite Hskip, (scanCloseParen_over_plain _ _ Hplain), Hq.
    reflexivity. }
  assert (Hlen' : length text' = p + 1 + length args + length (skipn q text)).
  { unfold text'. rewrite !length_app. lia. }
  assert (Hn : extractMethodName text' p
               = Some (methodName ctx, isConstructor ctx)).
  { rewrite <- Hname. symmetry. apply extractMethodName_local; try lia.
    unfold text'. rewrite firstn_app.
    replace (p - length A) with 0 by lia. simpl. rewrite app_nil_r.
    unfold A. now rewrite firstn_firstn, Nat.min_l by lia. }
  assert (Hargs : substring text' (p + 1) (p + 1 + length args) = args).
  { rewrite Hq in Hlen'. simpl in Hlen'.
    rewrite ExtractFacts.substring_segment by lia.
    unfold segment, text'.
    rewrite app_assoc, firstn_app.
    replace (p + 1 + length args - length (A ++ args)) with 0
      by (rewrite length_app; lia).
    simpl. rewrite app_nil_r, firstn_all2 by (rewrite length_app; lia).
    now rewrite skipn_app, <- HA, skipn_all, Nat.sub_diag. }
  unfold findMethodCallContext.
  replace (S (if 0 <? o' then o' - 1 else 0)) with o'
    by (destruct (Nat.ltb_spec 0 o'); lia).
  rewrite Hscan, Hclose, Hn, Hargs.
  do 2 f_equal. lia.
Qed.

End RefillFacts.

(** A fill by the heuristics is not repeated. When the fill result has
    been applied to the text and the cursor stands in the inserted
    arguments (at their start, inside them or at their end), the fill
    operation, still without parameters from the symbol source, finds the
    arguments in place and gives no result, whatever the options. *)
Theorem heuristic_fill_is_not_repeated
    (lcm lcm' : Z -> Z * jsstring) (options options' : AutofillOptions)
    (h h' : Host) (document document' : TextDocument)
    (position position' : Position) (r : ArgumentFillResult) :
  ParameterResolver.noAdapterData h document position ->
  ArgumentFiller.fillArguments lcm options h document position
  = Returned (Some r) ->
  getText document' = TextShape.applyFill (getText document) r ->
  replaceStart r <= offsetAt document' position'
  <= replaceStart r + length (arguments r) ->
  ParameterResolver.noAdapterData h' document' position' ->
  ArgumentFiller.fillArguments lcm' options' h' document' position'
  = Returned None.
Proof.
  intros Hno Hr Htext Hpos Hno'.
  destruct (FillFacts.fillArguments_span _ _ _ _ _ _ Hr)
    as (ctx & Hf & Hs & Hl).
  pose proof (FillFacts.findMethodCallContext_invariants _ _ _ Hf)
    as (_ & _ & _ & _ & Hst & _ & Hsum & _).
  assert (Hp : ParameterResolver.heuristicPath h document position ctx).
  { split; [exact Hf|]. split; [|exact Hno].
    destruct (ArgumentFiller.existingArguments ctx) as [|c t] eqn:Ex;
      [reflexivity|exfalso].
    rewrite (FillFacts.fillArguments_fallback _ _ _ _ _ _ Hf Hno) in Hr.
    rewrite (FillFacts.parseParametersFromContext_existing _ _ _ _ _ Hf)
      in Hr; [discriminate|].
    rewrite Ex. discriminate. }
  destruct (RefillFacts.heuristic_fill_text _ _ _ _ _ _ _ Hp Hr)
    as (x & xs & Hargs & Hids).
  destruct (RefillFacts.join_identifiers x xs Hids) as (Hplain & Htrim).
  rewrite <- Hargs in Hplain, Htrim.
  assert (Hf' := RefillFacts.findMethodCallContext_after_fill
                   (getText document) (arguments r) _
                   (offsetAt document' position') ctx Hf Hplain
                   ltac:(lia)).
  unfold TextShape.applyFill in Htext.
  rewrite Hs, Hl, Hsum, Hst in Htext. rewrite <- Htext in Hf'.
  rewrite (FillFacts.fillArguments_fallback _ _ _ _ _ _ Hf' Hno').
  now rewrite (FillFacts.parseParametersFromContext_existing
                 _ _ _ _ _ Hf' Htrim).
Qed.

Lemma heuristic_fill_is_not_repeated_witness :
  ParameterResolver.noAdapterData ParameterResolver.noJavaExtension
    (ParameterResolver.singleLine (str "x.put()"))
    {| line := 0; character := 6 |}
  /\ ArgumentFiller.fillArguments ParameterResolver.unchanged
       ParameterResolver.allTrue ParameterResolver.noJavaExtension
       (ParameterResolver.singleLine (str "x.put()"))
       {| line := 0; character := 6 |}
     = Returned (Some {| arguments := str "key, value";
                         replaceStart := 6;
                         replaceLength := 0 |})
  /\ getText (ParameterResolver.singleLine (str "x.put(key, value)"))
     = TextShape.applyFill
         (getText (ParameterResolver.singleLine (str "x.put()")))
         {| arguments := str "key, value";
            replaceStart := 6;
            replaceLength := 0 |}
  /\ ArgumentFiller.fillArguments ParameterResolver.unchanged
       ParameterResolver.typeNamesOnly ParameterResolver.noJavaExtension
       (ParameterResolver.singleLine (str "x.put(key, value)"))
       {| line := 0; character := 16 |}
     = Returned None.
Proof.
  split; [left; reflexivity|]. split; [reflexivity|].
  split; [reflexivity|].
  refine (heuristic_fill_is_not_repeated
            ParameterResolver.unchanged ParameterResolver.unchanged
            ParameterResolver.allTrue ParameterResolver.typeNamesOnly
            ParameterResolver.noJavaExtension
            ParameterResolver.noJavaExtension
            (ParameterResolver.singleLine (str "x.put()"))
            (ParameterResolver.singleLine (str "x.put(key, value)"))
            {| line := 0; character := 6 |}
            {| line := 0; character := 16 |}
            {| arguments := str "key, value";
               replaceStart := 6;
               replaceLength := 0 |}
            (or_introl eq_refl) eq_refl eq_refl _ (or_introl eq_refl)).
  vm_compute. lia.
Defined.

(** ** Counting the arguments of a plain text *)

Module CountFacts.

Import ArgumentFiller ArgumentListAnalyzer TextShape.

Lemma countStep_count (st : CountState) (c : Z) :
  count (countStep st c) <= count st + (if (c =? ch ",")%Z then 1 else 0).
Proof.
  unfold countStep. destruct (negb (inString st)).
  - destruct (isQuote c); [simpl; lia|].
    destruct (isOpener c); [simpl; lia|].
    destruct (isCloser c); [simpl; lia|].
    destruct (c =? ch ",")%Z; simpl; [|lia].
    destruct (depth st =? 0)%Z; simpl; lia.
  - destruct (stringChar st) as [q|]; [|lia].
    destruct (c =? q)%Z; simpl; lia.
Qed.

Lemma commas_cons (c : Z) (s : jsstring) :
  commas (c :: s) = (if (c =? ch ",")%Z then 1 else 0) + commas s.
Proof.
  unfold commas. simpl.
  destruct (Z.eq_dec c (ch ",")) as [->|Hne].
  - reflexivity.
  - now rewrite (proj2 (Z.eqb_neq _ _) Hne).
Qed.

Lemma fold_count_le (s : jsstring) :
  forall st, count (fold_left countStep s st) <= count st + commas s.
Proof.
  induction s as [|c s IH]; intros st; simpl; [unfold commas; simpl; lia|].
  specialize (IH (countStep st c)).
  pose proof (countStep_count st c). rewrite commas_cons. lia.
Qed.

Lemma fold_count_plain (s : jsstring) :
  forallb plainChar s = true ->
  forall st,
    inString st = false -> depth st = 0%Z ->
    count (fold_left countStep s st) = count st + commas s.
Proof.
  induction s as [|c s IH]; intros Hp st Hi Hd; simpl.
  - unfold commas. simpl. lia.
  - simpl in Hp. apply andb_true_iff in Hp. destruct Hp as (Hc & Hp).
    unfold plainChar in Hc. rewrite !andb_true_iff, !negb_true_iff in Hc.
    destruct Hc as ((Hq & Ho) & Hcl).
    rewrite commas_cons.
    assert (Hstep : countStep st c
                    = if (c =? ch ",")%Z
                      then {| count := count st + 1; depth := depth st;
                              inString := inString st;
                              stringChar := stringChar st |}
                      else st).
    { unfold countStep. rewrite Hi, Hq, Ho, Hcl, Hd. simpl.
      now destruct (c =? ch ",")%Z. }
    rewrite Hstep. destruct (c =? ch ",")%Z.
    + rewrite IH by (try assumption; reflexivity). simpl. lia.
    + rewrite IH by assumption. lia.
Qed.

Lemma identifier_plain (x : jsstring) :
  isIdentifier x -> forallb plainChar x = true /\ commas x = 0.
Proof.
  induction 1 as [|c x Hc _ (IH1 & IH2)]; [now split|].
  assert (Hcases : plainChar c = true /\ (c =? ch ",")%Z = false).
  { unfold isIdentChar, plainChar, isQuote, isOpener, isCloser, dquote, ch
      in *. simpl in *.
    repeat rewrite orb_true_iff in Hc. repeat rewrite andb_true_iff in Hc.
    repeat rewrite Z.leb_le in Hc. rewrite Z.eqb_eq in Hc.
    split.
    - repeat (apply andb_true_iff; split); apply negb_true_iff;
        repeat (apply orb_false_iff; split); apply Z.eqb_neq; lia.
    - apply Z.eqb_neq; lia. }
  destruct Hcases as (Hp & Hm). split.
  - simpl. now rewrite Hp.
  - rewrite commas_cons, Hm. exact IH2.
Qed.

Lemma commas_app (x y : jsstring) : commas (x ++ y) = commas x + commas y.
Proof. unfold commas. apply count_occ_app. Qed.

(** A text joined from identifiers is plain and has one comma fewer than
    it has identifiers. *)
Lemma join_plain (x : jsstring) (xs : list jsstring) :
  Forall isIdentifier (x :: xs) ->
  forallb plainChar (join (str ", ") (x :: xs)) = true
  /\ commas (join (str ", ") (x :: xs)) = length xs.
Proof.
  revert x. induction xs as [|y ys IH]; intros x H.
  - inversion H; subst. simpl. now apply identifier_plain.
  - inversion H as [|? ? Hx Hr]; subst.
    destruct (identifier_plain x Hx) as (Hp & Hc).
    destruct (IH y Hr) as (IHp & IHc).
    change (join (str ", ") (x :: y :: ys))
      with (x ++ str ", " ++ join (str ", ") (y :: ys)).
    split.
    + rewrite !forallb_app, Hp, IHp. reflexivity.
    + rewrite !commas_app, Hc, IHc. reflexivity.
Qed.

End CountFacts.

(** The argument counter never counts more than the commas of the text
    plus one, and counts exactly that for a text that is not blank and
    has no quote and no bracket. *)
Theorem countArguments_of_plain_text (s : jsstring) :
  ArgumentFiller.countArguments s <= 1 + TextShape.commas s
  /\ (forallb TextShape.plainChar s = true ->
      isBlank s = false ->
      ArgumentFiller.countArguments s = 1 + TextShape.commas s).
Proof.
  rewrite ArgumentListAnalyzerFacts.countArguments_units.
  split.
  - destruct (trim s); [lia|].
    apply (CountFacts.fold_count_le s ArgumentListAnalyzer.initial).
  - intros Hp Hb.
    destruct (trim s) eqn:E.
    + apply trim_nil_iff in E. congruence.
    + now apply (CountFacts.fold_count_plain s Hp
                   ArgumentListAnalyzer.initial).
Qed.

Lemma countArguments_of_plain_text_witness :
  forallb TextShape.plainChar (str "a, b.c , 1") = true
  /\ isBlank (str "a, b.c , 1") = false
  /\ ArgumentFiller.countArguments (str "a, b.c , 1")
     = 1 + TextShape.commas (str "a, b.c , 1").
Proof.
  split; [reflexivity|]. split; [reflexivity|].
  exact (proj2 (countArguments_of_plain_text (str "a, b.c , 1"))
           eq_refl eq_refl).
Defined.

(** The text synthesized from the names of n parameters is counted as n
    arguments, when the names are identifiers: what the synthesizer
    writes, the counter reads back. *)
Theorem synthesized_names_count_as_their_parameters
    (lcm : Z -> Z * jsstring) (options : AutofillOptions)
    (ps : list MethodParameter) :
  ps <> [] ->
  useParameterNames options = true ->
  Forall (fun p => name p <> [] /\ TextShape.isIdentifier (name p)) ps ->
  ArgumentFiller.countArguments
    (ArgumentFiller.generateArgumentString lcm options ps)
  = length ps.
Proof.
  intros Hne Hu Hall. unfold ArgumentFiller.generateArgumentString.
  rewrite Hu. destruct ps as [|p ps]; [congruence|].
  cbn [map length].
  assert (Hids : Forall (fun n => n <> [] /\ TextShape.isIdentifier n)
                   (name p :: map name ps)).
  { change (name p :: map name ps) with (map name (p :: ps)).
    apply Forall_forall. intros n Hn. apply in_map_iff in Hn.
    destruct Hn as (q & <- & Hq). rewrite Forall_forall in Hall.
    now apply Hall. }
  destruct (RefillFacts.join_identifiers _ _ Hids) as (_ & Htrim).
  assert (Hid' : Forall TextShape.isIdentifier (name p :: map name ps)).
  { eapply Forall_impl; [|exact Hids]. simpl. tauto. }
  destruct (CountFacts.join_plain _ _ Hid') as (Hp & Hc).
  rewrite ArgumentListAnalyzerFacts.countArguments_units.
  destruct (trim (join (str ", ") (name p :: map name ps))) eqn:E;
    [congruence|].
  rewrite (CountFacts.fold_count_plain _ Hp ArgumentListAnalyzer.initial)
    by reflexivity.
  rewrite Hc, length_map. reflexivity.
Qed.

Lemma synthesized_names_count_as_their_parameters_witness :
  ParameterResolver.objectParameters [str "key"; str "value"] <> []
  /\ useParameterNames ParameterResolver.allTrue = true
  /\ ArgumentFiller.countArguments
       (ArgumentFiller.generateArgumentString ParameterResolver.unchanged
          ParameterResolver.allTrue
          (ParameterResolver.objectParameters [str "key"; str "value"]))
     = 2.
Proof.
  split; [discriminate|]. split; [reflexivity|].
  refine (synthesized_names_count_as_their_parameters
            ParameterResolver.unchanged ParameterResolver.allTrue
            (ParameterResolver.objectParameters [str "key"; str "value"])
            _ eq_refl _).
  - discriminate.
  - repeat (constructor; [split; [discriminate|repeat constructor]|]).
    constructor.
Defined.

(** ** The check of the completion and the locator *)

Module AgreementFacts.

Import ArgumentFiller CallSiteLocator CompletionSurface.

Lemma extractMethodName_after_identifier (a w rest : jsstring) (x : Z) :
  isIdentChar x = true ->
  isBlank w = true ->
  extractMethodName (a ++ [x] ++ w ++ rest) (length a + 1 + length w)
  <> None.
Proof.
  intros Hx Hw. unfold extractMethodName.
  assert (He : skipBack testWhiteSpace (a ++ [x] ++ w ++ rest)
                 (length a + 1 + length w) = length a + 1).
  { replace (a ++ [x] ++ w ++ rest) with ((a ++ [x]) ++ w ++ rest)
      by (now rewrite <- app_assoc).
    replace (length a + 1) with (length (a ++ [x]))
      by (rewrite length_app; reflexivity).
    apply ExtractFacts.skipBack_over_run.
    - unfold isBlank in Hw. rewrite forallb_forall in Hw.
      apply Forall_forall. intros c Hc. simpl. now apply Hw.
    - right. exists a, x. split; [reflexivity|]. simpl.
      now apply ExtractFacts.identChar_not_whiteSpace. }
  rewrite He. rewrite Nat.add_1_r. cbn [skipBack].
  unfold at_ at 1. rewrite nth_error_app2, Nat.sub_diag by lia.
  simpl nth_error. cbn [testIdentChar testChar]. rewrite Hx.
  pose proof (HeuristicFacts.skipBack_le testIdentChar
                (a ++ [x] ++ w ++ rest) (length a)) as Hle.
  destruct (Nat.eqb_spec
              (skipBack testIdentChar (a ++ [x] ++ w ++ rest) (length a))
              (S (length a))) as [E|_]; [lia|discriminate].
Qed.

(** A text whose trimmed form ends with [x]. *)
Lemma trim_ends (u : jsstring) :
  ArgumentCompletionProvider.endsWithIdentChar (trim u) = true ->
  exists a x w,
    u = a ++ [x] ++ w /\ isIdentChar x = true /\ isBlank w = true.
Proof.
  unfold ArgumentCompletionProvider.endsWithIdentChar. intros H.
  destruct (rev (trim u)) as [|x r'] eqn:Er; [discriminate|].
  apply (f_equal (@rev Z)) in Er. rewrite rev_involutive in Er.
  simpl in Er.
  destruct (trimStart_split u) as (w1 & E1 & _).
  destruct (SymbolSourceAdapterFacts.trimEnd_split (trimStart u))
    as (w2 & E2 & B2).
  fold (trim u) in E2. rewrite Er in E2.
  exists (w1 ++ rev r'), x, w2. repeat split; try assumption.
  rewrite E1 at 1. rewrite E2. now rewrite <- !app_assoc.
Qed.

End AgreementFacts.

(** When the check of the completion passes on the line of the cursor,
    the locator of the fill operation, which reads the whole document,
    stops at the same ['('], and finds a callee before it: it gives a
    call site with that ['('], and gives none only when the ['('] is not
    closed in the document. *)
Theorem completion_check_agrees_with_locator (document : TextDocument)
    (position : Position) (lineText : jsstring) :
  lineAt document (line position) = Returned lineText ->
  ArgumentCompletionProvider.isInsideMethodCall
    (substring lineText 0 (character position)) = true ->
  exists p,
    p < character position
    /\ at_ lineText p = Some (ch "(")
    /\ match ArgumentFiller.findMethodCallContext (getText document)
               (offsetAt document position) with
       | Some ctx =>
           ArgumentFiller.openParenOffset ctx
           = lineStart (lines document) (eol document) (line position) + p
       | None =>
           CallSiteLocator.noClose (getText document)
             (lineStart (lines document) (eol document) (line position) + p)
       end.
Proof.
  intros Hl Hc.
  assert (Hnth : nth_error (lines document) (line position) = Some lineText).
  { unfold lineAt in Hl.
    destruct (nth_error (lines document) (line position)); congruence. }
  apply CompletionFacts.isInsideMethodCall_iff in Hc.
  destruct Hc as (p & Hin & Hid).
  rewrite CompletionFacts.substring_prefix in Hin, Hid.
  set (c := character position) in *.
  set (pre := firstn c lineText) in *.
  set (L := lineStart (lines document) (eol document) (line position)).
  pose proof Hin as (Hat & Hlt & _).
  assert (Hpc : p < c) by (unfold pre in Hlt; rewrite length_firstn in Hlt; lia).
  assert (Hpl : p < length lineText)
    by (unfold pre in Hlt; rewrite length_firstn in Hlt; lia).
  exists p. split; [exact Hpc|].
  split; [unfold pre in Hat; now rewrite RangeFacts.at_firstn in Hat|].
  (* the same parenthesis in the document *)
  destruct (CompletionFacts.text_before_cursor document position lineText Hnth)
    as (b & Ef & Eb). fold L in Eb. fold c pre in Ef.
  assert (Ho : offsetAt document position = length b + length pre).
  { unfold offsetAt. rewrite Hnth. fold L. rewrite Eb. unfold pre.
    now rewrite length_firstn. }
  pose proof (CompletionFacts.innermostOpen_in_document _ _ _ _ _ Ef Ho Hin)
    as Hdoc.
  rewrite Eb in Hdoc.
  assert (Hscan : ArgumentFiller.scanOpenParen (getText document)
                    (S (CallSiteLocator.scanStart
                          (offsetAt document position))) 0
                  = Some (L + p)).
  { replace (S (CallSiteLocator.scanStart (offsetAt document position)))
      with (offsetAt document position)
      by (unfold CallSiteLocator.scanStart; lia).
    now apply LocatorFacts.scanOpenParen_found. }
  (* a callee stands before it *)
  assert (Hname : ArgumentFiller.extractMethodName (getText document) (L + p)
                  <> None).
  { destruct (CompletionFacts.text_before_cursor document
                {| line := line position; character := p |} lineText Hnth)
      as (b' & Ef' & Eb').
    cbn [line character] in Ef', Eb'. fold L in Eb'.
    assert (Ho' : offsetAt document
                    {| line := line position; character := p |} = L + p).
    { unfold offsetAt. cbn [line character]. rewrite Hnth. fold L. lia. }
    rewrite Ho' in Ef'.
    replace (firstn p pre) with (firstn p lineText) in Hid
      by (unfold pre; now rewrite firstn_firstn, Nat.min_l by lia).
    destruct (AgreementFacts.trim_ends _ Hid) as (a & x & w & Eu & Hx & Hw).
    rewrite <- (firstn_skipn (L + p) (getText document)), Ef', Eu.
    replace ((b' ++ a ++ [x] ++ w) ++ skipn (L + p) (getText document))
      with ((b' ++ a) ++ [x] ++ w ++ skipn (L + p) (getText document))
      by (now rewrite <- !app_assoc).
    replace (L + p) with (length (b' ++ a) + 1 + length w) at 2.
    - now apply AgreementFacts.extractMethodName_after_identifier.
    - apply (f_equal (@length Z)) in Eu.
      rewrite length_firstn, !length_app in Eu. simpl in Eu.
      rewrite length_app. lia. }
  pose proof (CallSiteLocatorFacts.scanCloseParen_from (getText document)
                (L + p) (proj1 Hdoc)) as Hclose.
  unfold ArgumentFiller.findMethodCallContext.
  replace (if 0 <? offsetAt document position
           then offsetAt document position - 1 else 0)
    with (CallSiteLocator.scanStart (offsetAt document position))
    by (unfold CallSiteLocator.scanStart;
        destruct (Nat.ltb_spec 0 (offsetAt document position)); lia).
  rewrite Hscan.
  destruct (ArgumentFiller.scanCloseParen _ _ _) as [q|]; [|exact Hclose].
  destruct (ArgumentFiller.extractMethodName (getText document) (L + p))
    as [[nm isC]|]; [reflexivity|congruence].
Qed.

Lemma completion_check_agrees_with_locator_witness :
  lineAt CompletionSurface.twoLines 0 = Returned (str "foo(a,")
  /\ ArgumentCompletionProvider.isInsideMethodCall
       (substring (str "foo(a,") 0 6) = true
  /\ exists p,
       p < 6
       /\ at_ (str "foo(a,") p = Some (ch "(")
       /\ match ArgumentFiller.findMethodCallContext
                  (getText CompletionSurface.twoLines)
                  (offsetAt CompletionSurface.twoLines
                     {| line := 0; character := 6 |}) with
          | Some ctx =>
              ArgumentFiller.openParenOffset ctx
              = lineStart (lines CompletionSurface.twoLines)
                  (eol CompletionSurface.twoLines) 0 + p
          | None =>
              CallSiteLocator.noClose (getText CompletionSurface.twoLines)
                (lineStart (lines CompletionSurface.twoLines)
                   (eol CompletionSurface.twoLines) 0 + p)
          end.
Proof.
  split; [reflexivity|]. split; [reflexivity|].
  exact (completion_check_agrees_with_locator CompletionSurface.twoLines
           {| line := 0; character := 6 |} (str "foo(a,") eq_refl eq_refl).
Defined.

(** ** The suggestions of the completion *)

Module SuggestionFacts.

Import ArgumentCompletionProvider.

Lemma map_mapiFrom {A B C : Type} (f : A -> nat -> B) (g : B -> C)
    (k : A -> C) (xs : list A) :
  (forall x j, g (f x j) = k x) ->
  forall i, map g (mapiFrom f i xs) = map k xs.
Proof.
  intros H. induction xs as [|x r IH]; intros i; simpl; [reflexivity|].
  now rewrite H, IH.
Qed.

Lemma Forall_mapiFrom {A B : Type} (f : A -> nat -> B) (P : B -> Prop)
    (xs : list A) :
  (forall x j, P (f x j)) -> forall i, Forall P (mapiFrom f i xs).
Proof.
  intros H. induction xs as [|x r IH]; intros i; simpl; constructor; auto.
Qed.

Lemma createCompletionItems_shape (ps : list MethodParameter)
    (document : TextDocument) (position : Position) (lineText : jsstring) :
  lineAt document (line position) = Returned lineText ->
  exists first rest rng,
    createCompletionItems ps document position = Returned (first :: rest)
    /\ item_label first = str "Fill all arguments"
    /\ item_preselect first = true
    /\ item_sortText first = str "0"
    /\ item_range first = Some rng
    /\ calculateReplaceRange document position = Returned (Some rng)
    /\ map item_label rest = map name ps
    /\ Forall (fun i => item_range i = None /\ item_insertText i = None
                        /\ item_preselect i = false) rest.
Proof.
  intros Hl. unfold createCompletionItems.
  rewrite (RangeFacts.calculateReplaceRange_value _ _ _ Hl). cbn [bind].
  eexists _, _, _. split; [reflexivity|].
  repeat (split; [reflexivity|]).
  unfold mapi. split.
  - now apply map_mapiFrom.
  - apply Forall_mapiFrom. intros x j. repeat split.
Qed.

End SuggestionFacts.

(** The completion throws in one case only, a position on a line that
    the document does not have, with completion on; no answer or failure
    of the symbol source makes it throw. The suggestions it gives are the
    preselected "Fill all arguments", which carries the replacement range,
    followed by one suggestion for each parameter of the symbol source,
    in their order and labelled with their names, none of which replaces
    text. *)
Theorem completion_suggestions (options : AutofillOptions) (h : Host)
    (document : TextDocument) (position : Position) :
  (forall e,
      ArgumentCompletionProvider.provideCompletionItems options h document
        position = Thrown e
      <-> e = IllegalLine
          /\ enableCompletion options = true
          /\ nth_error (lines document) (line position) = None)
  /\ (forall items,
        ArgumentCompletionProvider.provideCompletionItems options h document
          position = Returned (Some items) ->
        exists first rest ps rng,
          items = first :: rest
          /\ SignatureQuery.getParameters h document position = Some ps
          /\ map ArgumentCompletionProvider.item_label rest = map name ps
          /\ ArgumentCompletionProvider.item_label first
             = str "Fill all arguments"
          /\ ArgumentCompletionProvider.item_preselect first = true
          /\ ArgumentCompletionProvider.item_range first = Some rng
          /\ ArgumentCompletionProvider.calculateReplaceRange document
               position = Returned (Some rng)
          /\ Forall (fun i =>
                       ArgumentCompletionProvider.item_range i = None
                       /\ ArgumentCompletionProvider.item_insertText i = None
                       /\ ArgumentCompletionProvider.item_preselect i = false)
               rest).
Proof.
  split.
  - intros e. unfold ArgumentCompletionProvider.provideCompletionItems,
      lineAt.
    destruct (enableCompletion options); cbn [negb].
    2:{ split; [discriminate|]. intros (_ & H & _). discriminate. }
    destruct (nth_error (lines document) (line position)) as [t|] eqn:En.
    + cbn [bind]. split; [|intros (_ & _ & H); discriminate].
      destruct (ArgumentCompletionProvider.isInsideMethodCall _);
        cbn [negb]; [|discriminate].
      destruct (if isRedHatJavaExtensionAvailable h then _ else None)
        as [[|p ps]|]; try discriminate.
      assert (Hl : lineAt document (line position) = Returned t)
        by (unfold lineAt; now rewrite En).
      destruct (SuggestionFacts.createCompletionItems_shape (p :: ps)
                  document position t Hl) as (f & r & g & -> & _).
      discriminate.
    + cbn [bind]. split; [now intros [= <-]|]. now intros (-> & _).
  - intros items Hi.
    destruct (CompletionFacts.provide_some _ _ _ _ _ Hi)
      as (_ & _ & p & ps & Hq & Hc).
    assert (Hl : exists t, lineAt document (line position) = Returned t).
    { revert Hi.
      unfold ArgumentCompletionProvider.provideCompletionItems.
      destruct (enableCompletion options); cbn [negb]; [|discriminate].
      destruct (lineAt document (line position)) as [t|];
        [now exists t|discriminate]. }
    destruct Hl as (t & Hl).
    destruct (SuggestionFacts.createCompletionItems_shape (p :: ps)
                document position t Hl)
      as (f & r & g & Hcr & H1 & H2 & _ & H3 & H4 & H5 & H6).
    rewrite Hcr in Hc. injection Hc as <-.
    exists f, r, (p :: ps), g. repeat split; assumption.
Qed.

Lemma completion_suggestions_witness :
  ArgumentCompletionProvider.provideCompletionItems ParameterResolver.allTrue
    (ParameterResolver.javaExtensionWith ParameterResolver.helpIntString)
    (ParameterResolver.singleLine (str "m(")) {| line := 1; character := 0 |}
  = Thrown IllegalLine
  /\ exists items first rest,
       ArgumentCompletionProvider.provideCompletionItems
         ParameterResolver.allTrue
         (ParameterResolver.javaExtensionWith ParameterResolver.helpIntString)
         (ParameterResolver.singleLine (str "m("))
         {| line := 0; character := 2 |}
       = Returned (Some items)
       /\ items = first :: rest
       /\ map ArgumentCompletionProvider.item_label rest
          = [str "a"; str "b"].
Proof.
  split.
  - apply (proj1 (completion_suggestions ParameterResolver.allTrue
                    (ParameterResolver.javaExtensionWith
                       ParameterResolver.helpIntString)
                    (ParameterResolver.singleLine (str "m("))
                    {| line := 1; character := 0 |})).
    repeat split.
  - destruct (ArgumentCompletionProvider.provideCompletionItems
                ParameterResolver.allTrue
                (ParameterResolver.javaExtensionWith
                   ParameterResolver.helpIntString)
                (ParameterResolver.singleLine (str "m("))
                {| line := 0; character := 2 |}) as [[items|]|] eqn:E;
      try (vm_compute in E; discriminate).
    destruct (proj2 (completion_suggestions _ _ _ _) items E)
      as (f & r & ps & g & -> & Hq & Hm & _).
    exists (f :: r), f, r. split; [reflexivity|]. split; [reflexivity|].
    rewrite Hm. vm_compute in Hq. now injection Hq as <-.
Defined.

(** ** Right after the parenthesis *)

Module TriggerFacts.

Import ArgumentCompletionProvider TextShape.

Lemma trimStart_blank_prefix (b y : jsstring) :
  isBlank b = true -> trimStart (b ++ y) = trimStart y.
Proof.
  unfold isBlank. induction b as [|c b IH]; intros H; [reflexivity|].
  simpl in H. apply andb_true_iff in H. destruct H as (Hc & Hb).
  simpl. rewrite Hc. now apply IH.
Qed.

Lemma trimStart_keeps (a w : jsstring) (x : Z) :
  isWhiteSpace x = false ->
  exists a', trimStart (a ++ x :: w) = a' ++ x :: w.
Proof.
  intros Hx. induction a as [|c a IH]; simpl.
  - rewrite Hx. now exists [].
  - destruct (isWhiteSpace c); [exact IH|]. now exists (c :: a).
Qed.

(** Trimming keeps the last character that is not white space. *)
Lemma trim_keeps_last (a w : jsstring) (x : Z) :
  isWhiteSpace x = false -> isBlank w = true ->
  exists a', trim (a ++ x :: w) = a' ++ [x].
Proof.
  intros Hx Hw. destruct (trimStart_keeps a w x Hx) as (a' & E).
  exists a'. unfold trim, trimEnd. rewrite E.
  rewrite rev_app_distr. simpl rev. rewrite <- app_assoc.
  rewrite trimStart_blank_prefix by (now rewrite isBlank_rev).
  simpl. rewrite Hx. simpl. now rewrite rev_involutive.
Qed.

End TriggerFacts.

(** Right after the ['('] of a call has been typed the check of the
    completion passes: for a line that ends, before the cursor, with an
    identifier, white space or none, and ['(']. *)
Theorem completion_check_passes_after_the_paren
    (pre callee space : jsstring) :
  callee <> [] ->
  TextShape.isIdentifier callee ->
  isBlank space = true ->
  ArgumentCompletionProvider.isInsideMethodCall
    (pre ++ callee ++ space ++ [ch "("]) = true.
Proof.
  intros Hne Hid Hsp.
  destruct (exists_last Hne) as (callee' & x & Ec).
  assert (Hx : isIdentChar x = true).
  { unfold TextShape.isIdentifier in Hid. rewrite Forall_forall in Hid.
    apply Hid. rewrite Ec. apply in_or_app. right. now left. }
  set (u := pre ++ callee ++ space).
  replace (pre ++ callee ++ space ++ [ch "("]) with (u ++ [ch "("])
    by (unfold u; now rewrite <- !app_assoc).
  unfold ArgumentCompletionProvider.isInsideMethodCall.
  rewrite length_app. simpl length. rewrite Nat.add_1_r.
  cbn [ArgumentCompletionProvider.isInsideMethodCallFrom].
  unfold at_. rewrite nth_error_app2, Nat.sub_diag by lia.
  cbn [nth_error]. change (ch "(" =? ch ")")%Z with false.
  change (ch "(" =? ch "(")%Z with true. cbn [Z.eqb].
  change (0 =? 0)%Z with true. cbv iota.
  rewrite CompletionFacts.substring_prefix, firstn_app, Nat.sub_diag,
    firstn_all. simpl firstn. rewrite app_nil_r.
  assert (Eu : u = (pre ++ callee') ++ x :: space).
  { unfold u. rewrite Ec. now rewrite <- !app_assoc. }
  destruct (TriggerFacts.trim_keeps_last (pre ++ callee') space x
              (ExtractFacts.identChar_not_whiteSpace x Hx) Hsp) as (a' & Et).
  rewrite Eu, Et.
  unfold ArgumentCompletionProvider.endsWithIdentChar.
  rewrite rev_app_distr. simpl. exact Hx.
Qed.

Lemma completion_check_passes_after_the_paren_witness :
  str "println" <> []
  /\ TextShape.isIdentifier (str "println")
  /\ isBlank (str " ") = true
  /\ ArgumentCompletionProvider.isInsideMethodCall
       (str "System.out.println (") = true.
Proof.
  assert (Hid : TextShape.isIdentifier (str "println"))
    by (repeat constructor).
  split; [discriminate|]. split; [exact Hid|]. split; [reflexivity|].
  exact (completion_check_passes_after_the_paren (str "System.out.")
           (str "println") (str " ") ltac:(discriminate) Hid eq_refl).
Defined.

(** The parameters of the heuristics: at most two, each with the index of
    its position, the type "Object" and a name that is not empty. *)
Theorem heuristic_parameters_well_formed (lcm : Z -> Z * jsstring)
    (callee : jsstring) (isC : bool) (ps : list MethodParameter) :
  ArgumentFiller.generatePlaceholderParameters lcm callee isC = Returned ps ->
  length ps <= 2
  /\ forall i q,
       nth_error ps i = Some q ->
       index q = i /\ type q = str "Object" /\ name q <> [].
Proof.
  intros H.
  pose proof (FillTextFacts.generatePlaceholderParameters_names _ _ _ _ H)
    as Hnames.
  assert (Hshape : length ps <= 2
                   /\ forall i q, nth_error ps i = Some q ->
                                  index q = i /\ type q = str "Object").
  { destruct (ParameterResolver.isSetter callee) eqn:Es.
    - destruct (FillTextFacts.isSetter_shape callee Es) as (c & rest & ->).
      rewrite HeuristicFacts.generatePlaceholderParameters_setter in H.
      injection H as <-. split; [simpl; lia|].
      intros [|[|i]] q Hq; simpl in Hq; try discriminate.
      injection Hq as <-. now split.
    - rewrite (HeuristicFacts.generatePlaceholderParameters_table _ _ _ Es)
        in H.
      unfold ArgumentFiller.getProperty in H.
      destruct (ArgumentFiller.ownProperty ArgumentFiller.knownPatterns callee)
        as [names|] eqn:Eo.
      + injection H as <-. split.
        * rewrite HeuristicFacts.objectParameters_length.
          revert Eo. unfold ArgumentFiller.knownPatterns.
          cbn [ArgumentFiller.ownProperty].
          repeat match goal with
                 | |- context [if ?b then _ else _] => destruct b
                 end;
            intros [= <-]; simpl; lia.
        * intros i q Hq. unfold ParameterResolver.objectParameters, mapi in Hq.
          apply AdapterFacts.nth_error_mapiFrom in Hq.
          destruct Hq as (x & _ & ->). now split.
      + destruct (existsb _ _); [discriminate|].
        injection H as <-. split; [simpl; lia|].
        intros [|i] q Hq; discriminate. }
  destruct Hshape as (Hlen & Hall). split; [exact Hlen|].
  intros i q Hq. destruct (Hall i q Hq) as (Hi & Ht).
  repeat split; try assumption.
  rewrite Forall_forall in Hnames. apply Hnames.
  eapply nth_error_In. exact Hq.
Qed.

Lemma heuristic_parameters_well_formed_witness :
  ArgumentFiller.generatePlaceholderParameters ParameterResolver.unchanged
    (str "substring") false
  = Returned [ {| name := str "beginIndex"; type := str "Object";
                  index := 0 |};
               {| name := str "endIndex"; type := str "Object";
                  index := 1 |} ]
  /\ length (ParameterResolver.objectParameters
               [str "beginIndex"; str "endIndex"]) <= 2.
Proof.
  split; [reflexivity|].
  exact (proj1 (heuristic_parameters_well_formed ParameterResolver.unchanged
                  (str "substring") false _ eq_refl)).
Defined.

(** There is no call site in exactly three cases: no ['('] is left open
    before the cursor; the innermost one that is left open has no [')']
    that closes it; or no callee name stands before it. *)
Theorem no_call_site_iff (text : jsstring) (offset : nat) :
  ArgumentFiller.findMethodCallContext text offset = None
  <-> CallSiteLocator.noOpen text (S (CallSiteLocator.scanStart offset))
      \/ exists p,
           CallSiteLocator.innermostOpen text
             (S (CallSiteLocator.scanStart offset)) p
           /\ (CallSiteLocator.noClose text p
               \/ ArgumentFiller.extractMethodName text p = None).
Proof.
  pose proof (CallSiteLocatorFacts.scanOpenParen_start text
                (S (CallSiteLocator.scanStart offset))) as Hopen.
  unfold ArgumentFiller.findMethodCallContext.
  replace (if 0 <? offset then offset - 1 else 0)
    with (CallSiteLocator.scanStart offset)
    by (unfold CallSiteLocator.scanStart;
        destruct (Nat.ltb_spec 0 offset); lia).
  destruct (ArgumentFiller.scanOpenParen text
              (S (CallSiteLocator.scanStart offset)) 0) as [p|].
  - pose proof (CallSiteLocatorFacts.scanCloseParen_from text p
                  (proj1 Hopen)) as Hclose.
    assert (Huniq : forall p', CallSiteLocator.innermostOpen text
                                 (S (CallSiteLocator.scanStart offset)) p' ->
                               p' = p).
    { intros p' Hp'. symmetry.
      exact (CallSiteLocatorFacts.innermostOpen_unique _ _ _ _ Hopen Hp'). }
    assert (Hnot : ~ CallSiteLocator.noOpen text
                       (S (CallSiteLocator.scanStart offset))).
    { intros Hno. destruct Hopen as (_ & Hlt & Hone & _).
      specialize (Hno p Hlt). lia. }
    destruct (ArgumentFiller.scanCloseParen _ _ _) as [q|].
    + destruct (ArgumentFiller.extractMethodName text p) as [[nm isC]|] eqn:En.
      * split; [discriminate|].
        intros [Hno|(p' & Hp' & [Hnc|Hex])]; [contradiction| |].
        -- rewrite (Huniq p' Hp') in Hnc.
           destruct Hclose as (Hlt & Hat & Hzero & _).
           assert (Hq : q < length text).
           { apply nth_error_Some. unfold at_ in Hat. congruence. }
           specialize (Hnc q ltac:(lia)). lia.
        -- rewrite (Huniq p' Hp') in Hex. congruence.
      * split; [|reflexivity]. intros _. right. exists p.
        split; [exact Hopen|now right].
    + split; [|reflexivity]. intros _. right. exists p.
      split; [exact Hopen|now left].
  - split; [|reflexivity]. intros _. now left.
Qed.

(** ** The sort keys of the suggestions *)

Module SortKeyFacts.

Import ArgumentCompletionProvider TextShape.

(** The suggestion of the parameter at position [i]. *)
Lemma createCompletionItems_nth (ps : list MethodParameter)
    (document : TextDocument) (position : Position)
    (first : CompletionItem) (rest : list CompletionItem) :
  createCompletionItems ps document position = Returned (first :: rest) ->
  item_sortText first = str "0"
  /\ forall i a,
       nth_error rest i = Some a ->
       item_sortText a = str "1" ++ numberToString i.
Proof.
  unfold createCompletionItems.
  destruct (calculateReplaceRange document position) as [rng|e];
    [|discriminate].
  cbn [bind]. intros [= <- <-]. split; [reflexivity|].
  intros i a Ha. unfold mapi in Ha.
  apply AdapterFacts.nth_error_mapiFrom in Ha.
  destruct Ha as (x & _ & ->). reflexivity.
Qed.

Lemma digit_keys_in_order (i j : nat) :
  i < j -> j <= 9 ->
  sortsBefore (str "1" ++ numberToString i) (str "1" ++ numberToString j)
  = true.
Proof.
  intros Hij Hj.
  do 10 (destruct j as [|j]; [do 10 (destruct i as [|i]; [first [lia | reflexivity]|]); lia|]).
  lia.
Qed.

End SortKeyFacts.

(** The sort keys of the suggestions, compared as strings: the key of
    "Fill all arguments" comes before that of every parameter, and the
    keys of the first ten parameters come in the order of the parameters.
    From the eleventh parameter on they do not: its key, "110", comes
    before "12", the key of the third. *)
Theorem suggestion_sort_keys (ps : list MethodParameter)
    (document : TextDocument) (position : Position)
    (first : ArgumentCompletionProvider.CompletionItem)
    (rest : list ArgumentCompletionProvider.CompletionItem) :
  ArgumentCompletionProvider.createCompletionItems ps document position
  = Returned (first :: rest) ->
  (forall a, In a rest ->
     TextShape.sortsBefore (ArgumentCompletionProvider.item_sortText first)
       (ArgumentCompletionProvider.item_sortText a) = true)
  /\ (forall i j a b,
        i < j -> j <= 9 ->
        nth_error rest i = Some a -> nth_error rest j = Some b ->
        TextShape.sortsBefore (ArgumentCompletionProvider.item_sortText a)
          (ArgumentCompletionProvider.item_sortText b) = true)
  /\ (forall a b,
        nth_error rest 2 = Some a -> nth_error rest 10 = Some b ->
        TextShape.sortsBefore (ArgumentCompletionProvider.item_sortText b)
          (ArgumentCompletionProvider.item_sortText a) = true).
Proof.
  intros H.
  destruct (SortKeyFacts.createCompletionItems_nth _ _ _ _ _ H)
    as (Hfirst & Hrest).
  split; [|split].
  - intros a Ha. apply In_nth_error in Ha. destruct Ha as (i & Hi).
    rewrite Hfirst, (Hrest i a Hi). reflexivity.
  - intros i j a b Hij Hj Ha Hb.
    rewrite (Hrest i a Ha), (Hrest j b Hb).
    now apply SortKeyFacts.digit_keys_in_order.
  - intros a b Ha Hb. rewrite (Hrest 2 a Ha), (Hrest 10 b Hb). reflexivity.
Qed.

Lemma suggestion_sort_keys_witness :
  exists first rest,
    ArgumentCompletionProvider.createCompletionItems
      (ParameterResolver.objectParameters [str "key"; str "value"])
      (ParameterResolver.singleLine (str "x.put("))
      {| line := 0; character := 6 |}
    = Returned (first :: rest)
    /\ forall a, In a rest ->
         TextShape.sortsBefore
           (ArgumentCompletionProvider.item_sortText first)
           (ArgumentCompletionProvider.item_sortText a) = true.
Proof.
  eexists _, _. split; [reflexivity|].
  exact (proj1 (suggestion_sort_keys
                  (ParameterResolver.objectParameters
                     [str "key"; str "value"])
                  (ParameterResolver.singleLine (str "x.put("))
                  {| line := 0; character := 6 |} _ _ eq_refl)).
Defined.
